(** * A segregated-free-list allocator (mm.c): shallow embedding and verification

    The allocator of [mm.c] manages one growable arena.  Every block carries a
    4-byte header and a 4-byte footer holding [size | alloc]; the header of a
    block and the footer of its predecessor share one 8-byte word.  Free
    blocks are threaded on 11 doubly linked lists whose links are 32-bit
    offsets from the start of the arena, two of them packed into the first
    payload word.

    The embedding follows the C text: memory is a map from byte addresses to
    bytes (little endian, as on x86-64), [unsigned] values wrap modulo 2^32,
    [size_t] values modulo 2^64, and every macro of the source is a definition
    of the same name.  Pointer arithmetic on [char *] is arithmetic on [Z]. *)

From Stdlib Require Import ZArith Lia List Bool.
Import ListNotations.
Open Scope Z_scope.

(** ** Machine integers *)

Module Mach.

Definition u32 (x : Z) : Z := x mod 2 ^ 32.
Definition u64 (x : Z) : Z := x mod 2 ^ 64.

(** Conversion to [int]: the value is reduced to 32 bits and read in two's
    complement. *)
Definition s32 (x : Z) : Z :=
  let r := x mod 2 ^ 32 in if r <? 2 ^ 31 then r else r - 2 ^ 32.

End Mach.
Import Mach.

(** ** Byte-addressed memory *)

Module Mem.

Definition memory := Z -> Z.

Definition load8 (m : memory) (a : Z) : Z := m a mod 256.

Definition load32 (m : memory) (a : Z) : Z :=
  load8 m a + 2 ^ 8 * load8 m (a + 1) + 2 ^ 16 * load8 m (a + 2)
  + 2 ^ 24 * load8 m (a + 3).

Definition load64 (m : memory) (a : Z) : Z :=
  load32 m a + 2 ^ 32 * load32 m (a + 4).

Definition store8 (m : memory) (a v : Z) : memory :=
  fun x => if x =? a then v mod 256 else m x.

Definition store32 (m : memory) (a v : Z) : memory :=
  fun x => if (a <=? x) && (x <? a + 4) then (v / 2 ^ (8 * (x - a))) mod 256 else m x.

Definition store64 (m : memory) (a v : Z) : memory :=
  fun x => if (a <=? x) && (x <? a + 8) then (v / 2 ^ (8 * (x - a))) mod 256 else m x.

(** [memcpy]: the [n] bytes at [src] are read and written to [dst].  The C
    standard leaves overlapping copies undefined; the model reads the whole
    source first. *)
Definition memcpy (m : memory) (dst src n : Z) : memory :=
  fun x => if (dst <=? x) && (x <? dst + n) then load8 m (src + (x - dst)) else m x.

End Mem.
Import Mem.

(** ** Parameters and macros of mm.c *)

Definition WSIZE : Z := 8.
Definition DWSIZE : Z := 16.
Definition MIN_SIZE : Z := 16.
Definition PAGESIZE : Z := Z.shiftl 1 8.
Definition ALIGNMENT : Z := 8.
Definition NO_LISTS : Z := 11.

Definition MAX (x y : Z) : Z := if x >? y then x else y.
Definition PACK (size alloc : Z) : Z := u32 (Z.lor size alloc).
Definition GET (m : memory) (p : Z) : Z := load64 m p.
Definition GET_INT (m : memory) (p : Z) : Z := load32 m p.
Definition PUT (m : memory) (p val : Z) : memory := store64 m p val.
Definition PUT_INT (m : memory) (p val : Z) : memory := store32 m p val.

(** [h] is the value of the global [heap]. *)
Definition FULL_HEAP (h : Z) : Z := h - (NO_LISTS + 1) * WSIZE.
Definition INDEX (h : Z) : Z := u64 (FULL_HEAP h).

Definition SPLIT : Z := Z.shiftl 1 32 - 1.
Definition NOT_SPLIT : Z := u64 (Z.lnot SPLIT).

Definition SEE_NEXT (p : Z) : Z := Z.land p SPLIT.
Definition SEE_PREV (p : Z) : Z := Z.shiftr (Z.land p NOT_SPLIT) 32.

Definition NEXTP (h p : Z) : Z :=
  if SEE_NEXT p =? 0 then 0 else u64 (INDEX h + SEE_NEXT p).
Definition PREVP (h p : Z) : Z :=
  if SEE_PREV p =? 0 then 0 else u64 (INDEX h + SEE_PREV p).

Definition CLEAR_NEXT (m : memory) (dest : Z) : memory :=
  PUT m dest (Z.land (GET m dest) NOT_SPLIT).
Definition CLEAR_PREV (m : memory) (dest : Z) : memory :=
  PUT m dest (Z.land (GET m dest) SPLIT).

Definition PUT_NPTR (m : memory) (h dest val : Z) : memory :=
  PUT m dest (Z.lor (GET m dest) (u64 (val - INDEX h))).
Definition PUT_PPTR (m : memory) (h dest val : Z) : memory :=
  PUT m dest (Z.lor (GET m dest) (u64 (Z.shiftl (u64 (val - INDEX h)) 32))).

(** [PUT_PREV] and [PUT_NEXT] are two statements; a macro argument is an
    expression, evaluated anew in the memory each statement finds. *)
Definition PUT_PREV (m : memory) (h : Z) (dest val : memory -> Z) : memory :=
  let m1 := CLEAR_PREV m (dest m) in PUT_PPTR m1 h (dest m1) (val m1).
Definition PUT_NEXT (m : memory) (h : Z) (dest val : memory -> Z) : memory :=
  let m1 := CLEAR_NEXT m (dest m) in PUT_NPTR m1 h (dest m1) (val m1).

Definition FULL_HDR (bp : Z) : Z := bp - WSIZE.
Definition PREV (p : Z) : Z := p + 4.
Definition THIS (p : Z) : Z := p.

Definition GET_SIZE (m : memory) (p : Z) : Z := Z.land (GET_INT m p) (u32 (Z.lnot 7)).
Definition GET_ALLOC (m : memory) (p : Z) : Z := Z.land (GET_INT m p) 1.
Definition HDR (bp : Z) : Z := THIS (FULL_HDR bp).
Definition FTR (m : memory) (bp : Z) : Z := PREV (bp + GET_SIZE m (HDR bp) - WSIZE).
Definition NEXT_BLK (m : memory) (bp : Z) : Z := bp + GET_SIZE m (THIS (FULL_HDR bp)).
Definition PREV_BLK (m : memory) (bp : Z) : Z := bp - GET_SIZE m (PREV (FULL_HDR bp)).

Definition ALIGN (p : Z) : Z := Z.land (u64 (p + (ALIGNMENT - 1))) (u64 (Z.lnot 7)).

(** ** Allocator state *)

(** The global [heap] together with the arena: its bytes, its current end
    [mem_brk] and the address [mem_max_addr] it may not grow past. *)
Record state : Type := mkState {
  mem : memory;
  heap : Z;
  mem_brk : Z;
  mem_max_addr : Z
}.

Definition set_mem (st : state) (m : memory) : state :=
  mkState m (heap st) (mem_brk st) (mem_max_addr st).
Definition set_heap (st : state) (h : Z) : state :=
  mkState (mem st) h (mem_brk st) (mem_max_addr st).

(** Modelled from the spec: the arena growth primitive [mem_sbrk] of memlib,
    which is not among the sources.  It only appends: the old end of the arena
    is returned and the end moves up by [incr]; it fails, changing nothing,
    when the arena would pass [mem_max_addr]. *)
Definition mem_sbrk (st : state) (incr : Z) : option (Z * state) :=
  if mem_max_addr st <? mem_brk st + incr then None
  else Some (mem_brk st, mkState (mem st) (heap st) (mem_brk st + incr) (mem_max_addr st)).

(** ** find_size_bin *)

(** The loop [while (asize > cut_off - 1) { asize >>= 1; size_bin += 1; }] on
    an [int]; 32 rounds are more than any [int] needs. *)
Fixpoint find_size_bin_loop (fuel : nat) (asize size_bin : Z) : Z :=
  match fuel with
  | O => size_bin
  | S fuel' =>
      if asize >? 64 - 1
      then find_size_bin_loop fuel' (Z.shiftr asize 1) (size_bin + 1)
      else size_bin
  end.

Definition find_size_bin (asize : Z) : Z :=
  let size_bin := find_size_bin_loop 32 asize 0 in
  if size_bin >=? NO_LISTS - 1 then NO_LISTS - 1 else size_bin.

(** ** Free-list maintenance *)

Definition lifo_insert (st : state) (bp : Z) : state :=
  let m := mem st in
  let h := heap st in
  let size_bin := find_size_bin (s32 (GET_SIZE m (HDR bp))) in
  let free_list := FULL_HEAP h + size_bin * WSIZE in
  let m1 :=
    if negb (GET m free_list =? 0) then
      let m' := PUT_NEXT m h (fun _ => bp) (fun m => GET m free_list) in
      PUT_PREV m' h (fun m => GET m free_list) (fun _ => bp)
    else CLEAR_NEXT m bp in
  let m2 := PUT m1 free_list bp in
  set_mem st (CLEAR_PREV m2 bp).

Definition remove_from_list (st : state) (bp : Z) : state :=
  let m := mem st in
  let h := heap st in
  let size_bin := find_size_bin (s32 (GET_SIZE m (HDR bp))) in
  let free_list := FULL_HEAP h + size_bin * WSIZE in
  if negb (PREVP h (GET m bp) =? 0) then
    if negb (NEXTP h (GET m bp) =? 0) then
      let m1 := PUT_NEXT m h (fun m => PREVP h (GET m bp)) (fun m => NEXTP h (GET m bp)) in
      set_mem st (PUT_PREV m1 h (fun m => NEXTP h (GET m bp)) (fun m => PREVP h (GET m bp)))
    else set_mem st (CLEAR_NEXT m (PREVP h (GET m bp)))
  else
    let m1 := PUT m free_list (NEXTP h (GET m bp)) in
    if negb (NEXTP h (GET m1 bp) =? 0)
    then set_mem st (CLEAR_PREV m1 (NEXTP h (GET m1 bp)))
    else set_mem st m1.

(** ** coalesce, free, place *)

Definition coalesce (st : state) (bp : Z) : Z * state :=
  let m := mem st in
  let prev_alloc := GET_ALLOC m (FTR m (PREV_BLK m bp)) in
  let next_alloc := GET_ALLOC m (HDR (NEXT_BLK m bp)) in
  let size := GET_SIZE m (HDR bp) in
  if negb (prev_alloc =? 0) && negb (next_alloc =? 0) then
    (bp, lifo_insert st bp)
  else if negb (prev_alloc =? 0) && (next_alloc =? 0) then
    let st1 := remove_from_list st (NEXT_BLK m bp) in
    let m1 := mem st1 in
    let size := u32 (size + GET_SIZE m1 (HDR (NEXT_BLK m1 bp))) in
    let m2 := PUT_INT m1 (HDR bp) (PACK size 0) in
    let m3 := PUT_INT m2 (FTR m2 bp) (PACK size 0) in
    (bp, lifo_insert (set_mem st1 m3) bp)
  else if (prev_alloc =? 0) && negb (next_alloc =? 0) then
    let st1 := remove_from_list st (PREV_BLK m bp) in
    let m1 := mem st1 in
    let size := u32 (size + GET_SIZE m1 (HDR (PREV_BLK m1 bp))) in
    let m2 := PUT_INT m1 (HDR (PREV_BLK m1 bp)) (PACK size 0) in
    let m3 := PUT_INT m2 (FTR m2 bp) (PACK size 0) in
    let st3 := lifo_insert (set_mem st1 m3) (PREV_BLK m3 bp) in
    (PREV_BLK (mem st3) bp, st3)
  else
    let st1 := remove_from_list st (PREV_BLK m bp) in
    let st2 := remove_from_list st1 (NEXT_BLK (mem st1) bp) in
    let m2 := mem st2 in
    let size := u32 (size + (GET_SIZE m2 (HDR (PREV_BLK m2 bp))
                             + GET_SIZE m2 (FTR m2 (NEXT_BLK m2 bp)))) in
    let m3 := PUT_INT m2 (HDR (PREV_BLK m2 bp)) (PACK size 0) in
    let m4 := PUT_INT m3 (FTR m3 (NEXT_BLK m3 bp)) (PACK size 0) in
    let st5 := lifo_insert (set_mem st2 m4) (PREV_BLK m4 bp) in
    (PREV_BLK (mem st5) bp, st5).

Definition free (st : state) (bp : Z) : state :=
  if bp =? 0 then st
  else
    let m := mem st in
    let size := GET_SIZE m (HDR bp) in
    let m1 := PUT_INT m (HDR bp) (PACK size 0) in
    let m2 := PUT_INT m1 (FTR m1 bp) (PACK size 0) in
    snd (coalesce (set_mem st m2) bp).

Definition place (st : state) (bp asize : Z) : state :=
  let init_size := GET_SIZE (mem st) (HDR bp) in
  if u64 (init_size - asize) >=? MIN_SIZE then
    let st1 := remove_from_list st bp in
    let m1 := mem st1 in
    let m2 := PUT_INT m1 (HDR bp) (PACK asize 1) in
    let m3 := PUT_INT m2 (FTR m2 bp) (PACK asize 1) in
    let bp' := NEXT_BLK m3 bp in
    let m4 := PUT_INT m3 (HDR bp') (PACK (u64 (init_size - asize)) 0) in
    let m5 := PUT_INT m4 (FTR m4 bp') (PACK (u64 (init_size - asize)) 0) in
    lifo_insert (set_mem st1 m5) bp'
  else
    let st1 := remove_from_list st bp in
    let m1 := mem st1 in
    let m2 := PUT_INT m1 (HDR bp) (PACK init_size 1) in
    set_mem st1 (PUT_INT m2 (FTR m2 bp) (PACK init_size 1)).

(** ** grow_heap and mm_init *)

Definition grow_heap (st : state) (words : Z) : Z * state :=
  let size := u32 (if negb (words mod 2 =? 0) then u64 ((words + 1) * WSIZE)
                   else u64 (words * WSIZE)) in
  match mem_sbrk st size with
  | None => (0, st)
  | Some (bp, st1) =>
      let m := mem st1 in
      let m1 := PUT_INT m (HDR bp) (PACK size 0) in
      let m2 := PUT_INT m1 (FTR m1 bp) (PACK size 0) in
      let m3 := PUT_INT m2 (HDR (NEXT_BLK m2 bp)) (PACK 0 1) in
      coalesce (set_mem st1 m3) bp
  end.

Fixpoint init_lists (n : nat) (x : Z) (h : Z) (m : memory) : memory :=
  match n with
  | O => m
  | S n' => init_lists n' (x + 1) h (PUT m (FULL_HEAP h + x * WSIZE) 0)
  end.

(** The result pairs the return value (0 or -1) with the state.  [mm_init]
    compares the result of [mem_sbrk] with NULL and [grow_heap] tests it for
    a negative address; both are taken as the test for its failure. *)
Definition mm_init (st : state) : Z * state :=
  match mem_sbrk st ((3 + NO_LISTS) * WSIZE) with
  | None => (-1, st)
  | Some (h, st1) =>
      let m := mem st1 in
      let m1 := PUT m h (PACK 0 0) in
      let m2 := PUT_INT m1 (THIS (h + (NO_LISTS + 1) * WSIZE)) (PACK WSIZE 1) in
      let m3 := PUT_INT m2 (PREV (h + (NO_LISTS + 2) * WSIZE)) (PACK WSIZE 1) in
      let m4 := PUT_INT m3 (THIS (h + (NO_LISTS + 2) * WSIZE)) (PACK 0 1) in
      let h' := h + (2 + NO_LISTS) * WSIZE in
      let m5 := init_lists (Z.to_nat NO_LISTS) 0 h' m4 in
      let (bp, st2) :=
        grow_heap (mkState m5 h' (mem_brk st1) (mem_max_addr st1)) (PAGESIZE / WSIZE) in
      if bp =? 0 then (-1, st2) else (0, st2)
  end.

(** ** find_fit *)

(** The two [do ... while (bp != 0)] scans follow the links stored in memory;
    [fuel] bounds the number of blocks visited, and [None] means it ran out. *)
Fixpoint first_fit_loop (fuel : nat) (m : memory) (h asize bp : Z) : option Z :=
  match fuel with
  | O => None
  | S fuel' =>
      if asize <=? GET_SIZE m (HDR bp) then Some bp
      else
        let bp' := NEXTP h (GET m bp) in
        if negb (bp' =? 0) then first_fit_loop fuel' m h asize bp' else Some 0
  end.

Fixpoint best_fit_loop (fuel : nat) (m : memory) (h asize bp best_fitp best_fit : Z)
  : option (Z * Z) :=
  match fuel with
  | O => None
  | S fuel' =>
      let '(best_fitp, best_fit) :=
        if (asize <=? GET_SIZE m (HDR bp)) && (GET_SIZE m (HDR bp) <=? best_fit)
        then (bp, GET_SIZE m (HDR bp)) else (best_fitp, best_fit) in
      let bp' := NEXTP h (GET m bp) in
      if negb (bp' =? 0) then best_fit_loop fuel' m h asize bp' best_fitp best_fit
      else Some (best_fitp, best_fit)
  end.

(** The [for (x = size_bin; x < NO_LISTS; x++)] loop, [n] bins to go. *)
Fixpoint find_fit_bins (fuel n : nat) (x : Z) (m : memory) (h asize best_fitp best_fit : Z)
  : option Z :=
  match n with
  | O => Some best_fitp
  | S n' =>
      let free_list := FULL_HEAP h + x * WSIZE in
      if GET m free_list =? 0 then
        find_fit_bins fuel n' (x + 1) m h asize best_fitp best_fit
      else
        let bp := GET m free_list in
        if x =? NO_LISTS - 1 then
          match best_fit_loop fuel m h asize bp best_fitp best_fit with
          | None => None
          | Some (p, b) => find_fit_bins fuel n' (x + 1) m h asize p b
          end
        else
          match first_fit_loop fuel m h asize bp with
          | None => None
          | Some r =>
              if negb (r =? 0) then Some r
              else find_fit_bins fuel n' (x + 1) m h asize best_fitp best_fit
          end
  end.

(** [1<<31] is an [int]: it is the least [int], and becomes 2^64 - 2^31 when
    stored in the [size_t] [best_fit]. *)
Definition best_fit_init : Z := u64 (s32 (Z.shiftl 1 31)).

Definition find_fit (fuel : nat) (st : state) (asize : Z) : option Z :=
  let size_bin := find_size_bin (s32 asize) in
  find_fit_bins fuel (Z.to_nat (NO_LISTS - size_bin)) size_bin (mem st) (heap st)
    asize 0 best_fit_init.

(** ** malloc, realloc, calloc *)

Definition adjust (size : Z) : Z :=
  if size <=? WSIZE then u32 (WSIZE + WSIZE) else u32 (ALIGN (u64 (size + WSIZE))).

Definition malloc (fuel : nat) (st : state) (size : Z) : option (Z * state) :=
  if size <=? 0 then Some (0, st)
  else
    let asize := adjust size in
    match find_fit fuel st asize with
    | None => None
    | Some bp =>
        if negb (bp =? 0) then Some (bp, place st bp asize)
        else
          let extendsize := MAX asize PAGESIZE in
          let (bp, st1) := grow_heap st (extendsize / WSIZE) in
          if bp =? 0 then Some (0, st1)
          else Some (bp, place st1 bp asize)
    end.

Definition realloc (fuel : nat) (st : state) (oldptr size : Z) : option (Z * state) :=
  let asize := adjust size in
  if size =? 0 then Some (0, free st oldptr)
  else if oldptr =? 0 then malloc fuel st size
  else
    let buff := GET (mem st) oldptr in
    let oldsize := GET_SIZE (mem st) (HDR oldptr) in
    let st1 := free st oldptr in
    match find_fit fuel st1 asize with
    | None => None
    | Some bp =>
        let (bp, st2) :=
          if bp =? 0 then grow_heap st1 (MAX asize PAGESIZE / WSIZE) else (bp, st1) in
        if bp =? 0 then Some (0, st2)
        else
          let oldsize := if asize <? oldsize then asize else oldsize in
          let oldsize := u32 (oldsize - WSIZE) in
          let m3 := memcpy (mem st2) (bp + WSIZE) (oldptr + WSIZE) (u32 (oldsize - WSIZE)) in
          let st4 := place (set_mem st2 m3) bp asize in
          Some (bp, set_mem st4 (PUT (mem st4) bp buff))
    end.

(** [for (unsigned i = 0; i < nmemb*size; i += 4)]. *)
Fixpoint calloc_loop (fuel : nat) (m : memory) (bp i n : Z) : option memory :=
  match fuel with
  | O => None
  | S fuel' =>
      if i <? n then calloc_loop fuel' (PUT_INT m (bp + i) 0) bp (u32 (i + 4)) n
      else Some m
  end.

Definition calloc (fuel : nat) (st : state) (nmemb size : Z) : option (Z * state) :=
  match malloc fuel st (u64 (nmemb * size)) with
  | None => None
  | Some (bp, st1) =>
      if negb (bp =? 0) then
        match calloc_loop fuel (mem st1) bp 0 (u64 (nmemb * size)) with
        | None => None
        | Some m => Some (0, set_mem st1 m)
        end
      else Some (0, st1)
  end.

(** ** Size classes *)

(** The bucket rule in the words of the specification. *)
Definition bucket_spec (s : Z) : Z := Z.max 0 (Z.min 10 (Z.log2 s - 6)).

(** [align_up x a]: the least multiple of [a] that is at least [x]. *)
Definition align_up (x a : Z) : Z := (x + (a - 1)) / a * a.

(** A fresh arena of 16 MiB at address 4096, and the heap [mm_init] builds in it. *)
Definition arena0 : state := mkState (fun _ => 0) 0 4096 (4096 + 2 ^ 24).
Definition heap0 : state := snd (mm_init arena0).

(** ** Free lists: the invariant *)

Definition slot (h i : Z) : Z := FULL_HEAP h + i * WSIZE.
Definition nxt (m : memory) (h x : Z) : Z := NEXTP h (GET m x).
Definition prv (m : memory) (h x : Z) : Z := PREVP h (GET m x).
Definition bin (m : memory) (x : Z) : Z := find_size_bin (s32 (GET_SIZE m (HDR x))).

Definition in_slots (h a : Z) : Prop := FULL_HEAP h <= a < FULL_HEAP h + NO_LISTS * WSIZE.

(** Where blocks may sit: [G] holds the payload addresses of the blocks of an
    arena whose first block starts at [h + 8] and which ends at [top]. *)
Record geom (h top : Z) (G : Z -> Prop) : Prop := mkGeom {
  g_base : 96 <= h;
  g_top : h + 8 <= top;
  g_span : top <= FULL_HEAP h + 2 ^ 32;
  g_64 : top < 2 ^ 64;
  g_in : forall x, G x -> h + 8 <= x /\ x + 16 <= top;
  g_sep : forall x y, G x -> G y -> x = y \/ x + 16 <= y \/ y + 16 <= x
}.

(** The blocks in [F] form the 11 doubly linked lists: every list head and
    every link is a member of [F], links are mutual, the head of a list is the
    one block without predecessor, a list holds one size class, and [pos]
    grows along the successor links (so no list runs in a circle). *)
Record lists_ok (m : memory) (h : Z) (F : Z -> Prop) : Prop := mkListsOk {
  l_head : forall i, 0 <= i < NO_LISTS -> GET m (slot h i) <> 0 ->
           F (GET m (slot h i)) /\ prv m h (GET m (slot h i)) = 0
           /\ bin m (GET m (slot h i)) = i;
  l_next : forall x, F x -> nxt m h x <> 0 ->
           F (nxt m h x) /\ prv m h (nxt m h x) = x /\ bin m (nxt m h x) = bin m x;
  l_prev : forall x, F x -> prv m h x <> 0 ->
           F (prv m h x) /\ nxt m h (prv m h x) = x;
  l_first : forall x, F x -> prv m h x = 0 -> GET m (slot h (bin m x)) = x;
  l_rank : exists (pos : Z -> Z) (A B : Z), forall x, F x ->
           A <= pos x < B /\ (nxt m h x <> 0 -> pos x < pos (nxt m h x))
}.

(** ** The arena as a sequence of blocks *)

(** A block is its size and its allocation bit. *)
Definition block : Type := (Z * bool)%type.

Definition tag (s : Z) (a : bool) : Z := s + Z.b2z a.

Fixpoint total (bs : list block) : Z :=
  match bs with
  | [] => 0
  | (s, _) :: r => s + total r
  end.

(** Payload address, size and allocation bit of every block, the first block
    having its payload at [p]. *)
Fixpoint starts (p : Z) (bs : list block) : list (Z * Z * bool) :=
  match bs with
  | [] => []
  | (s, a) :: r => (p, s, a) :: starts (p + s) r
  end.

(** The boundary tags in memory spell out [bs] from payload address [p] on:
    the header of a block sits 8 bytes below its payload, its footer in the
    last 4 bytes of the block. *)
Fixpoint seg (m : memory) (p : Z) (bs : list block) : Prop :=
  match bs with
  | [] => True
  | (s, a) :: r =>
      (16 <= s /\ s mod 8 = 0)
      /\ GET_INT m (p - 8) = tag s a /\ GET_INT m (p + s - 4) = tag s a
      /\ seg m (p + s) r
  end.

Definition blk (h : Z) (bs : list block) (x s : Z) (a : bool) : Prop :=
  In (x, s, a) (starts (h + 8) bs).
Definition any_at (h : Z) (bs : list block) (x : Z) : Prop := exists s a, blk h bs x s a.
Definition free_at (h : Z) (bs : list block) (x : Z) : Prop := exists s, blk h bs x s false.

(** The heap is laid out as [mm_init] and [grow_heap] build it: prologue,
    the blocks [bs], epilogue header at the very end of the arena. *)
Record tiled (st : state) (bs : list block) : Prop := mkTiled {
  t_align : heap st mod 8 = 0;
  t_base : 104 <= heap st;
  t_brk : mem_brk st = heap st + 8 + total bs;
  t_max : mem_brk st <= mem_max_addr st;
  t_span : mem_max_addr st <= FULL_HEAP (heap st) + 2 ^ 32;
  t_top : mem_max_addr st < 2 ^ 64;
  t_pro_hdr : GET_INT (mem st) (heap st - 8) = tag 8 true;
  t_pro_ftr : GET_INT (mem st) (heap st + 4) = tag 8 true;
  t_seg : seg (mem st) (heap st + 8) bs;
  t_epi : GET_INT (mem st) (mem_brk st - 8) = tag 0 true
}.

(** The invariant of the allocator between calls. *)
Definition Inv (st : state) (bs : list block) : Prop :=
  tiled st bs /\ lists_ok (mem st) (heap st) (free_at (heap st) bs).

(** No two neighbours are both free. *)
Fixpoint no_adj (bs : list block) : Prop :=
  match bs with
  | (_, a1) :: r =>
      match r with
      | (_, a2) :: _ => (a1 = true \/ a2 = true) /\ no_adj r
      | [] => True
      end
  | [] => True
  end.

(** The free blocks to the left and to the right of a run of total size [S]
    that follows the blocks [l1]. *)
Definition outside (h : Z) (l1 : list block) (S : Z) (l2 : list block) (y : Z) : Prop :=
  exists sy, In (y, sy, false) (starts (h + 8) l1)
             \/ In (y, sy, false) (starts (h + 8 + total l1 + S) l2).

(** [m'] differs from [m] at most in the list heads, in the link words of the
    blocks in [L] and in the 4-byte tags at the addresses in [T]. *)
Definition heap_frame (h : Z) (L T : Z -> Prop) (m m' : memory) : Prop :=
  forall a, ~ in_slots h a ->
            (forall d, L d -> ~ (d <= a < d + 8)) ->
            (forall c, T c -> ~ (c <= a < c + 4)) ->
            m' a = m a.

Definition no_tags (c : Z) : Prop := False.

(** The tag addresses of the blocks [bs]. *)
Definition tags_of (h : Z) (bs : list block) (c : Z) : Prop :=
  exists x s a, blk h bs x s a /\ (c = x - 8 \/ c = x + s - 4).

(** ** Coalescing, on the list of blocks *)

(** The last block of [l] when it is free, and what is left of it. *)
Definition split_last (l : list block) : list block * Z :=
  match rev l with
  | (t, false) :: r => (rev r, t)
  | _ => (l, 0)
  end.

Definition split_first (l : list block) : list block * Z :=
  match l with
  | (t, false) :: r => (r, t)
  | _ => (l, 0)
  end.

(** The block of size [s] between [l1] and [l2], merged with its free
    neighbours. *)
Definition coalesced (l1 : list block) (s : Z) (l2 : list block) : list block :=
  fst (split_last l1) ++ (snd (split_last l1) + s + snd (split_first l2), false)
    :: fst (split_first l2).

(** What [place] makes of a free block of size [s] asked for [asize] bytes. *)
Definition placed (s asize : Z) : list block :=
  if 16 <=? s - asize then [(asize, true); (s - asize, false)] else [(s, true)].

(** A result of the search for [asize] bytes among the blocks [F]: no
    block, or one of them that is large enough. *)
Definition fit (m : memory) (F : Z -> Prop) (asize r : Z) : Prop :=
  r = 0 \/ (F r /\ asize <= GET_SIZE m (HDR r)).

(** The number of bytes [grow_heap] asks for: [words] rounded up to an even
    number of words. *)
Definition grow_size (words : Z) : Z := (words + words mod 2) * WSIZE.

(** An arena [mm_init] can start from: empty, word-aligned, with room for
    the list heads, the prologue, the epilogue and a first page, and no
    larger than a 32-bit offset can address. *)
Record fresh (st : state) : Prop := mkFresh {
  f_align : mem_brk st mod 8 = 0;
  f_pos : 0 <= mem_brk st;
  f_room : mem_brk st + 368 <= mem_max_addr st;
  f_span : mem_max_addr st <= mem_brk st + 8 + 2 ^ 32;
  f_top : mem_max_addr st < 2 ^ 64
}.

(** The payload bytes of the allocated blocks of [bs] are the same in [m']
    as in [m]. *)
Definition kept (h : Z) (bs : list block) (m m' : memory) : Prop :=
  forall x s a, blk h bs x s true -> x <= a < x + s - 8 -> m' a = m a.

(** The allocated blocks of [bs] are allocated blocks of [bs'], as large
    and at the same addresses. *)
Definition stays (h : Z) (bs bs' : list block) : Prop :=
  forall x s, blk h bs x s true -> blk h bs' x s true.

(** The request sizes for which the 32-bit block size neither wraps nor
    makes the arena grow by a wrapped amount. *)
Definition sane (size : Z) : Prop := 0 < size <= 2 ^ 32 - 24.

(** The part of a block the allocator's own data does not reach: all of an
    allocated block's payload, and a free block's up to its link word. *)
Definition inner (x s : Z) (b : bool) (a : Z) : Prop :=
  x + (if b then 0 else 8) <= a < x + s - 8.

(** The last steps of [realloc], once the new block [bp] is known: the
    copy, [place], and the saved first word put back. *)
Definition realloc_finish (st2 : state) (bp oldptr asize oldsize buff : Z) : state :=
  let oldsize := if asize <? oldsize then asize else oldsize in
  let oldsize := u32 (oldsize - WSIZE) in
  let m3 := memcpy (mem st2) (bp + WSIZE) (oldptr + WSIZE) (u32 (oldsize - WSIZE)) in
  let st4 := place (set_mem st2 m3) bp asize in
  set_mem st4 (PUT (mem st4) bp buff).

(** ** Sequences of calls *)

(** The live addresses after a call that returned [p]. *)
Definition track (p : Z) (live : list Z) : list Z := if p =? 0 then live else p :: live.

(** [reach P st live rets]: [st] is reached from a fresh arena by [mm_init]
    and calls of [malloc], [free], [realloc] and [calloc] whose sizes, when
    not zero, satisfy [P]; the caller frees and resizes only null or
    addresses it was given and has not freed since, [live]; [rets] are the
    results of the calls, last first.  A [realloc] that fails has freed its
    block all the same, so the block leaves [live]. *)
Inductive reach (P : Z -> Prop) : state -> list Z -> list Z -> Prop :=
| reach_init st0 :
    fresh st0 -> reach P (snd (mm_init st0)) [] []
| reach_malloc st live rets fuel n p st' :
    reach P st live rets -> n = 0 \/ P n ->
    malloc fuel st n = Some (p, st') ->
    reach P st' (track p live) (p :: rets)
| reach_free st live rets p :
    reach P st live rets -> p = 0 \/ In p live ->
    reach P (free st p) (remove Z.eq_dec p live) rets
| reach_realloc st live rets fuel p n q st' :
    reach P st live rets -> p = 0 \/ In p live -> n = 0 \/ P n ->
    realloc fuel st p n = Some (q, st') ->
    reach P st' (track q (remove Z.eq_dec p live)) (q :: rets)
| reach_calloc st live rets fuel k n q st' :
    reach P st live rets -> u64 (k * n) = 0 \/ P (u64 (k * n)) ->
    calloc fuel st k n = Some (q, st') ->
    reach P st' (track q live) (q :: rets).

(** What holds in every state reached with sane sizes. *)
Definition good (st : state) (live rets : list Z) : Prop :=
  exists bs, Inv st bs /\ no_adj bs
    /\ (forall p, In p live -> exists s, blk (heap st) bs p s true)
    /\ (forall p, In p rets -> p <> 0 -> p mod 8 = 0).

(** ** Concrete heaps *)

(** The state and the result of a call that returned. *)
Definition st_of (r : option (Z * state)) (d : state) : state :=
  match r with Some (_, s) => s | None => d end.
Definition ret_of (r : option (Z * state)) : Z :=
  match r with Some (p, _) => p | None => -1 end.
Definition returned (r : option (Z * state)) : bool :=
  match r with Some _ => true | None => false end.

(** The heap after [mm_init] and one [malloc (8)]: a block of 16 bytes in
    use, then 240 free bytes. *)
Definition heap1 : state := place heap0 (heap heap0 + 8 + total []) 16.

(** Two requests of 2^32 bytes, both freed, then two requests of 8 bytes. *)
Definition wrap1 : option (Z * state) := malloc 50 heap0 (2 ^ 32).
Definition wrap2 : option (Z * state) := malloc 50 (st_of wrap1 heap0) (2 ^ 32).
Definition wrap3 : state := free (st_of wrap2 heap0) (ret_of wrap1).
Definition wrap4 : state := free wrap3 (ret_of wrap2).
Definition wrap5 : option (Z * state) := malloc 50 wrap4 8.
Definition wrap6 : option (Z * state) := malloc 50 (st_of wrap5 heap0) 8.



(** The heap after [mm_init], [malloc (248)] and a growth of the arena by
    512 bytes: 256 bytes in use, then the only free block, of 512 bytes. *)
Definition heap512 : state :=
  snd (grow_heap (place heap0 (heap heap0 + 8 + total []) 256) 64).

Definition split512 : option (Z * state) := malloc 1 heap512 32.

(** ** Best fit in the last list *)

(** The free list that starts at [bp] holds the blocks [xs], address and
    size, in this order. *)
Fixpoint chain (m : memory) (h bp : Z) (xs : list (Z * Z)) : Prop :=
  match xs with
  | [] => bp = 0
  | (x, s) :: r =>
      bp = x /\ x <> 0 /\ GET_SIZE m (HDR x) = s /\ chain m h (NEXTP h (GET m x)) r
  end.

(** The search passes list [i] without a result: the list is empty or none
    of its blocks is large enough. *)
Definition passes_by (fuel : nat) (m : memory) (h asize i : Z) : Prop :=
  GET m (slot h i) = 0 \/ first_fit_loop fuel m h asize (GET m (slot h i)) = Some 0.

(** [r] is the last of the blocks of least size among those of [xs] that
    hold [asize] bytes, or null when there is none. *)
Definition last_best (asize : Z) (xs : list (Z * Z)) (r : Z) : Prop :=
  (r = 0 /\ forall x s, In (x, s) xs -> s < asize)
  \/ exists pre s post, xs = pre ++ (r, s) :: post /\ asize <= s
       /\ (forall x' s', In (x', s') pre -> asize <= s' -> s <= s')
       /\ (forall x' s', In (x', s') post -> asize <= s' -> s < s').

(** As the specification words it: ties go to the first block met. *)
Definition first_best_spec (asize : Z) (xs : list (Z * Z)) (r : Z) : Prop :=
  (r = 0 /\ forall x s, In (x, s) xs -> s < asize)
  \/ exists pre s post, xs = pre ++ (r, s) :: post /\ asize <= s
       /\ (forall x' s', In (x', s') pre -> asize <= s' -> s < s')
       /\ (forall x' s', In (x', s') post -> asize <= s' -> s <= s').

(** What [best_fitp] and [best_fit] hold after the blocks [done]. *)
Definition acc_ok (asize : Z) (done : list (Z * Z)) (p b : Z) : Prop :=
  (p = 0 /\ b = best_fit_init /\ forall x s, In (x, s) done -> s < asize)
  \/ exists pre post, done = pre ++ (p, b) :: post /\ asize <= b
       /\ (forall x' s', In (x', s') pre -> asize <= s' -> b <= s')
       /\ (forall x' s', In (x', s') post -> asize <= s' -> b < s').

(** Two blocks of 40008 bytes, each followed by a small block in use, both
    freed: the first one first. *)
Definition tie1 : option (Z * state) := malloc 50 heap0 40000.
Definition tie2 : option (Z * state) := malloc 50 (st_of tie1 heap0) 8.
Definition tie3 : option (Z * state) := malloc 50 (st_of tie2 heap0) 40000.
Definition tie4 : option (Z * state) := malloc 50 (st_of tie3 heap0) 8.
Definition tie5 : state := free (st_of tie4 heap0) (ret_of tie1).
Definition tie6 : state := free tie5 (ret_of tie3).

(** ** The heap checker *)

(** The checks end the program with [exit(1)] when they fail: [false]
    stands for that, [true] for a normal return. *)

Definition aligned (p : Z) : bool := ALIGN p =? p.

(** Sizes and allocation bits are compared as [int]. *)
Definition check_head_foot (st : state) (bp : Z) : bool :=
  let m := mem st in
  let var1 := s32 (GET_SIZE m (HDR bp)) in
  let var2 := s32 (GET_SIZE m (FTR m bp)) in
  if negb (var1 =? var2) then false
  else if (var1 <? MIN_SIZE) && negb (bp =? heap st) then false
  else
    let var1 := s32 (GET_ALLOC m (HDR bp)) in
    let var2 := s32 (GET_ALLOC m (FTR m bp)) in
    if negb (var1 =? var2) then false else true.

Definition check_coalesce (m : memory) (bp : Z) : bool :=
  let prev_alloc := GET_ALLOC m (FTR m (PREV_BLK m bp)) in
  let next_alloc := GET_ALLOC m (HDR (NEXT_BLK m bp)) in
  let alloc := GET_ALLOC m (HDR bp) in
  if alloc =? 0 then
    if prev_alloc =? alloc then false
    else if next_alloc =? alloc then false else true
  else true.

(** Modelled from the spec: [mem_heap_hi] of memlib, which is not among the
    sources; it returns the final byte of the arena, not the final word, as
    the comments of [point_check] and [check_pro_epi] have it. *)
Definition mem_heap_hi (st : state) : Z := mem_brk st - 1.

(** One round of the loop of [check_pro_epi]: [None] is the [break] after
    the warning. *)
Definition check_tag (m : memory) (locate test : Z) : option bool :=
  if THIS locate =? 0 then None
  else if negb (GET_SIZE m locate =? test) then Some false
  else if negb (s32 (GET_ALLOC m locate) =? 1) then Some false
  else Some true.

Definition check_pro_epi (st : state) : bool :=
  let m := mem st in
  match check_tag m (THIS (heap st - WSIZE)) WSIZE with
  | None => true
  | Some false => false
  | Some true =>
      match check_tag m (PREV (heap st)) WSIZE with
      | None => true
      | Some false => false
      | Some true =>
          match check_tag m (THIS (mem_heap_hi st - 7)) 0 with
          | None => true
          | Some r => r
          end
      end
  end.

(** ** Further properties of the allocator *)

(** The heap after [mm_init], [malloc (8)] and [malloc (16)]: blocks of 16
    and 24 bytes in use, then 216 free bytes. *)
Definition heap2 : state := place heap1 (heap heap1 + 8 + total [(16, true)]) 24.

(** The heap of [heap0] with its free block taken off its list. *)
Definition heap0_unlinked : state := remove_from_list heap0 (heap heap0 + 8 + total []).

(** A heap in an arena with no room to grow, its only block allocated. *)
Definition arena_small : state := mkState (fun _ => 0) 0 4096 (4096 + 368).
Definition heap_full : state :=
  place (snd (mm_init arena_small)) (heap (snd (mm_init arena_small)) + 8 + total []) 256.

(** ** Bit-level facts *)

Module Bits.

Lemma land_high j k x :
  0 <= j <= k -> 0 <= x < 2 ^ k ->
  Z.land x (2 ^ k - 2 ^ j) = 2 ^ j * (x / 2 ^ j).
Proof.
  intros Hjk Hx.
  replace (2 ^ k - 2 ^ j) with (Z.shiftl (Z.ones (k - j)) j).
  2:{ rewrite Z.shiftl_mul_pow2, Z.ones_equiv by lia.
      replace (2 ^ k) with (2 ^ (k - j) * 2 ^ j) by (rewrite <- Z.pow_add_r by lia; f_equal; lia).
      lia. }
  replace (2 ^ j * (x / 2 ^ j)) with (Z.shiftl (Z.shiftr x j) j)
    by (rewrite Z.shiftl_mul_pow2, Z.shiftr_div_pow2 by lia; lia).
  apply Z.bits_inj'. intros n Hn.
  rewrite Z.land_spec, !Z.shiftl_spec by lia.
  destruct (Z.ltb_spec n j) as [Hlt | Hge].
  - rewrite (Z.testbit_neg_r _ (n - j)) by lia.
    rewrite (Z.testbit_neg_r _ (n - j)) by lia. apply andb_false_r.
  - rewrite Z.shiftr_spec by lia. replace (n - j + j) with n by lia.
    rewrite Z.testbit_ones_nonneg by lia.
    destruct (Z.ltb_spec (n - j) (k - j)); [apply andb_true_r|].
    rewrite andb_false_r. symmetry.
    destruct (Z.eq_dec x 0) as [-> | Hx0]; [apply Z.testbit_0_l|].
    apply Z.bits_above_log2; [lia|].
    apply Z.log2_lt_pow2; try lia.
    apply Z.lt_le_trans with (2 ^ k); [lia|]. apply Z.pow_le_mono_r; lia.
Qed.

Lemma lor_disjoint a b : Z.land a b = 0 -> Z.lor a b = a + b.
Proof. intros H. pose proof (Z.add_lor_land a b). lia. Qed.

Lemma land_low_high j lo hi :
  0 <= j -> 0 <= lo < 2 ^ j -> Z.land lo (2 ^ j * hi) = 0.
Proof.
  intros Hj Hlo. apply Z.bits_inj'. intros n Hn.
  rewrite Z.land_spec, Z.bits_0.
  destruct (Z.ltb_spec n j).
  - replace (2 ^ j * hi) with (hi * 2 ^ j) by lia.
    rewrite Z.mul_pow2_bits_low by lia. apply andb_false_r.
  - destruct (Z.eq_dec lo 0) as [-> | Hx0]; [rewrite Z.testbit_0_l; reflexivity|].
    rewrite (Z.bits_above_log2 lo n); [reflexivity|lia|].
    apply Z.log2_lt_pow2; try lia.
    apply Z.lt_le_trans with (2 ^ j); [lia|]. apply Z.pow_le_mono_r; lia.
Qed.

Lemma lor_low_high j lo hi :
  0 <= j -> 0 <= lo < 2 ^ j -> Z.lor lo (2 ^ j * hi) = lo + 2 ^ j * hi.
Proof. intros. apply lor_disjoint, land_low_high; assumption. Qed.

Lemma lor_high_low j lo hi :
  0 <= j -> 0 <= lo < 2 ^ j -> Z.lor (2 ^ j * hi) lo = 2 ^ j * hi + lo.
Proof. intros. rewrite Z.lor_comm, lor_low_high by assumption. lia. Qed.

Lemma land_lnot7 x : 0 <= x < 2 ^ 32 -> Z.land x (u32 (Z.lnot 7)) = 8 * (x / 8).
Proof. intros H. exact (land_high 3 32 x ltac:(lia) H). Qed.

Lemma land_lnot7_64 x : 0 <= x < 2 ^ 64 -> Z.land x (u64 (Z.lnot 7)) = 8 * (x / 8).
Proof. intros H. exact (land_high 3 64 x ltac:(lia) H). Qed.

Lemma land_one x : Z.land x 1 = x mod 2.
Proof. exact (Z.land_ones x 1 ltac:(lia)). Qed.

Lemma see_next_eq w : SEE_NEXT w = w mod 2 ^ 32.
Proof. exact (Z.land_ones w 32 ltac:(lia)). Qed.

Lemma land_not_split w : 0 <= w < 2 ^ 64 -> Z.land w NOT_SPLIT = 2 ^ 32 * (w / 2 ^ 32).
Proof. intros H. exact (land_high 32 64 w ltac:(lia) H). Qed.

Lemma see_prev_eq w : 0 <= w < 2 ^ 64 -> SEE_PREV w = w / 2 ^ 32.
Proof.
  intros H. unfold SEE_PREV. rewrite land_not_split by assumption.
  rewrite Z.shiftr_div_pow2 by lia.
  rewrite Z.mul_comm, Z.div_mul by lia. reflexivity.
Qed.

End Bits.

Import Bits.

Module MemFacts.

Lemma load8_range m a : 0 <= load8 m a < 256.
Proof. unfold load8. apply Z.mod_pos_bound. lia. Qed.

Lemma load32_range m a : 0 <= load32 m a < 2 ^ 32.
Proof.
  unfold load32.
  pose proof (load8_range m a). pose proof (load8_range m (a + 1)).
  pose proof (load8_range m (a + 2)). pose proof (load8_range m (a + 3)).
  change (2 ^ 8) with 256. change (2 ^ 16) with 65536.
  change (2 ^ 24) with 16777216. change (2 ^ 32) with 4294967296. lia.
Qed.

Lemma load64_range m a : 0 <= load64 m a < 2 ^ 64.
Proof.
  unfold load64.
  pose proof (load32_range m a). pose proof (load32_range m (a + 4)).
  change (2 ^ 32) with 4294967296 in *. change (2 ^ 64) with 18446744073709551616. lia.
Qed.

Lemma load64_lo m a : load64 m a mod 2 ^ 32 = load32 m a.
Proof.
  unfold load64. pose proof (load32_range m a).
  replace (2 ^ 32 * load32 m (a + 4)) with (load32 m (a + 4) * 2 ^ 32) by lia.
  rewrite Z.mod_add by lia. apply Z.mod_small. assumption.
Qed.

Lemma load64_hi m a : load64 m a / 2 ^ 32 = load32 m (a + 4).
Proof.
  unfold load64. pose proof (load32_range m a).
  replace (2 ^ 32 * load32 m (a + 4)) with (load32 m (a + 4) * 2 ^ 32) by lia.
  rewrite Z.div_add by lia.
  rewrite (Z.div_small (load32 m a)) by assumption. lia.
Qed.

(** Loads depend on the bytes they cover only. *)
Lemma load8_ext m m' a : m' a = m a -> load8 m' a = load8 m a.
Proof. unfold load8. intros ->. reflexivity. Qed.

Lemma load32_ext m m' a :
  (forall x, a <= x < a + 4 -> m' x = m x) -> load32 m' a = load32 m a.
Proof.
  intros H. unfold load32, load8. rewrite !H by lia. reflexivity.
Qed.

Lemma load64_ext m m' a :
  (forall x, a <= x < a + 8 -> m' x = m x) -> load64 m' a = load64 m a.
Proof.
  intros H. unfold load64.
  rewrite (load32_ext m m' a), (load32_ext m m' (a + 4)); [reflexivity| |];
    intros; apply H; lia.
Qed.

Lemma store32_out m a v x : ~ (a <= x < a + 4) -> store32 m a v x = m x.
Proof.
  intros H. unfold store32.
  destruct (Z.leb_spec a x), (Z.ltb_spec x (a + 4)); simpl; try reflexivity. lia.
Qed.

Lemma store64_out m a v x : ~ (a <= x < a + 8) -> store64 m a v x = m x.
Proof.
  intros H. unfold store64.
  destruct (Z.leb_spec a x), (Z.ltb_spec x (a + 8)); simpl; try reflexivity. lia.
Qed.

Lemma store8_out m a v x : x <> a -> store8 m a v x = m x.
Proof. intros H. unfold store8. destruct (Z.eqb_spec x a); [lia|reflexivity]. Qed.

Lemma memcpy_out m d s n x : ~ (d <= x < d + n) -> memcpy m d s n x = m x.
Proof.
  intros H. unfold memcpy.
  destruct (Z.leb_spec d x), (Z.ltb_spec x (d + n)); simpl; try reflexivity. lia.
Qed.

Lemma store32_in m a v i :
  0 <= i < 4 -> store32 m a v (a + i) = (v / 2 ^ (8 * i)) mod 256.
Proof.
  intros H. unfold store32.
  destruct (Z.leb_spec a (a + i)), (Z.ltb_spec (a + i) (a + 4)); simpl; try lia.
  replace (a + i - a) with i by lia. reflexivity.
Qed.

Lemma store64_in m a v i :
  0 <= i < 8 -> store64 m a v (a + i) = (v / 2 ^ (8 * i)) mod 256.
Proof.
  intros H. unfold store64.
  destruct (Z.leb_spec a (a + i)), (Z.ltb_spec (a + i) (a + 8)); simpl; try lia.
  replace (a + i - a) with i by lia. reflexivity.
Qed.

Lemma bytes4 v :
  v mod 256 + 2 ^ 8 * ((v / 2 ^ 8) mod 256) + 2 ^ 16 * ((v / 2 ^ 16) mod 256)
  + 2 ^ 24 * ((v / 2 ^ 24) mod 256) = v mod 2 ^ 32.
Proof.
  change (2 ^ 32) with (256 * (256 * (256 * 256))).
  rewrite (Z.rem_mul_r v 256) by lia.
  rewrite (Z.rem_mul_r (v / 256) 256) by lia.
  rewrite (Z.rem_mul_r (v / 256 / 256) 256) by lia.
  rewrite !Z.div_div by lia.
  change (2 ^ 8) with 256. change (2 ^ 16) with (256 * 256).
  change (2 ^ 24) with (256 * 256 * 256). lia.
Qed.

Lemma load32_store32_same m a v : load32 (store32 m a v) a = v mod 2 ^ 32.
Proof.
  unfold load32, load8.
  replace a with (a + 0) at 2 by lia.
  rewrite !store32_in by lia. rewrite !Z.mod_mod by lia.
  change (2 ^ (8 * 0)) with 1. rewrite Z.div_1_r.
  change (8 * 1) with 8. change (8 * 2) with 16. change (8 * 3) with 24.
  apply bytes4.
Qed.

Lemma load32_store64_lo m a v : load32 (store64 m a v) a = v mod 2 ^ 32.
Proof.
  unfold load32, load8.
  replace a with (a + 0) at 2 by lia.
  rewrite !store64_in by lia. rewrite !Z.mod_mod by lia.
  change (2 ^ (8 * 0)) with 1. rewrite Z.div_1_r.
  change (8 * 1) with 8. change (8 * 2) with 16. change (8 * 3) with 24.
  apply bytes4.
Qed.

Lemma load32_store64_hi m a v : load32 (store64 m a v) (a + 4) = (v / 2 ^ 32) mod 2 ^ 32.
Proof.
  unfold load32, load8.
  replace (a + 4 + 1) with (a + 5) by lia. replace (a + 4 + 2) with (a + 6) by lia.
  replace (a + 4 + 3) with (a + 7) by lia.
  rewrite !store64_in by lia. rewrite !Z.mod_mod by lia.
  rewrite <- bytes4. rewrite !Z.div_div by lia.
  rewrite <- !Z.pow_add_r by lia. reflexivity.
Qed.

Lemma load64_store64_same m a v : load64 (store64 m a v) a = v mod 2 ^ 64.
Proof.
  unfold load64. rewrite load32_store64_lo, load32_store64_hi.
  change (2 ^ 64) with (2 ^ 32 * 2 ^ 32).
  rewrite (Z.rem_mul_r v (2 ^ 32)) by lia. reflexivity.
Qed.

Lemma load32_store32_other m a v b :
  b + 4 <= a \/ a + 4 <= b -> load32 (store32 m a v) b = load32 m b.
Proof. intros H. apply load32_ext. intros. apply store32_out. lia. Qed.

Lemma load32_store64_other m a v b :
  b + 4 <= a \/ a + 8 <= b -> load32 (store64 m a v) b = load32 m b.
Proof. intros H. apply load32_ext. intros. apply store64_out. lia. Qed.

Lemma load64_store32_other m a v b :
  b + 8 <= a \/ a + 4 <= b -> load64 (store32 m a v) b = load64 m b.
Proof. intros H. apply load64_ext. intros. apply store32_out. lia. Qed.

Lemma load64_store64_other m a v b :
  b + 8 <= a \/ a + 8 <= b -> load64 (store64 m a v) b = load64 m b.
Proof. intros H. apply load64_ext. intros. apply store64_out. lia. Qed.

Lemma load8_store32_other m a v b :
  b < a \/ a + 4 <= b -> load8 (store32 m a v) b = load8 m b.
Proof. intros H. apply load8_ext. apply store32_out. lia. Qed.

Lemma load8_store64_other m a v b :
  b < a \/ a + 8 <= b -> load8 (store64 m a v) b = load8 m b.
Proof. intros H. apply load8_ext. apply store64_out. lia. Qed.

Lemma load8_memcpy_in m d s n i :
  0 <= i < n -> load8 (memcpy m d s n) (d + i) = load8 m (s + i).
Proof.
  intros H. unfold load8 at 1, memcpy.
  destruct (Z.leb_spec d (d + i)), (Z.ltb_spec (d + i) (d + n)); simpl; try lia.
  replace (d + i - d) with i by lia. apply Z.mod_small, load8_range.
Qed.

Lemma load8_memcpy_other m d s n b :
  b < d \/ d + n <= b -> load8 (memcpy m d s n) b = load8 m b.
Proof. intros H. apply load8_ext. apply memcpy_out. lia. Qed.

Lemma load32_memcpy_other m d s n b :
  b + 4 <= d \/ d + n <= b -> load32 (memcpy m d s n) b = load32 m b.
Proof. intros H. apply load32_ext. intros. apply memcpy_out. lia. Qed.

Lemma load64_memcpy_other m d s n b :
  b + 8 <= d \/ d + n <= b -> load64 (memcpy m d s n) b = load64 m b.
Proof. intros H. apply load64_ext. intros. apply memcpy_out. lia. Qed.

(** A 64-bit load sees the bytes of its 8 cells. *)
Lemma load64_bytes m m' a :
  (forall i, 0 <= i < 8 -> load8 m' (a + i) = load8 m (a + i)) ->
  load64 m' a = load64 m a.
Proof.
  intros H. unfold load64, load32.
  pose proof (H 0 ltac:(lia)) as H0. rewrite Z.add_0_r in H0.
  rewrite H0, (H 1), (H 2), (H 3) by lia.
  replace (a + 4 + 1) with (a + 5) by lia. replace (a + 4 + 2) with (a + 6) by lia.
  replace (a + 4 + 3) with (a + 7) by lia.
  rewrite (H 4), (H 5), (H 6), (H 7) by lia. reflexivity.
Qed.

Lemma load8_store64_in m a v i :
  0 <= i < 8 -> load8 (store64 m a v) (a + i) = (v / 2 ^ (8 * i)) mod 256.
Proof. intros H. unfold load8. rewrite store64_in by lia. apply Z.mod_mod. lia. Qed.

End MemFacts.
Import Bits MemFacts.

(** ** Link words *)

Module Links.

(** The two statements of [PUT_NEXT] and [PUT_PREV] at a fixed destination. *)
Definition set_next (m : memory) (h d p : Z) : memory := PUT_NPTR (CLEAR_NEXT m d) h d p.
Definition set_prev (m : memory) (h d p : Z) : memory := PUT_PPTR (CLEAR_PREV m d) h d p.

Lemma PUT_NEXT_at m h dest val d p :
  dest m = d -> dest (CLEAR_NEXT m d) = d -> val (CLEAR_NEXT m d) = p ->
  PUT_NEXT m h dest val = set_next m h d p.
Proof. intros H1 H2 H3. unfold PUT_NEXT, set_next. rewrite H1, H2, H3. reflexivity. Qed.

Lemma PUT_PREV_at m h dest val d p :
  dest m = d -> dest (CLEAR_PREV m d) = d -> val (CLEAR_PREV m d) = p ->
  PUT_PREV m h dest val = set_prev m h d p.
Proof. intros H1 H2 H3. unfold PUT_PREV, set_prev. rewrite H1, H2, H3. reflexivity. Qed.

Lemma GET_range m p : 0 <= GET m p < 2 ^ 64.
Proof. apply load64_range. Qed.

Lemma GET_CLEAR_NEXT m d : GET (CLEAR_NEXT m d) d = 2 ^ 32 * (GET m d / 2 ^ 32).
Proof.
  unfold CLEAR_NEXT, PUT, GET. rewrite load64_store64_same.
  pose proof (load64_range m d) as R. rewrite land_not_split by exact R.
  apply Z.mod_small.
  assert (0 <= load64 m d / 2 ^ 32 < 2 ^ 32).
  { split; [apply Z.div_pos; lia|]. apply Z.div_lt_upper_bound; lia. }
  lia.
Qed.

Lemma GET_CLEAR_PREV m d : GET (CLEAR_PREV m d) d = GET m d mod 2 ^ 32.
Proof.
  unfold CLEAR_PREV, PUT, GET. rewrite load64_store64_same.
  unfold SPLIT. change (Z.shiftl 1 32 - 1) with (Z.ones 32).
  rewrite Z.land_ones by lia.
  pose proof (Z.mod_pos_bound (load64 m d) (2 ^ 32) ltac:(lia)).
  apply Z.mod_small. lia.
Qed.

Lemma GET_set_next m h d p :
  0 <= p - INDEX h < 2 ^ 32 ->
  GET (set_next m h d p) d = 2 ^ 32 * (GET m d / 2 ^ 32) + (p - INDEX h).
Proof.
  intros Hp. unfold set_next, PUT_NPTR. fold (GET (CLEAR_NEXT m d) d).
  rewrite GET_CLEAR_NEXT. unfold PUT, GET. rewrite load64_store64_same.
  pose proof (load64_range m d) as R.
  assert (0 <= load64 m d / 2 ^ 32 < 2 ^ 32).
  { split; [apply Z.div_pos; lia|]. apply Z.div_lt_upper_bound; lia. }
  unfold u64. rewrite (Z.mod_small (p - INDEX h)) by lia.
  rewrite lor_high_low by lia. apply Z.mod_small. lia.
Qed.

Lemma GET_set_prev m h d p :
  0 <= p - INDEX h < 2 ^ 32 ->
  GET (set_prev m h d p) d = GET m d mod 2 ^ 32 + 2 ^ 32 * (p - INDEX h).
Proof.
  intros Hp. unfold set_prev, PUT_PPTR. fold (GET (CLEAR_PREV m d) d).
  rewrite GET_CLEAR_PREV. unfold PUT, GET. rewrite load64_store64_same.
  pose proof (Z.mod_pos_bound (load64 m d) (2 ^ 32) ltac:(lia)).
  unfold u64. rewrite (Z.mod_small (p - INDEX h)) by lia.
  rewrite Z.shiftl_mul_pow2 by lia.
  rewrite (Z.mod_small ((p - INDEX h) * 2 ^ 32)) by lia.
  replace ((p - INDEX h) * 2 ^ 32) with (2 ^ 32 * (p - INDEX h)) by lia.
  rewrite lor_low_high by lia. apply Z.mod_small. lia.
Qed.

Lemma NEXTP_eq h w :
  NEXTP h w = if w mod 2 ^ 32 =? 0 then 0 else u64 (INDEX h + w mod 2 ^ 32).
Proof. unfold NEXTP. rewrite see_next_eq. reflexivity. Qed.

Lemma PREVP_eq h w :
  0 <= w < 2 ^ 64 ->
  PREVP h w = if w / 2 ^ 32 =? 0 then 0 else u64 (INDEX h + w / 2 ^ 32).
Proof. intros H. unfold PREVP. rewrite see_prev_eq by assumption. reflexivity. Qed.

(** Frames: the four link updates touch the 8 bytes at [d] only. *)
Lemma CLEAR_NEXT_out m d x : ~ (d <= x < d + 8) -> CLEAR_NEXT m d x = m x.
Proof. intros. unfold CLEAR_NEXT, PUT. apply store64_out. assumption. Qed.

Lemma CLEAR_PREV_out m d x : ~ (d <= x < d + 8) -> CLEAR_PREV m d x = m x.
Proof. intros. unfold CLEAR_PREV, PUT. apply store64_out. assumption. Qed.

Lemma set_next_out m h d p x : ~ (d <= x < d + 8) -> set_next m h d p x = m x.
Proof.
  intros. unfold set_next, PUT_NPTR, PUT. rewrite store64_out by assumption.
  apply CLEAR_NEXT_out. assumption.
Qed.

Lemma set_prev_out m h d p x : ~ (d <= x < d + 8) -> set_prev m h d p x = m x.
Proof.
  intros. unfold set_prev, PUT_PPTR, PUT. rewrite store64_out by assumption.
  apply CLEAR_PREV_out. assumption.
Qed.

End Links.
Import Links.

(** C9.  For every link word and every address [p] whose offset from the
    base of the heap is positive and below 2^32: setting the successor half
    of the word to [p] leaves the predecessor half as it was and decodes to
    [p]; the same holds with the halves exchanged; a half that is all zero
    decodes to null. *)
Theorem link_halves_independent (m : memory) (h d p : Z) :
  0 < p - INDEX h < 2 ^ 32 -> p < 2 ^ 64 ->
  (let m' := PUT_NEXT m h (fun _ => d) (fun _ => p) in
   NEXTP h (GET m' d) = p /\ SEE_PREV (GET m' d) = SEE_PREV (GET m d))
  /\ (let m' := PUT_PREV m h (fun _ => d) (fun _ => p) in
      PREVP h (GET m' d) = p /\ SEE_NEXT (GET m' d) = SEE_NEXT (GET m d))
  /\ (forall w, SEE_NEXT w = 0 -> NEXTP h w = 0)
  /\ (forall w, SEE_PREV w = 0 -> PREVP h w = 0).
Proof.
  intros Hp Hp64.
  pose proof (GET_range m d) as R.
  assert (Hhi : 0 <= GET m d / 2 ^ 32 < 2 ^ 32).
  { split; [apply Z.div_pos; lia|]. apply Z.div_lt_upper_bound; lia. }
  pose proof (Z.mod_pos_bound (GET m d) (2 ^ 32) ltac:(lia)) as Hlo.
  assert (HI : 0 <= INDEX h) by (unfold INDEX, u64; apply Z.mod_pos_bound; lia).
  repeat split.
  - rewrite (PUT_NEXT_at m h _ _ d p) by reflexivity.
    rewrite GET_set_next by lia. rewrite NEXTP_eq.
    replace ((2 ^ 32 * (GET m d / 2 ^ 32) + (p - INDEX h)) mod 2 ^ 32) with (p - INDEX h).
    2:{ rewrite Z.add_comm, Z.mul_comm, Z.mod_add by lia. symmetry. apply Z.mod_small. lia. }
    destruct (Z.eqb_spec (p - INDEX h) 0); [lia|].
    unfold u64. replace (INDEX h + (p - INDEX h)) with p by lia. apply Z.mod_small. lia.
  - rewrite (PUT_NEXT_at m h _ _ d p) by reflexivity.
    rewrite GET_set_next by lia.
    rewrite !see_prev_eq by lia.
    rewrite Z.add_comm, Z.mul_comm, Z.div_add by lia.
    rewrite (Z.div_small (p - INDEX h)) by lia. reflexivity.
  - rewrite (PUT_PREV_at m h _ _ d p) by reflexivity.
    rewrite GET_set_prev by lia. rewrite PREVP_eq by lia.
    replace ((GET m d mod 2 ^ 32 + 2 ^ 32 * (p - INDEX h)) / 2 ^ 32) with (p - INDEX h).
    2:{ rewrite Z.mul_comm, Z.div_add by lia. rewrite Z.div_small by lia. lia. }
    destruct (Z.eqb_spec (p - INDEX h) 0); [lia|].
    unfold u64. replace (INDEX h + (p - INDEX h)) with p by lia. apply Z.mod_small. lia.
  - rewrite (PUT_PREV_at m h _ _ d p) by reflexivity.
    rewrite GET_set_prev by lia.
    rewrite !see_next_eq.
    rewrite Z.mul_comm, Z.mod_add by lia. apply Z.mod_mod. lia.
  - intros w Hw. unfold NEXTP. rewrite Hw. reflexivity.
  - intros w Hw. unfold PREVP. rewrite Hw. reflexivity.
Qed.

Lemma link_halves_independent_witness :
  (let m' := PUT_NEXT (fun _ => 255) 4200 (fun _ => 4208) (fun _ => 4464) in
   NEXTP 4200 (GET m' 4208) = 4464
   /\ SEE_PREV (GET m' 4208) = SEE_PREV (GET (fun _ => 255) 4208)).
Proof.
  apply (link_halves_independent (fun _ => 255) 4200 4208 4464); vm_compute; split; congruence.
Defined.

Module SizeBin.

Lemma find_size_bin_loop_log2 fuel : forall a b,
  1 <= a < 2 ^ (6 + Z.of_nat fuel) ->
  find_size_bin_loop fuel a b = b + Z.max 0 (Z.log2 a - 5).
Proof.
  induction fuel as [|fuel IH]; intros a b Ha.
  - simpl in *. change (6 + 0) with 6 in Ha.
    assert (Z.log2 a < 6) by (apply Z.log2_lt_pow2; lia). lia.
  - cbn [find_size_bin_loop]. change (64 - 1) with 63.
    destruct (Z.gtb_spec a 63) as [Hgt | Hle].
    + rewrite IH.
      * rewrite Z.log2_shiftr by lia.
        assert (6 <= Z.log2 a) by (apply Z.log2_le_pow2; lia). lia.
      * rewrite Z.shiftr_div_pow2 by lia. change (2 ^ 1) with 2.
        split; [apply Z.div_le_lower_bound; lia|].
        apply Z.div_lt_upper_bound; [lia|].
        replace (6 + Z.of_nat (S fuel)) with (1 + (6 + Z.of_nat fuel)) in Ha by lia.
        rewrite Z.pow_add_r in Ha by lia. lia.
    + assert (Z.log2 a < 6) by (apply Z.log2_lt_pow2; lia). lia.
Qed.

Lemma find_size_bin_loop_small fuel a b : a <= 63 -> find_size_bin_loop fuel a b = b.
Proof.
  intros Ha. destruct fuel; [reflexivity|]. cbn [find_size_bin_loop].
  change (64 - 1) with 63. destruct (Z.gtb_spec a 63); [lia|reflexivity].
Qed.

(** What the code computes, for every [int]. *)
Lemma find_size_bin_eq a :
  a < 2 ^ 31 ->
  find_size_bin a = if a <? 64 then 0 else Z.min 10 (Z.log2 a - 5).
Proof.
  intros Ha. unfold find_size_bin. change (NO_LISTS - 1) with 10.
  destruct (Z.ltb_spec a 64) as [Hs | Hb].
  - rewrite find_size_bin_loop_small by lia. reflexivity.
  - rewrite find_size_bin_loop_log2.
    2:{ split; [lia|]. apply Z.lt_le_trans with (2 ^ 31); [lia|].
        apply Z.pow_le_mono_r; lia. }
    assert (6 <= Z.log2 a) by (apply Z.log2_le_pow2; lia).
    destruct (Z.geb_spec (0 + Z.max 0 (Z.log2 a - 5)) 10); lia.
Qed.

Lemma find_size_bin_loop_range fuel : forall a b,
  0 <= b -> b <= find_size_bin_loop fuel a b.
Proof.
  induction fuel as [|fuel IH]; intros a b Hb; cbn [find_size_bin_loop]; [lia|].
  destruct (a >? 64 - 1); [|lia].
  specialize (IH (Z.shiftr a 1) (b + 1) ltac:(lia)). lia.
Qed.

Lemma find_size_bin_range a : 0 <= find_size_bin a < NO_LISTS.
Proof.
  unfold find_size_bin. change NO_LISTS with 11. change (11 - 1) with 10.
  pose proof (find_size_bin_loop_range 32 a 0 ltac:(lia)).
  destruct (Z.geb_spec (find_size_bin_loop 32 a 0) 10); lia.
Qed.

End SizeBin.
Import SizeBin.

(** C2.  The code files every size from 64 up one bucket above the rule of
    the specification: bucket [i >= 1] holds [2^(5+i), 2^(6+i)), bucket 0 the
    sizes below 64, bucket 10 everything from 2^15. *)
Theorem find_size_bin_off_by_one :
  find_size_bin 64 = 1 /\ bucket_spec 64 = 0
  /\ (forall s, s < 64 -> find_size_bin s = 0)
  /\ (forall s, 64 <= s < 2 ^ 31 -> find_size_bin s = Z.min 10 (Z.log2 s - 5))
  /\ (forall s, 64 <= s < 2 ^ 16 -> find_size_bin s = bucket_spec s + 1).
Proof.
  split; [reflexivity|]. split; [reflexivity|]. split; [|split].
  - intros s Hs. rewrite find_size_bin_eq by lia.
    destruct (Z.ltb_spec s 64); [reflexivity|lia].
  - intros s Hs. rewrite find_size_bin_eq by lia.
    destruct (Z.ltb_spec s 64); [lia|reflexivity].
  - intros s Hs. rewrite find_size_bin_eq by lia.
    destruct (Z.ltb_spec s 64); [lia|]. unfold bucket_spec.
    assert (6 <= Z.log2 s) by (apply Z.log2_le_pow2; lia).
    assert (Z.log2 s < 16) by (apply Z.log2_lt_pow2; lia). lia.
Qed.

(** ** The adjusted request size *)

Module Adjust.

Lemma ALIGN_eq p : ALIGN p = 8 * (u64 (p + 7) / 8).
Proof.
  unfold ALIGN. change (ALIGNMENT - 1) with 7.
  apply land_lnot7_64. apply Z.mod_pos_bound. lia.
Qed.

Lemma adjust_small n : n <= 8 -> adjust n = 16.
Proof.
  intros H. unfold adjust. change WSIZE with 8.
  destruct (Z.leb_spec n 8); [reflexivity|lia].
Qed.

Lemma adjust_mod n :
  8 < n < 2 ^ 64 -> adjust n = align_up (n + 8) 8 mod 2 ^ 32.
Proof.
  intros H. unfold adjust, align_up. change WSIZE with 8.
  destruct (Z.leb_spec n 8); [lia|].
  rewrite ALIGN_eq. unfold u32, u64.
  rewrite Zplus_mod_idemp_l. replace (n + 8 + 7) with (n + 15) by lia.
  replace (n + 8 + (8 - 1)) with (n + 15) by lia.
  assert (Hq : (n + 15) mod 2 ^ 64 = n + 15 - 2 ^ 64 * ((n + 15) / 2 ^ 64)).
  { pose proof (Z.div_mod (n + 15) (2 ^ 64) ltac:(lia)). lia. }
  rewrite Hq.
  replace (n + 15 - 2 ^ 64 * ((n + 15) / 2 ^ 64))
    with (n + 15 + (- (2 ^ 61 * ((n + 15) / 2 ^ 64))) * 8)
    by (change (2 ^ 64) with (2 ^ 61 * 8); lia).
  rewrite Z.div_add by lia.
  replace (8 * ((n + 15) / 8 + - (2 ^ 61 * ((n + 15) / 2 ^ 64))))
    with ((n + 15) / 8 * 8 + (- (2 ^ 32 * ((n + 15) / 2 ^ 64))) * 2 ^ 32)
    by (change (2 ^ 61) with (2 ^ 29 * 2 ^ 32); change (2 ^ 32) with 4294967296;
        change (2 ^ 29) with 536870912; lia).
  apply Z.mod_add. lia.
Qed.

Lemma adjust_in_range n :
  8 < n -> n + 16 <= 2 ^ 32 -> adjust n = align_up (n + 8) 8 /\ 16 <= adjust n.
Proof.
  intros H1 H2. rewrite adjust_mod by lia. unfold align_up.
  replace (n + 8 + (8 - 1)) with (n + 15) by lia.
  pose proof (Z.div_mod (n + 15) 8 ltac:(lia)).
  pose proof (Z.mod_pos_bound (n + 15) 8 ltac:(lia)).
  rewrite Z.mod_small by lia. lia.
Qed.

Lemma adjust_mult8 n : adjust n mod 8 = 0.
Proof.
  unfold adjust. change WSIZE with 8. destruct (n <=? 8); [reflexivity|].
  rewrite ALIGN_eq. unfold u32.
  set (k := u64 (u64 (n + 8) + 7) / 8).
  pose proof (Z.div_mod (8 * k) (2 ^ 32) ltac:(lia)) as D.
  replace ((8 * k) mod 2 ^ 32) with ((k - 2 ^ 29 * ((8 * k) / 2 ^ 32)) * 8)
    by (change (2 ^ 32) with (8 * 2 ^ 29) in D at 1; lia).
  apply Z.mod_mul. lia.
Qed.


End Adjust.
Import Adjust.

(** C8.  [malloc (0)] returns null and changes nothing.  For a size [n] up
    to 2^32 - 16 the internal block size is 16 when [n <= 8] and [n + 8]
    rounded up to a multiple of 8 otherwise, which is at least 16; above
    that the size is reduced modulo 2^32. *)
Theorem malloc_adjusts_size :
  (forall fuel st, malloc fuel st 0 = Some (0, st))
  /\ (forall n, 0 < n <= 8 -> adjust n = 16)
  /\ (forall n, 8 < n < 2 ^ 64 -> adjust n = align_up (n + 8) 8 mod 2 ^ 32)
  /\ (forall n, 8 < n <= 2 ^ 32 - 16 -> adjust n = align_up (n + 8) 8)
  /\ (forall n, 0 < n <= 2 ^ 32 - 16 -> 16 <= adjust n).
Proof.
  split; [reflexivity|]. split; [|split; [|split]].
  - intros n H. apply adjust_small. lia.
  - intros n H. apply adjust_mod. assumption.
  - intros n H. apply adjust_in_range; lia.
  - intros n H. destruct (Z.le_gt_cases n 8).
    + rewrite adjust_small by lia. lia.
    + apply adjust_in_range; lia.
Qed.

(** C8 as it is stated, for every [n > 0], fails at [n = 2^32]. *)
Lemma malloc_adjusts_size_counterexample :
  ~ (forall n, 0 < n < 2 ^ 64 ->
       adjust n = (if n <=? 8 then 16 else align_up (n + 8) 8) /\ 16 <= adjust n).
Proof.
  intros H. specialize (H (2 ^ 32) ltac:(lia)). vm_compute in H.
  destruct H as [H _]. discriminate H.
Qed.



(** C1.  [calloc] returns NULL whatever happens, also after it has allocated
    and zeroed the block. *)
Theorem calloc_returns_null :
  (forall fuel st nmemb size,
      match calloc fuel st nmemb size with Some (r, _) => r = 0 | None => True end)
  /\ (match calloc 4 heap0 1 8 with
      | Some (r, st') => r = 0 /\ GET_INT (mem st') (HDR 4208) = PACK 16 1
      | None => False
      end).
Proof.
  split.
  - intros fuel st nmemb size. unfold calloc.
    destruct (malloc fuel st (u64 (nmemb * size))) as [[bp st1]|]; [|exact I].
    destruct (negb (bp =? 0)); [|reflexivity].
    destruct (calloc_loop fuel (mem st1) bp 0 (u64 (nmemb * size))); [reflexivity|exact I].
  - assert (X : option_map (fun r => (fst r, GET_INT (mem (snd r)) (HDR 4208)))
                  (calloc 4 heap0 1 8) = Some (0, PACK 16 1)) by (vm_compute; reflexivity).
    destruct (calloc 4 heap0 1 8) as [[r st']|]; [|discriminate X].
    simpl in X. injection X as X1 X2. split; assumption.
Qed.

Import Links SizeBin Adjust.

Module ListFacts.

(** *** Reading around a write *)

Ltac frame_tac out := intros; first [apply load64_ext | apply load32_ext | apply load8_ext];
  intros; apply out; lia.

Lemma GET_set_next_other m h d p y :
  y + 8 <= d \/ d + 8 <= y -> GET (set_next m h d p) y = GET m y.
Proof. frame_tac set_next_out. Qed.
Lemma GET_set_prev_other m h d p y :
  y + 8 <= d \/ d + 8 <= y -> GET (set_prev m h d p) y = GET m y.
Proof. frame_tac set_prev_out. Qed.
Lemma GET_CLEAR_NEXT_other m d y :
  y + 8 <= d \/ d + 8 <= y -> GET (CLEAR_NEXT m d) y = GET m y.
Proof. frame_tac CLEAR_NEXT_out. Qed.
Lemma GET_CLEAR_PREV_other m d y :
  y + 8 <= d \/ d + 8 <= y -> GET (CLEAR_PREV m d) y = GET m y.
Proof. frame_tac CLEAR_PREV_out. Qed.
Lemma GET_PUT_other m d v y :
  y + 8 <= d \/ d + 8 <= y -> GET (PUT m d v) y = GET m y.
Proof. frame_tac store64_out. Qed.
Lemma GET_PUT_INT_other m d v y :
  y + 8 <= d \/ d + 4 <= y -> GET (PUT_INT m d v) y = GET m y.
Proof. frame_tac store32_out. Qed.

Lemma GET_INT_set_next_other m h d p y :
  y + 4 <= d \/ d + 8 <= y -> GET_INT (set_next m h d p) y = GET_INT m y.
Proof. frame_tac set_next_out. Qed.
Lemma GET_INT_set_prev_other m h d p y :
  y + 4 <= d \/ d + 8 <= y -> GET_INT (set_prev m h d p) y = GET_INT m y.
Proof. frame_tac set_prev_out. Qed.
Lemma GET_INT_CLEAR_NEXT_other m d y :
  y + 4 <= d \/ d + 8 <= y -> GET_INT (CLEAR_NEXT m d) y = GET_INT m y.
Proof. frame_tac CLEAR_NEXT_out. Qed.
Lemma GET_INT_CLEAR_PREV_other m d y :
  y + 4 <= d \/ d + 8 <= y -> GET_INT (CLEAR_PREV m d) y = GET_INT m y.
Proof. frame_tac CLEAR_PREV_out. Qed.
Lemma GET_INT_PUT_other m d v y :
  y + 4 <= d \/ d + 8 <= y -> GET_INT (PUT m d v) y = GET_INT m y.
Proof. frame_tac store64_out. Qed.
Lemma GET_INT_PUT_INT_other m d v y :
  y + 4 <= d \/ d + 4 <= y -> GET_INT (PUT_INT m d v) y = GET_INT m y.
Proof. frame_tac store32_out. Qed.

Lemma GET_PUT_same m d v : 0 <= v < 2 ^ 64 -> GET (PUT m d v) d = v.
Proof. intros. unfold GET, PUT. rewrite load64_store64_same. apply Z.mod_small. assumption. Qed.
Lemma GET_INT_PUT_INT_same m d v : 0 <= v < 2 ^ 32 -> GET_INT (PUT_INT m d v) d = v.
Proof. intros. unfold GET_INT, PUT_INT. rewrite load32_store32_same. apply Z.mod_small. assumption. Qed.

(** *** Decoding a link after it was written *)

Section Decode.
Variables (h : Z) (m : memory) (d : Z).

Lemma hi_range : 0 <= GET m d / 2 ^ 32 < 2 ^ 32.
Proof.
  pose proof (GET_range m d).
  split; [apply Z.div_pos; lia|]. apply Z.div_lt_upper_bound; lia.
Qed.

Lemma NEXTP_set_next p :
  0 < p - INDEX h < 2 ^ 32 -> p < 2 ^ 64 -> NEXTP h (GET (set_next m h d p) d) = p.
Proof.
  intros Hp Hp64. pose proof hi_range.
  assert (HI : 0 <= INDEX h) by (unfold INDEX, u64; apply Z.mod_pos_bound; lia).
  rewrite GET_set_next by lia. rewrite NEXTP_eq.
  replace ((2 ^ 32 * (GET m d / 2 ^ 32) + (p - INDEX h)) mod 2 ^ 32) with (p - INDEX h).
  2:{ rewrite Z.add_comm, Z.mul_comm, Z.mod_add by lia. symmetry. apply Z.mod_small. lia. }
  destruct (Z.eqb_spec (p - INDEX h) 0); [lia|].
  unfold u64. replace (INDEX h + (p - INDEX h)) with p by lia. apply Z.mod_small. lia.
Qed.

Lemma PREVP_set_next p :
  0 <= p - INDEX h < 2 ^ 32 -> PREVP h (GET (set_next m h d p) d) = PREVP h (GET m d).
Proof.
  intros Hp. pose proof hi_range. pose proof (GET_range m d).
  rewrite GET_set_next by lia. rewrite !PREVP_eq by lia.
  rewrite Z.add_comm, Z.mul_comm, Z.div_add by lia.
  rewrite (Z.div_small (p - INDEX h)) by lia. reflexivity.
Qed.

Lemma PREVP_set_prev p :
  0 < p - INDEX h < 2 ^ 32 -> p < 2 ^ 64 -> PREVP h (GET (set_prev m h d p) d) = p.
Proof.
  intros Hp Hp64. pose proof (Z.mod_pos_bound (GET m d) (2 ^ 32) ltac:(lia)).
  assert (HI : 0 <= INDEX h) by (unfold INDEX, u64; apply Z.mod_pos_bound; lia).
  rewrite GET_set_prev by lia. rewrite PREVP_eq by lia.
  replace ((GET m d mod 2 ^ 32 + 2 ^ 32 * (p - INDEX h)) / 2 ^ 32) with (p - INDEX h).
  2:{ rewrite Z.mul_comm, Z.div_add by lia. rewrite Z.div_small by lia. lia. }
  destruct (Z.eqb_spec (p - INDEX h) 0); [lia|].
  unfold u64. replace (INDEX h + (p - INDEX h)) with p by lia. apply Z.mod_small. lia.
Qed.

Lemma NEXTP_set_prev p :
  0 <= p - INDEX h < 2 ^ 32 -> NEXTP h (GET (set_prev m h d p) d) = NEXTP h (GET m d).
Proof.
  intros Hp. rewrite GET_set_prev by lia. rewrite !NEXTP_eq.
  rewrite Z.mul_comm, Z.mod_add by lia. rewrite Z.mod_mod by lia. reflexivity.
Qed.

Lemma NEXTP_CLEAR_NEXT : NEXTP h (GET (CLEAR_NEXT m d) d) = 0.
Proof.
  rewrite GET_CLEAR_NEXT, NEXTP_eq. rewrite Z.mul_comm, Z.mod_mul by lia. reflexivity.
Qed.

Lemma PREVP_CLEAR_NEXT : PREVP h (GET (CLEAR_NEXT m d) d) = PREVP h (GET m d).
Proof.
  pose proof hi_range. pose proof (GET_range m d).
  rewrite GET_CLEAR_NEXT. rewrite !PREVP_eq by lia.
  rewrite Z.mul_comm, Z.div_mul by lia. reflexivity.
Qed.

Lemma PREVP_CLEAR_PREV : PREVP h (GET (CLEAR_PREV m d) d) = 0.
Proof.
  pose proof (Z.mod_pos_bound (GET m d) (2 ^ 32) ltac:(lia)).
  rewrite GET_CLEAR_PREV, PREVP_eq by lia. rewrite Z.div_small by lia. reflexivity.
Qed.

Lemma NEXTP_CLEAR_PREV : NEXTP h (GET (CLEAR_PREV m d) d) = NEXTP h (GET m d).
Proof.
  rewrite GET_CLEAR_PREV, !NEXTP_eq. rewrite Z.mod_mod by lia. reflexivity.
Qed.

End Decode.

Lemma bin_range m y : 0 <= bin m y < NO_LISTS.
Proof. apply find_size_bin_range. Qed.

(** *** Geometry *)

Section Geometry.
Variables (h top : Z) (G : Z -> Prop).
Hypothesis Hg : geom h top G.

Lemma INDEX_geom : INDEX h = h - 96.
Proof.
  destruct Hg. unfold INDEX, FULL_HEAP, u64 in *.
  change ((NO_LISTS + 1) * WSIZE) with 96 in *. apply Z.mod_small. lia.
Qed.

Lemma geom_offset x : G x -> 0 < x - INDEX h < 2 ^ 32 /\ x < 2 ^ 64 /\ x <> 0.
Proof.
  intros Hx. rewrite INDEX_geom. destruct Hg as [? ? ? ? Hin ?].
  specialize (Hin x Hx). unfold FULL_HEAP in *.
  change ((NO_LISTS + 1) * WSIZE) with 96 in *. lia.
Qed.

Lemma slot_range i : 0 <= i < NO_LISTS -> h - 96 <= slot h i /\ slot h i + 8 <= h - 8.
Proof.
  unfold slot, FULL_HEAP, NO_LISTS, WSIZE. lia.
Qed.

Lemma slot_inj i j : slot h i = slot h j -> i = j.
Proof. unfold slot, WSIZE. lia. Qed.

End Geometry.

End ListFacts.

Import ListFacts.

Module Unlink.

Section Remove.
Variables (h top : Z) (G F : Z -> Prop).
Hypothesis Hg : geom h top G.
Hypothesis HFG : forall x, F x -> G x.
Variable st : state.
Hypothesis Hh : heap st = h.
Let m := mem st.
Hypothesis Hok : lists_ok m h F.
Variable x : Z.
Hypothesis Hx : F x.
Let P := prv m h x.
Let N := nxt m h x.
Let m' := mem (remove_from_list st x).

Lemma remove_P : P <> 0 -> F P /\ nxt m h P = x /\ P <> x /\ (P + 16 <= x \/ x + 16 <= P).
Proof.
  intros HP. destruct (l_prev _ _ _ Hok x Hx HP) as [FP HPn]. fold P in FP, HPn.
  destruct (l_rank _ _ _ Hok) as (pos & A & B & Hpos).
  assert (P <> x).
  { intros E. destruct (Hpos P FP) as [_ Hlt].
    rewrite HPn in Hlt. rewrite E in Hlt.
    assert (x <> 0) by (apply (geom_offset _ _ _ Hg); auto). specialize (Hlt H). lia. }
  repeat apply conj; auto.
  destruct (g_sep _ _ _ Hg P x (HFG _ FP) (HFG _ Hx)); [contradiction|assumption].
Qed.

Lemma remove_N :
  N <> 0 -> F N /\ prv m h N = x /\ bin m N = bin m x /\ N <> x
            /\ (N + 16 <= x \/ x + 16 <= N).
Proof.
  intros HN. destruct (l_next _ _ _ Hok x Hx HN) as (FN & HNp & HNb).
  fold N in FN, HNp, HNb.
  destruct (l_rank _ _ _ Hok) as (pos & A & B & Hpos).
  assert (N <> x).
  { intros E. destruct (Hpos x Hx) as [_ Hlt]. fold N in Hlt. specialize (Hlt HN).
    rewrite E in Hlt. lia. }
  repeat apply conj; auto.
  destruct (g_sep _ _ _ Hg N x (HFG _ FN) (HFG _ Hx)); [contradiction|assumption].
Qed.

Lemma remove_PN : P <> 0 -> N <> 0 -> P + 16 <= N \/ N + 16 <= P.
Proof.
  intros HP HN. destruct (remove_P HP) as (FP & HPn & _).
  destruct (remove_N HN) as (FN & _).
  destruct (l_rank _ _ _ Hok) as (pos & A & B & Hpos).
  assert (P <> N).
  { intros E. destruct (Hpos P FP) as [_ H1]. destruct (Hpos x Hx) as [_ H2].
    rewrite HPn in H1. fold N in H2.
    assert (x <> 0) by (apply (geom_offset _ _ _ Hg); auto).
    specialize (H1 H). specialize (H2 HN). rewrite E in H1. lia. }
  destruct (g_sep _ _ _ Hg P N (HFG _ FP) (HFG _ FN)); [contradiction|assumption].
Qed.

Lemma remove_slot : P = 0 -> GET m (slot h (bin m x)) = x.
Proof. intros HP. apply (l_first _ _ _ Hok x Hx HP). Qed.

(** The memory [remove_from_list] leaves, in each of its three cases. *)
Lemma remove_mem :
  m' = if negb (P =? 0) then
         if negb (N =? 0) then set_prev (set_next m h P N) h N P
         else CLEAR_NEXT m P
       else
         let m1 := PUT m (slot h (bin m x)) N in
         if negb (N =? 0) then CLEAR_PREV m1 N else m1.
Proof.
  unfold m', remove_from_list. rewrite Hh. fold m. fold (prv m h x) (nxt m h x). fold P N.
  destruct (Z.eqb_spec P 0) as [HP | HP]; cbn [negb].
  - fold (bin m x). fold (slot h (bin m x)).
    assert (E : GET (PUT m (slot h (bin m x)) N) x = GET m x).
    { apply GET_PUT_other.
      pose proof (slot_range h (bin m x) (find_size_bin_range _)).
      pose proof (g_in _ _ _ Hg x (HFG _ Hx)). lia. }
    rewrite E. fold (nxt m h x). fold N.
    destruct (Z.eqb_spec N 0); reflexivity.
  - destruct (remove_P HP) as (FP & HPn & HPx & SPx).
    destruct (Z.eqb_spec N 0) as [HN | HN]; cbn [negb]; [reflexivity|].
    destruct (remove_N HN) as (FN & HNp & HNb & HNx & SNx).
    pose proof (remove_PN HP HN) as SPN.
    rewrite (PUT_NEXT_at m h _ _ P N).
    + rewrite (PUT_PREV_at _ h _ _ N P); [reflexivity| | |].
      * rewrite GET_set_next_other by lia. reflexivity.
      * rewrite GET_CLEAR_PREV_other, GET_set_next_other by lia. reflexivity.
      * rewrite GET_CLEAR_PREV_other, GET_set_next_other by lia. reflexivity.
    + reflexivity.
    + rewrite GET_CLEAR_NEXT_other by lia. reflexivity.
    + rewrite GET_CLEAR_NEXT_other by lia. reflexivity.
Qed.

Lemma remove_state :
  heap (remove_from_list st x) = heap st
  /\ mem_brk (remove_from_list st x) = mem_brk st
  /\ mem_max_addr (remove_from_list st x) = mem_max_addr st.
Proof.
  unfold remove_from_list.
  repeat match goal with |- context [if ?c then _ else _] => destruct c end;
    repeat split; reflexivity.
Qed.

(** Only the list head and the link words of the two neighbours change. *)
Lemma remove_frame a :
  ~ in_slots h a ->
  ~ (P <> 0 /\ P <= a < P + 8) -> ~ (N <> 0 /\ N <= a < N + 8) ->
  m' a = m a.
Proof.
  intros Hs HaP HaN. rewrite remove_mem.
  destruct (Z.eqb_spec P 0) as [HP | HP]; cbn [negb].
  - cbv zeta.
    assert (E : PUT m (slot h (bin m x)) N a = m a).
    { apply store64_out. unfold in_slots in Hs.
      pose proof (slot_range h (bin m x) (find_size_bin_range _)).
      unfold FULL_HEAP in *. change ((NO_LISTS + 1) * WSIZE) with 96 in *.
      change (NO_LISTS * WSIZE) with 88 in *. lia. }
    destruct (Z.eqb_spec N 0) as [HN | HN]; cbn [negb]; [exact E|].
    rewrite CLEAR_PREV_out by lia. exact E.
  - destruct (Z.eqb_spec N 0) as [HN | HN]; cbn [negb].
    + apply CLEAR_NEXT_out. lia.
    + rewrite set_prev_out, set_next_out by lia. reflexivity.
Qed.

(** The lists as [m'] shows them. *)
Lemma remove_view_hdr y : G y -> GET_INT m' (HDR y) = GET_INT m (HDR y).
Proof.
  intros Gy. apply load32_ext. intros b Hb. apply remove_frame.
  - unfold in_slots, FULL_HEAP. pose proof (g_in _ _ _ Hg y Gy).
    unfold HDR, THIS, FULL_HDR, WSIZE in Hb. change (NO_LISTS * WSIZE) with 88.
    change ((NO_LISTS + 1) * WSIZE) with 96. lia.
  - intros [HP Hr]. destruct (remove_P HP) as (FP & _).
    pose proof (g_sep _ _ _ Hg P y (HFG _ FP) Gy).
    unfold HDR, THIS, FULL_HDR, WSIZE in Hb. lia.
  - intros [HN Hr]. destruct (remove_N HN) as (FN & _).
    pose proof (g_sep _ _ _ Hg N y (HFG _ FN) Gy).
    unfold HDR, THIS, FULL_HDR, WSIZE in Hb. lia.
Qed.

Lemma remove_view_bin y : G y -> bin m' y = bin m y.
Proof. intros Gy. unfold bin, GET_SIZE. rewrite remove_view_hdr by assumption. reflexivity. Qed.

Lemma remove_view_get y : G y -> y <> P -> y <> N -> GET m' y = GET m y.
Proof.
  intros Gy HyP HyN. apply load64_ext. intros b Hb. apply remove_frame.
  - unfold in_slots, FULL_HEAP. pose proof (g_in _ _ _ Hg y Gy).
    change (NO_LISTS * WSIZE) with 88. change ((NO_LISTS + 1) * WSIZE) with 96. lia.
  - intros [HP Hr]. destruct (remove_P HP) as (FP & _).
    pose proof (g_sep _ _ _ Hg P y (HFG _ FP) Gy). lia.
  - intros [HN Hr]. destruct (remove_N HN) as (FN & _).
    pose proof (g_sep _ _ _ Hg N y (HFG _ FN) Gy). lia.
Qed.

Lemma remove_view_slot i :
  0 <= i < NO_LISTS ->
  GET m' (slot h i) = if (P =? 0) && (i =? bin m x) then N else GET m (slot h i).
Proof.
  intros Hi. rewrite remove_mem.
  pose proof (slot_range h i Hi) as Ri.
  assert (OUT : forall d, G d -> slot h i + 8 <= d \/ d + 8 <= slot h i).
  { intros d Gd. pose proof (g_in _ _ _ Hg d Gd). lia. }
  destruct (Z.eqb_spec P 0) as [HP | HP]; cbn [negb andb].
  - cbv zeta.
    assert (RN : 0 <= N < 2 ^ 64).
    { unfold N, nxt, NEXTP. destruct (SEE_NEXT (GET m x) =? 0); [lia|].
      unfold u64. apply Z.mod_pos_bound. lia. }
    assert (E : GET (PUT m (slot h (bin m x)) N) (slot h i)
                = if i =? bin m x then N else GET m (slot h i)).
    { destruct (Z.eqb_spec i (bin m x)) as [-> | Hne].
      - apply GET_PUT_same. exact RN.
      - apply GET_PUT_other.
        pose proof (find_size_bin_range (s32 (GET_SIZE m (HDR x)))) as Rb. fold (bin m x) in Rb.
        unfold slot, WSIZE. lia. }
    destruct (Z.eqb_spec N 0) as [HN | HN]; cbn [negb]; [exact E|].
    destruct (remove_N HN) as (FN & _).
    rewrite GET_CLEAR_PREV_other by (apply OUT; auto). exact E.
  - destruct (remove_P HP) as (FP & _).
    destruct (Z.eqb_spec N 0) as [HN | HN]; cbn [negb].
    + apply GET_CLEAR_NEXT_other. apply OUT; auto.
    + destruct (remove_N HN) as (FN & _).
      rewrite GET_set_prev_other, GET_set_next_other by (apply OUT; auto). reflexivity.
Qed.

Lemma remove_view_nxt y :
  G y -> nxt m' h y = if y =? P then N else nxt m h y.
Proof.
  intros Gy. unfold nxt at 1. rewrite remove_mem.
  pose proof (geom_offset _ _ _ Hg y Gy) as (_ & _ & Hy0).
  assert (OUT : GET (PUT m (slot h (bin m x)) N) y = GET m y).
  { apply GET_PUT_other.
    pose proof (slot_range h (bin m x) (find_size_bin_range _)).
    pose proof (g_in _ _ _ Hg y Gy). lia. }
  destruct (Z.eqb_spec P 0) as [HP | HP]; cbn [negb].
  - cbv zeta. destruct (Z.eqb_spec y P) as [E | _]; [lia|].
    destruct (Z.eqb_spec N 0) as [HN | HN]; cbn [negb].
    + rewrite OUT. reflexivity.
    + destruct (remove_N HN) as (FN & _).
      destruct (Z.eq_dec y N) as [-> | HyN].
      * rewrite NEXTP_CLEAR_PREV. fold N in OUT. rewrite OUT. reflexivity.
      * pose proof (g_sep _ _ _ Hg y N Gy (HFG _ FN)).
        rewrite GET_CLEAR_PREV_other by lia. rewrite OUT. reflexivity.
  - destruct (remove_P HP) as (FP & HPn & HPx & SPx).
    pose proof (geom_offset _ _ _ Hg P (HFG _ FP)) as (OP & OP64 & _).
    destruct (Z.eqb_spec N 0) as [HN | HN]; cbn [negb].
    + destruct (Z.eqb_spec y P) as [-> | HyP].
      * rewrite NEXTP_CLEAR_NEXT. symmetry. exact HN.
      * pose proof (g_sep _ _ _ Hg y P Gy (HFG _ FP)).
        rewrite GET_CLEAR_NEXT_other by lia. reflexivity.
    + destruct (remove_N HN) as (FN & HNp & HNb & HNx & SNx).
      pose proof (remove_PN HP HN) as SPN.
      pose proof (geom_offset _ _ _ Hg N (HFG _ FN)) as (ON & ON64 & _).
      destruct (Z.eqb_spec y P) as [-> | HyP].
      * rewrite GET_set_prev_other by lia. apply NEXTP_set_next; lia.
      * pose proof (g_sep _ _ _ Hg y P Gy (HFG _ FP)).
        destruct (Z.eq_dec y N) as [-> | HyN].
        -- rewrite NEXTP_set_prev by lia. rewrite GET_set_next_other by lia. reflexivity.
        -- pose proof (g_sep _ _ _ Hg y N Gy (HFG _ FN)).
           rewrite GET_set_prev_other, GET_set_next_other by lia. reflexivity.
Qed.

Lemma remove_view_prv y :
  G y -> prv m' h y = if y =? N then P else prv m h y.
Proof.
  intros Gy. unfold prv at 1. rewrite remove_mem.
  pose proof (geom_offset _ _ _ Hg y Gy) as (_ & _ & Hy0).
  assert (OUT : GET (PUT m (slot h (bin m x)) N) y = GET m y).
  { apply GET_PUT_other.
    pose proof (slot_range h (bin m x) (find_size_bin_range _)).
    pose proof (g_in _ _ _ Hg y Gy). lia. }
  destruct (Z.eqb_spec P 0) as [HP | HP]; cbn [negb].
  - cbv zeta.
    destruct (Z.eqb_spec N 0) as [HN | HN]; cbn [negb].
    + destruct (Z.eqb_spec y N) as [E | _]; [lia|]. rewrite OUT. reflexivity.
    + destruct (remove_N HN) as (FN & _).
      destruct (Z.eqb_spec y N) as [-> | HyN].
      * rewrite PREVP_CLEAR_PREV. symmetry. exact HP.
      * pose proof (g_sep _ _ _ Hg y N Gy (HFG _ FN)).
        rewrite GET_CLEAR_PREV_other by lia. rewrite OUT. reflexivity.
  - destruct (remove_P HP) as (FP & HPn & HPx & SPx).
    pose proof (geom_offset _ _ _ Hg P (HFG _ FP)) as (OP & OP64 & _).
    destruct (Z.eqb_spec N 0) as [HN | HN]; cbn [negb].
    + destruct (Z.eqb_spec y N) as [E | _]; [lia|].
      destruct (Z.eq_dec y P) as [-> | HyP].
      * apply PREVP_CLEAR_NEXT.
      * pose proof (g_sep _ _ _ Hg y P Gy (HFG _ FP)).
        rewrite GET_CLEAR_NEXT_other by lia. reflexivity.
    + destruct (remove_N HN) as (FN & HNp & HNb & HNx & SNx).
      pose proof (remove_PN HP HN) as SPN.
      pose proof (geom_offset _ _ _ Hg N (HFG _ FN)) as (ON & ON64 & _).
      destruct (Z.eqb_spec y N) as [-> | HyN].
      * apply PREVP_set_prev; lia.
      * pose proof (g_sep _ _ _ Hg y N Gy (HFG _ FN)).
        rewrite GET_set_prev_other by lia.
        destruct (Z.eq_dec y P) as [-> | HyP].
        -- apply PREVP_set_next. lia.
        -- pose proof (g_sep _ _ _ Hg y P Gy (HFG _ FP)).
           rewrite GET_set_next_other by lia. reflexivity.
Qed.

End Remove.

End Unlink.

Import Unlink.

Module Relink.

Ltac solve_conj := repeat apply conj;
  first [congruence | lia | assumption | left; assumption | right; congruence | idtac].

Section RemoveOk.
Variables (h top : Z) (G F : Z -> Prop).
Hypothesis Hg : geom h top G.
Hypothesis HFG : forall x, F x -> G x.
Variable st : state.
Hypothesis Hh : heap st = h.
Hypothesis Hok : lists_ok (mem st) h F.
Variable x : Z.
Hypothesis Hx : F x.

Opaque bin nxt prv slot find_size_bin.

Lemma remove_lists_ok :
  lists_ok (mem (remove_from_list st x)) h (fun y => F y /\ y <> x).
Proof.
  set (m := mem st) in *. set (m' := mem (remove_from_list st x)).
  set (P := prv m h x). set (N := nxt m h x).
  pose proof (remove_P h top G F Hg HFG st Hok x Hx) as fP. fold m P in fP.
  pose proof (remove_N h top G F Hg HFG st Hok x Hx) as fN. fold m N in fN.
  pose proof (remove_view_slot h top G F Hg HFG st Hh Hok x Hx) as Vs. fold m m' P N in Vs.
  pose proof (remove_view_nxt h top G F Hg HFG st Hh Hok x Hx) as Vn. fold m m' P N in Vn.
  pose proof (remove_view_prv h top G F Hg HFG st Hh Hok x Hx) as Vp. fold m m' P N in Vp.
  pose proof (remove_view_bin h top G F Hg HFG st Hh Hok x Hx) as Vb. fold m m' in Vb.
  assert (NZ : forall y, G y -> y <> 0) by (intros y Gy; apply (geom_offset _ _ _ Hg y Gy)).
  destruct (l_rank _ _ _ Hok) as (pos & A & B & Hpos).
  constructor.
  - intros i Hi Hne. rewrite Vs in * by assumption.
    destruct (Z.eqb_spec P 0) as [HP | HP]; cbn [andb] in *.
    + destruct (Z.eqb_spec i (bin m x)) as [Hi' | Hi'].
      * destruct (fN Hne) as (FN & HNp & HNb & HNx & _).
        rewrite Vp, Vb by auto. rewrite Z.eqb_refl. solve_conj.
      * destruct (l_head _ _ _ Hok i Hi Hne) as (Fh & Hp & Hb).
        rewrite Vp, Vb by auto.
        assert (GET m (slot h i) <> x) by (intros E; rewrite E in Hb; congruence).
        solve_conj.
        destruct (Z.eqb_spec (GET m (slot h i)) N); [congruence|assumption].
    + destruct (l_head _ _ _ Hok i Hi Hne) as (Fh & Hp & Hb).
      rewrite Vp, Vb by auto.
      assert (GET m (slot h i) <> x) by (intros E; rewrite E in Hp; exact (HP Hp)).
      solve_conj.
      destruct (Z.eqb_spec (GET m (slot h i)) N) as [E | E]; [|assumption].
      assert (HN : N <> 0) by (rewrite <- E; assumption).
      destruct (fN HN) as (_ & HNp & _). rewrite <- E in HNp.
      exfalso. apply (NZ x (HFG _ Hx)). congruence.
  - intros y [Fy Hyx] Hn. rewrite Vn in * by auto.
    destruct (Z.eqb_spec y P) as [E | E].
    + assert (HP : P <> 0) by (rewrite <- E; auto).
      destruct (fP HP) as (FP & HPn & HPx & _).
      destruct (fN Hn) as (FN & HNp & HNb & HNx & _).
      rewrite Vp, !Vb by auto. rewrite Z.eqb_refl.
      destruct (l_next _ _ _ Hok P FP) as (_ & _ & Hb); [rewrite HPn; auto|].
      rewrite HPn in Hb. subst y. solve_conj.
    + destruct (l_next _ _ _ Hok y Fy Hn) as (Fz & Hzp & Hzb).
      assert (nxt m h y <> x) by (intros E'; rewrite E' in Hzp; apply E; symmetry; exact Hzp).
      rewrite Vp, !Vb by auto.
      solve_conj.
      destruct (Z.eqb_spec (nxt m h y) N) as [E' | E']; [|assumption].
      assert (HN : N <> 0) by (rewrite <- E'; assumption).
      destruct (fN HN) as (_ & HNp & _). rewrite <- E' in HNp. congruence.
  - intros y [Fy Hyx] Hp. rewrite Vp in * by auto.
    destruct (Z.eqb_spec y N) as [E | E].
    + destruct (fP Hp) as (FP & HPn & HPx & _).
      rewrite Vn by auto. rewrite Z.eqb_refl. solve_conj.
    + destruct (l_prev _ _ _ Hok y Fy Hp) as (Fz & Hzn).
      assert (prv m h y <> x) by (intros E'; rewrite E' in Hzn; apply E; symmetry; exact Hzn).
      rewrite Vn by auto. solve_conj.
      destruct (Z.eqb_spec (prv m h y) P) as [E' | E']; [|assumption].
      assert (HP : P <> 0) by (rewrite <- E'; assumption).
      destruct (fP HP) as (_ & HPn & _). rewrite <- E' in HPn. congruence.
  - intros y [Fy Hyx] Hp. rewrite Vp in Hp by auto. rewrite Vb by auto.
    pose proof (bin_range m y) as Rb.
    rewrite Vs by assumption.
    destruct (Z.eqb_spec y N) as [E | E].
    + assert (HN : N <> 0) by (rewrite <- E; auto).
      destruct (fN HN) as (_ & _ & HNb & _).
      subst y. rewrite Hp, HNb. rewrite !Z.eqb_refl. reflexivity.
    + pose proof (l_first _ _ _ Hok y Fy Hp) as Hs.
      destruct (Z.eqb_spec P 0) as [HP | HP]; cbn [andb]; [|assumption].
      destruct (Z.eqb_spec (bin m y) (bin m x)) as [Eb | Eb]; [|assumption].
      pose proof (l_first _ _ _ Hok x Hx HP) as Hsx. rewrite Eb in Hs. congruence.
  - exists pos, A, B. intros y [Fy Hyx]. destruct (Hpos y Fy) as [Hr Hlt].
    split; [assumption|]. rewrite Vn by auto.
    destruct (Z.eqb_spec y P) as [E | E]; [|assumption].
    intros HN. assert (HP : P <> 0) by (rewrite <- E; auto).
    destruct (fP HP) as (FP & HPn & _).
    destruct (Hpos P FP) as [_ H1]. destruct (Hpos x Hx) as [_ H2].
    rewrite HPn in H1. fold N in H2.
    specialize (H1 (NZ x (HFG _ Hx))). specialize (H2 HN). subst y. lia.
Qed.

End RemoveOk.

Transparent bin nxt prv slot.

Section Insert.
Variables (h top : Z) (G F : Z -> Prop).
Hypothesis Hg : geom h top G.
Hypothesis HFG : forall x, F x -> G x.
Variable st : state.
Hypothesis Hh : heap st = h.
Let m := mem st.
Hypothesis Hok : lists_ok m h F.
Variable x : Z.
Hypothesis Gx : G x.
Hypothesis Hx : ~ F x.
Let H := GET m (slot h (bin m x)).
Let m' := mem (lifo_insert st x).

Lemma insert_bin_range : 0 <= bin m x < NO_LISTS.
Proof. apply find_size_bin_range. Qed.

Lemma insert_H : H <> 0 -> F H /\ prv m h H = 0 /\ bin m H = bin m x
                        /\ (H + 16 <= x \/ x + 16 <= H).
Proof.
  intros HH. destruct (l_head _ _ _ Hok (bin m x) insert_bin_range HH) as (FH & Hp & Hb).
  fold H in FH, Hp, Hb. solve_conj.
  destruct (g_sep _ _ _ Hg H x (HFG _ FH) Gx) as [E | S]; [|assumption].
  exfalso. apply Hx. rewrite <- E. exact FH.
Qed.

Lemma slot_far d : G d -> slot h (bin m x) + 8 <= d.
Proof.
  intros Gd. pose proof (slot_range h (bin m x) insert_bin_range).
  pose proof (g_in _ _ _ Hg d Gd). lia.
Qed.

Lemma insert_mem :
  m' = CLEAR_PREV
         (PUT (if negb (H =? 0) then set_prev (set_next m h x H) h H x else CLEAR_NEXT m x)
              (slot h (bin m x)) x) x.
Proof.
  unfold m', lifo_insert. rewrite Hh. fold m. fold (bin m x). fold (slot h (bin m x)). fold H.
  cbn [mem set_mem]. pose proof (slot_far x Gx) as Sx.
  destruct (Z.eqb_spec H 0) as [HH | HH]; cbn [negb]; [reflexivity|].
  destruct (insert_H HH) as (FH & _ & _ & SH). pose proof (slot_far H (HFG _ FH)) as SH'.
  rewrite (PUT_NEXT_at m h _ _ x H).
  - rewrite (PUT_PREV_at _ h _ _ H x); [reflexivity| | |reflexivity].
    + rewrite GET_set_next_other by lia. reflexivity.
    + rewrite GET_CLEAR_PREV_other, GET_set_next_other by lia. reflexivity.
  - reflexivity.
  - reflexivity.
  - rewrite GET_CLEAR_NEXT_other by lia. reflexivity.
Qed.

Lemma insert_state :
  heap (lifo_insert st x) = heap st
  /\ mem_brk (lifo_insert st x) = mem_brk st
  /\ mem_max_addr (lifo_insert st x) = mem_max_addr st.
Proof. unfold lifo_insert. repeat apply conj; reflexivity. Qed.

(** Only the list head, the link word of [x] and that of the old head change. *)
Lemma insert_frame a :
  ~ in_slots h a -> ~ (x <= a < x + 8) -> ~ (H <> 0 /\ H <= a < H + 8) -> m' a = m a.
Proof.
  intros Hs Hax HaH. rewrite insert_mem.
  rewrite CLEAR_PREV_out by assumption.
  unfold PUT. rewrite store64_out.
  2:{ unfold in_slots in Hs. pose proof (slot_range h (bin m x) insert_bin_range).
      unfold FULL_HEAP in *. change ((NO_LISTS + 1) * WSIZE) with 96 in *.
      change (NO_LISTS * WSIZE) with 88 in *. lia. }
  destruct (Z.eqb_spec H 0) as [HH | HH]; cbn [negb].
  - apply CLEAR_NEXT_out. assumption.
  - rewrite set_prev_out, set_next_out by lia. reflexivity.
Qed.

Lemma insert_view_hdr y : G y -> GET_INT m' (HDR y) = GET_INT m (HDR y).
Proof.
  intros Gy. apply load32_ext. intros b Hb. unfold HDR, THIS, FULL_HDR, WSIZE in Hb.
  apply insert_frame.
  - unfold in_slots, FULL_HEAP. pose proof (g_in _ _ _ Hg y Gy).
    change (NO_LISTS * WSIZE) with 88. change ((NO_LISTS + 1) * WSIZE) with 96. lia.
  - pose proof (g_sep _ _ _ Hg x y Gx Gy). lia.
  - intros [HH Hr]. destruct (insert_H HH) as (FH & _).
    pose proof (g_sep _ _ _ Hg H y (HFG _ FH) Gy). lia.
Qed.

Lemma insert_view_bin y : G y -> bin m' y = bin m y.
Proof. intros Gy. unfold bin, GET_SIZE. rewrite insert_view_hdr by assumption. reflexivity. Qed.

Lemma insert_view_slot i :
  0 <= i < NO_LISTS ->
  GET m' (slot h i) = if i =? bin m x then x else GET m (slot h i).
Proof.
  intros Hi. rewrite insert_mem. pose proof (slot_range h i Hi) as Ri.
  pose proof (g_in _ _ _ Hg x Gx) as Ix. pose proof (geom_offset _ _ _ Hg x Gx) as (_ & X64 & _).
  rewrite GET_CLEAR_PREV_other by lia.
  destruct (Z.eqb_spec i (bin m x)) as [-> | Hne].
  - apply GET_PUT_same. pose proof (g_base _ _ _ Hg). lia.
  - rewrite GET_PUT_other.
    2:{ pose proof insert_bin_range. unfold slot, WSIZE. lia. }
    destruct (Z.eqb_spec H 0) as [HH | HH]; cbn [negb].
    + apply GET_CLEAR_NEXT_other. lia.
    + destruct (insert_H HH) as (FH & _). pose proof (g_in _ _ _ Hg H (HFG _ FH)).
      rewrite GET_set_prev_other, GET_set_next_other by lia. reflexivity.
Qed.

Lemma insert_view_nxt y : G y -> nxt m' h y = if y =? x then H else nxt m h y.
Proof.
  intros Gy. unfold nxt at 1. rewrite insert_mem.
  pose proof (slot_far x Gx) as Sx. pose proof (slot_far y Gy) as Sy.
  pose proof (geom_offset _ _ _ Hg x Gx) as (OX & X64 & _).
  destruct (Z.eqb_spec y x) as [-> | Hyx].
  - rewrite NEXTP_CLEAR_PREV. rewrite GET_PUT_other by lia.
    destruct (Z.eqb_spec H 0) as [HH | HH]; cbn [negb].
    + rewrite NEXTP_CLEAR_NEXT. symmetry. assumption.
    + destruct (insert_H HH) as (FH & _ & _ & SH).
      pose proof (geom_offset _ _ _ Hg H (HFG _ FH)) as (OH & H64 & _).
      rewrite GET_set_prev_other by lia. apply NEXTP_set_next; lia.
  - pose proof (g_sep _ _ _ Hg y x Gy Gx).
    rewrite GET_CLEAR_PREV_other, GET_PUT_other by lia.
    destruct (Z.eqb_spec H 0) as [HH | HH]; cbn [negb].
    + rewrite GET_CLEAR_NEXT_other by lia. reflexivity.
    + destruct (insert_H HH) as (FH & _ & _ & SH).
      destruct (Z.eq_dec y H) as [-> | HyH].
      * rewrite NEXTP_set_prev by lia. rewrite GET_set_next_other by lia. reflexivity.
      * pose proof (g_sep _ _ _ Hg y H Gy (HFG _ FH)).
        rewrite GET_set_prev_other, GET_set_next_other by lia. reflexivity.
Qed.

Lemma insert_view_prv y :
  G y -> prv m' h y = if y =? x then 0 else if y =? H then x else prv m h y.
Proof.
  intros Gy. unfold prv at 1. rewrite insert_mem.
  pose proof (slot_far x Gx) as Sx. pose proof (slot_far y Gy) as Sy.
  pose proof (geom_offset _ _ _ Hg x Gx) as (OX & X64 & _).
  pose proof (geom_offset _ _ _ Hg y Gy) as (_ & _ & Y0).
  destruct (Z.eqb_spec y x) as [-> | Hyx].
  - apply PREVP_CLEAR_PREV.
  - pose proof (g_sep _ _ _ Hg y x Gy Gx).
    rewrite GET_CLEAR_PREV_other, GET_PUT_other by lia.
    destruct (Z.eqb_spec H 0) as [HH | HH]; cbn [negb].
    + destruct (Z.eqb_spec y H) as [E | _]; [lia|].
      rewrite GET_CLEAR_NEXT_other by lia. reflexivity.
    + destruct (insert_H HH) as (FH & _ & _ & SH).
      destruct (Z.eqb_spec y H) as [-> | HyH].
      * apply PREVP_set_prev; lia.
      * pose proof (g_sep _ _ _ Hg y H Gy (HFG _ FH)).
        rewrite GET_set_prev_other, GET_set_next_other by lia. reflexivity.
Qed.

Opaque bin nxt prv slot.

Lemma insert_lists_ok : lists_ok m' h (fun y => F y \/ y = x).
Proof.
  pose proof insert_H as fH. pose proof insert_view_slot as Vs.
  pose proof insert_view_nxt as Vn. pose proof insert_view_prv as Vp.
  pose proof insert_view_bin as Vb.
  assert (NZ : forall y, G y -> y <> 0) by (intros y Gy; apply (geom_offset _ _ _ Hg y Gy)).
  assert (GF : forall y, F y \/ y = x -> G y) by (intros y [Fy | ->]; auto).
  destruct (l_rank _ _ _ Hok) as (pos & A & B & Hpos).
  constructor.
  - intros i Hi Hne. rewrite Vs in * by assumption.
    destruct (Z.eqb_spec i (bin m x)) as [Hi' | Hi'].
    + rewrite Vp, Vb by auto. rewrite Z.eqb_refl. solve_conj.
    + destruct (l_head _ _ _ Hok i Hi Hne) as (Fh & Hp & Hb).
      rewrite Vp, Vb by auto.
      destruct (Z.eqb_spec (GET m (slot h i)) x) as [E | E]; [rewrite E in Fh; contradiction|].
      solve_conj.
      destruct (Z.eqb_spec (GET m (slot h i)) H) as [E' | E']; [|assumption].
      assert (HH : H <> 0) by (rewrite <- E'; assumption).
      destruct (fH HH) as (_ & _ & HHb & _). rewrite <- E' in HHb. congruence.
  - intros y Fy Hn. pose proof (GF y Fy) as Gy. rewrite Vn in * by auto.
    destruct (Z.eqb_spec y x) as [E | E].
    + destruct (fH Hn) as (FH & HHp & HHb & SH).
      rewrite Vp, !Vb by auto.
      destruct (Z.eqb_spec H x) as [E' | _]; [lia|]. rewrite Z.eqb_refl.
      subst y. solve_conj.
    + destruct Fy as [Fy | Fy]; [|contradiction].
      destruct (l_next _ _ _ Hok y Fy Hn) as (Fz & Hzp & Hzb).
      rewrite Vp, !Vb by auto.
      destruct (Z.eqb_spec (nxt m h y) x) as [E' | _]; [rewrite E' in Fz; contradiction|].
      solve_conj.
      destruct (Z.eqb_spec (nxt m h y) H) as [E' | E']; [|assumption].
      assert (HH : H <> 0) by (rewrite <- E'; assumption).
      destruct (fH HH) as (_ & HHp & _). rewrite <- E' in HHp.
      exfalso. apply (NZ y Gy). congruence.
  - intros y Fy Hp. pose proof (GF y Fy) as Gy. rewrite Vp in * by auto.
    destruct (Z.eqb_spec y x) as [E | E]; [congruence|].
    destruct Fy as [Fy | Fy]; [|contradiction].
    destruct (Z.eqb_spec y H) as [E' | E'].
    + rewrite Vn by auto. rewrite Z.eqb_refl. auto.
    + destruct (l_prev _ _ _ Hok y Fy Hp) as (Fz & Hzn).
      rewrite Vn by auto.
      destruct (Z.eqb_spec (prv m h y) x) as [E'' | _]; [rewrite E'' in Fz; contradiction|].
      auto.
  - intros y Fy Hp. pose proof (GF y Fy) as Gy. rewrite Vp in Hp by auto. rewrite Vb by auto.
    pose proof (bin_range m y) as Rb.
    rewrite Vs by assumption.
    destruct (Z.eqb_spec y x) as [E | E]; [subst y; rewrite Z.eqb_refl; reflexivity|].
    destruct Fy as [Fy | Fy]; [|contradiction].
    destruct (Z.eqb_spec y H) as [E' | E']; [exfalso; apply (NZ x Gx); congruence|].
    pose proof (l_first _ _ _ Hok y Fy Hp) as Hs.
    destruct (Z.eqb_spec (bin m y) (bin m x)) as [Eb | Eb]; [|assumption].
    rewrite Eb in Hs. fold H in Hs. congruence.
  - exists (fun y => if y =? x then Z.min A B - 1 else pos y), (Z.min A B - 1), B.
    intros y Fy. pose proof (GF y Fy) as Gy. rewrite Vn by auto.
    destruct (Z.eqb_spec y x) as [E | E].
    + split; [lia|]. intros HH.
      destruct (fH HH) as (FH & _ & _ & SH).
      destruct (Z.eqb_spec H x) as [E' | _]; [lia|]. destruct (Hpos H FH). lia.
    + destruct Fy as [Fy | Fy]; [|contradiction].
      destruct (Hpos y Fy) as [Hr Hlt]. split; [lia|]. intros Hn.
      destruct (l_next _ _ _ Hok y Fy Hn) as (Fz & _).
      destruct (Z.eqb_spec (nxt m h y) x) as [E' | _]; [rewrite E' in Fz; contradiction|].
      auto.
Qed.

End Insert.

Transparent bin nxt prv slot.

End Relink.

Import Relink.

Module Tiling.

Lemma total_app l1 l2 : total (l1 ++ l2) = total l1 + total l2.
Proof. induction l1 as [|[s a] l IH]; simpl; lia. Qed.

Lemma starts_app l1 : forall p l2,
  starts p (l1 ++ l2) = starts p l1 ++ starts (p + total l1) l2.
Proof.
  induction l1 as [|[s a] l IH]; intros p l2; simpl.
  - f_equal. lia.
  - f_equal. rewrite IH. f_equal. f_equal. lia.
Qed.

Lemma seg_app m l1 : forall p l2,
  seg m p (l1 ++ l2) <-> seg m p l1 /\ seg m (p + total l1) l2.
Proof.
  induction l1 as [|[s a] l IH]; intros p l2; simpl.
  - rewrite Z.add_0_r. tauto.
  - rewrite IH. replace (p + s + total l) with (p + (s + total l)) by lia. tauto.
Qed.

Lemma seg_total m : forall bs p, seg m p bs -> 0 <= total bs.
Proof.
  induction bs as [|[s a] l IH]; intros p H; simpl in *; [lia|].
  destruct H as (Hs & _ & _ & Hr). specialize (IH _ Hr). lia.
Qed.

Lemma seg_total_16 m : forall bs p, seg m p bs -> total bs = 0 \/ 16 <= total bs.
Proof.
  intros [|[s a] l] p H; simpl in *; [left; reflexivity|].
  destruct H as ((? & _) & _ & _ & Hr). pose proof (seg_total _ _ _ Hr). right. lia.
Qed.

Lemma seg_total_mod8 m : forall bs p, seg m p bs -> total bs mod 8 = 0.
Proof.
  induction bs as [|[s a] l IH]; intros p H; simpl in *; [reflexivity|].
  destruct H as ((_ & H8) & _ & _ & Hr). specialize (IH _ Hr).
  rewrite Z.add_mod, H8, IH by lia. reflexivity.
Qed.

Lemma in_starts_split : forall bs p x s a,
  In (x, s, a) (starts p bs) ->
  exists l1 l2, bs = l1 ++ (s, a) :: l2 /\ x = p + total l1.
Proof.
  induction bs as [|[s0 a0] l IH]; intros p x s a H; simpl in H; [contradiction|].
  destruct H as [E | H].
  - injection E as -> -> ->. exists [], l. simpl. split; [reflexivity|lia].
  - destruct (IH _ _ _ _ H) as (l1 & l2 & -> & ->).
    exists ((s0, a0) :: l1), l2. simpl. split; [reflexivity|lia].
Qed.

Lemma in_starts_mid l1 p s a l2 :
  In (p + total l1, s, a) (starts p (l1 ++ (s, a) :: l2)).
Proof. rewrite starts_app. apply in_or_app. right. simpl. left. reflexivity. Qed.

(** Every block lies inside the segment, and has its tags. *)
Lemma seg_in m : forall bs p x s a,
  seg m p bs -> In (x, s, a) (starts p bs) ->
  (16 <= s /\ s mod 8 = 0) /\ GET_INT m (x - 8) = tag s a
  /\ GET_INT m (x + s - 4) = tag s a /\ p <= x /\ x + s <= p + total bs.
Proof.
  induction bs as [|[s0 a0] l IH]; intros p x s a H Hin; simpl in *; [contradiction|].
  destruct H as (Hs & Hh & Hf & Hr). pose proof (seg_total _ _ _ Hr).
  destruct Hin as [E | Hin].
  - injection E as -> -> ->. repeat apply conj; try assumption; lia.
  - destruct (IH _ _ _ _ Hr Hin) as (? & ? & ? & ? & ?).
    repeat apply conj; try assumption; lia.
Qed.

(** Two blocks are the same block or do not overlap. *)
Lemma seg_sep m : forall bs p x1 s1 a1 x2 s2 a2,
  seg m p bs -> In (x1, s1, a1) (starts p bs) -> In (x2, s2, a2) (starts p bs) ->
  (x1 = x2 /\ s1 = s2 /\ a1 = a2) \/ x1 + s1 <= x2 \/ x2 + s2 <= x1.
Proof.
  induction bs as [|[s0 a0] l IH]; intros p x1 s1 a1 x2 s2 a2 H H1 H2;
    simpl in *; [contradiction|].
  destruct H as (Hs & Hh & Hf & Hr).
  destruct H1 as [E1 | H1], H2 as [E2 | H2].
  - injection E1 as <- <- <-. injection E2 as <- <- <-. left. auto.
  - injection E1 as <- <- <-. pose proof (seg_in _ _ _ _ _ _ Hr H2). right. left. lia.
  - injection E2 as <- <- <-. pose proof (seg_in _ _ _ _ _ _ Hr H1). right. right. lia.
  - eapply IH; eassumption.
Qed.

(** What follows a block is the next block or the end of the segment. *)
Lemma starts_next : forall bs p x s a,
  In (x, s, a) (starts p bs) ->
  x + s = p + total bs \/ exists s' a', In (x + s, s', a') (starts p bs).
Proof.
  induction bs as [|[s0 a0] l IH]; intros p x s a H; simpl in *; [contradiction|].
  destruct H as [E | H].
  - injection E as <- <- <-. destruct l as [|[s1 a1] l'].
    + left. simpl. lia.
    + right. exists s1, a1. right. simpl. left. reflexivity.
  - destruct (IH _ _ _ _ H) as [E | (s' & a' & H')].
    + left. lia.
    + right. exists s', a'. right. exact H'.
Qed.

(** A block starts at the segment's start or a whole block above it, and
    ends at the segment's end or a whole block below it. *)
Lemma seg_in_strong m : forall bs p x s a,
  seg m p bs -> In (x, s, a) (starts p bs) ->
  16 <= s /\ (x = p \/ p + 16 <= x)
  /\ (x + s = p + total bs \/ x + s + 16 <= p + total bs).
Proof.
  induction bs as [|[s0 a0] l IH]; intros p x s a H Hin; simpl in *; [contradiction|].
  destruct H as (Hs & Hh & Hf & Hr). pose proof (seg_total _ _ _ Hr).
  destruct Hin as [E | Hin].
  - injection E as -> -> ->. split; [lia|]. split; [left; reflexivity|].
    destruct l as [|[s1 a1] l']; simpl in *; [left; lia|].
    destruct Hr as ((? & ?) & _ & _ & Hr'). pose proof (seg_total _ _ _ Hr'). right. lia.
  - destruct (IH _ _ _ _ Hr Hin) as (? & ? & ?). split; [assumption|]. split; lia.
Qed.

(** [seg] reads the two tags of each block and nothing else. *)
Lemma seg_ext m m' : forall bs p,
  seg m p bs ->
  (forall x s a, In (x, s, a) (starts p bs) ->
     GET_INT m' (x - 8) = GET_INT m (x - 8)
     /\ GET_INT m' (x + s - 4) = GET_INT m (x + s - 4)) ->
  seg m' p bs.
Proof.
  induction bs as [|[s0 a0] l IH]; intros p H E; simpl in *; [exact I|].
  destruct H as (Hs & Hh & Hf & Hr).
  destruct (E p s0 a0 (or_introl eq_refl)) as [E1 E2].
  split; [assumption|]. split; [congruence|]. split; [congruence|].
  apply IH; [assumption|]. intros x s a Hin. apply (E x s a). right. exact Hin.
Qed.

(** *** Reading tags *)

Lemma tag_size s a :
  0 <= s -> s + 1 < 2 ^ 32 -> s mod 8 = 0 -> Z.land (tag s a) (u32 (Z.lnot 7)) = s.
Proof.
  intros H0 H1 H8. unfold tag. rewrite land_lnot7 by (destruct a; simpl; lia).
  pose proof (Z.div_mod s 8 ltac:(lia)) as D. rewrite H8 in D.
  replace (s + Z.b2z a) with (Z.b2z a + (s / 8) * 8) by lia.
  rewrite Z.div_add by lia. rewrite Z.div_small by (destruct a; simpl; lia). lia.
Qed.

Lemma tag_alloc s a : s mod 8 = 0 -> Z.land (tag s a) 1 = Z.b2z a.
Proof.
  intros H8. unfold tag. rewrite land_one.
  pose proof (Z.div_mod s 8 ltac:(lia)) as D. rewrite H8 in D.
  replace (s + Z.b2z a) with (Z.b2z a + (4 * (s / 8)) * 2) by lia.
  rewrite Z.mod_add by lia. destruct a; reflexivity.
Qed.

Lemma PACK_tag s (a : bool) :
  0 <= s -> s + 1 < 2 ^ 32 -> s mod 8 = 0 -> PACK s (Z.b2z a) = tag s a.
Proof.
  intros H0 H1 H8. unfold PACK, tag, u32.
  assert (L : Z.land s (Z.b2z a) = 0).
  { destruct a; simpl; [|apply Z.land_0_r]. rewrite land_one.
    pose proof (Z.div_mod s 8 ltac:(lia)) as D. rewrite H8 in D.
    replace s with (0 + (4 * (s / 8)) * 2) by lia. rewrite Z.mod_add by lia. reflexivity. }
  rewrite lor_disjoint by exact L. apply Z.mod_small. destruct a; simpl; lia.
Qed.

Lemma tag_range s a : 0 <= s -> s + 1 < 2 ^ 32 -> 0 <= tag s a < 2 ^ 32.
Proof. unfold tag. destruct a; simpl; lia. Qed.

Section Tiled.
Variables (st : state) (bs : list block).
Hypothesis Ht : tiled st bs.
Let h := heap st.
Let m := mem st.

Lemma tiled_total : 0 <= total bs /\ total bs + 96 <= 2 ^ 32.
Proof.
  destruct Ht. pose proof (seg_total _ _ _ t_seg0).
  unfold FULL_HEAP in *. change ((NO_LISTS + 1) * WSIZE) with 96 in *. lia.
Qed.

Lemma tiled_blk x s a :
  blk h bs x s a ->
  (16 <= s /\ s mod 8 = 0 /\ s + 96 <= 2 ^ 32)
  /\ GET_INT m (x - 8) = tag s a /\ GET_INT m (x + s - 4) = tag s a
  /\ h + 8 <= x /\ x + s <= mem_brk st /\ x mod 8 = 0.
Proof.
  intros Hb. pose proof tiled_total. destruct Ht.
  destruct (seg_in _ _ _ _ _ _ t_seg0 Hb) as ((? & ?) & ? & ? & ? & ?).
  assert (x mod 8 = 0).
  { destruct (in_starts_split _ _ _ _ _ Hb) as (l1 & l2 & E & ->).
    clear - t_align0 t_seg0 E. subst bs. apply seg_app in t_seg0. destruct t_seg0 as [S1 _].
    pose proof (seg_total_mod8 _ _ _ S1) as T.
    rewrite Z.add_mod, (Z.add_mod (heap st) 8), t_align0, T by lia. reflexivity. }
  unfold h, m. repeat apply conj; try assumption; lia.
Qed.

Lemma tiled_size x s a : blk h bs x s a -> GET_SIZE m (HDR x) = s.
Proof.
  intros Hb. destruct (tiled_blk _ _ _ Hb) as ((? & ? & ?) & Hh & _).
  unfold GET_SIZE, HDR, THIS, FULL_HDR, WSIZE. rewrite Hh. apply tag_size; lia.
Qed.

Lemma tiled_alloc x s a : blk h bs x s a -> GET_ALLOC m (HDR x) = Z.b2z a.
Proof.
  intros Hb. destruct (tiled_blk _ _ _ Hb) as ((? & ? & ?) & Hh & _).
  unfold GET_ALLOC, HDR, THIS, FULL_HDR, WSIZE. rewrite Hh. apply tag_alloc; lia.
Qed.

Lemma tiled_geom : geom h (mem_brk st) (any_at h bs).
Proof.
  pose proof tiled_total. pose proof tiled_blk as TB. destruct Ht.
  unfold h, m in *. constructor; try lia.
  - intros x (s & a & Hb). pose proof (TB _ _ _ Hb). lia.
  - intros x y (s1 & a1 & H1) (s2 & a2 & H2).
    pose proof (TB _ _ _ H1). pose proof (TB _ _ _ H2).
    destruct (seg_sep _ _ _ _ _ _ _ _ _ t_seg0 H1 H2) as [(? & _) | S]; [left; assumption|lia].
Qed.

Lemma free_any x : free_at h bs x -> any_at h bs x.
Proof. intros (s & Hb). exists s, false. exact Hb. Qed.

End Tiled.

End Tiling.

Import Tiling.

Module Frames.

Ltac tiled_fields Ht :=
  pose proof (t_align _ _ Ht) as Tal; pose proof (t_base _ _ Ht) as Tbase;
  pose proof (t_brk _ _ Ht) as Tbrk; pose proof (t_max _ _ Ht) as Tmax;
  pose proof (t_span _ _ Ht) as Tspan; pose proof (t_top _ _ Ht) as Ttop;
  pose proof (t_pro_hdr _ _ Ht) as Tph; pose proof (t_pro_ftr _ _ Ht) as Tpf;
  pose proof (t_seg _ _ Ht) as Tseg; pose proof (t_epi _ _ Ht) as Tepi.

(** The lists depend on the list heads, and on the link word and the header
    of their members. *)
Lemma lists_ok_ext m m' h F :
  lists_ok m h F ->
  (forall i, 0 <= i < NO_LISTS -> GET m' (slot h i) = GET m (slot h i)) ->
  (forall y, F y -> GET m' y = GET m y /\ GET_INT m' (HDR y) = GET_INT m (HDR y)) ->
  lists_ok m' h F.
Proof.
  intros Hok Hs Hy.
  assert (En : forall y, F y -> nxt m' h y = nxt m h y)
    by (intros y Fy; unfold nxt; destruct (Hy y Fy) as [-> _]; reflexivity).
  assert (Ep : forall y, F y -> prv m' h y = prv m h y)
    by (intros y Fy; unfold prv; destruct (Hy y Fy) as [-> _]; reflexivity).
  assert (Eb : forall y, F y -> bin m' y = bin m y)
    by (intros y Fy; unfold bin, GET_SIZE; destruct (Hy y Fy) as [_ ->]; reflexivity).
  destruct Hok as [Lh Ln Lp Lf Lr].
  constructor.
  - intros i Hi Hne. rewrite Hs in * by assumption.
    destruct (Lh i Hi Hne) as (Fh & Hp & Hb). rewrite Ep, Eb by assumption. auto.
  - intros x Fx Hn. rewrite En in * by assumption.
    destruct (Ln x Fx Hn) as (Fz & Hp & Hb). rewrite Ep, !Eb by assumption. auto.
  - intros x Fx Hp. rewrite Ep in * by assumption.
    destruct (Lp x Fx Hp) as (Fz & Hn). rewrite En by assumption. auto.
  - intros x Fx Hp. rewrite Ep in Hp by assumption. rewrite Eb by assumption.
    rewrite Hs by apply bin_range. auto.
  - destruct Lr as (pos & A & B & Hpos). exists pos, A, B. intros x Fx.
    rewrite En by assumption. auto.
Qed.

Lemma lists_ok_iff m h F F' :
  (forall y, F y <-> F' y) -> lists_ok m h F -> lists_ok m h F'.
Proof.
  intros E [Lh Ln Lp Lf Lr]. constructor.
  - intros i Hi Hne. destruct (Lh i Hi Hne) as (? & ? & ?). rewrite <- E. auto.
  - intros x Fx Hn. apply E in Fx. destruct (Ln x Fx Hn) as (? & ? & ?). rewrite <- E. auto.
  - intros x Fx Hp. apply E in Fx. destruct (Lp x Fx Hp) as (? & ?). rewrite <- E. auto.
  - intros x Fx Hp. apply E in Fx. auto.
  - destruct Lr as (pos & A & B & Hpos). exists pos, A, B. intros x Fx. apply E in Fx. auto.
Qed.

(** [tiled] depends on the boundary tags only. *)
Lemma tiled_ext st st' bs :
  tiled st bs ->
  heap st' = heap st -> mem_brk st' = mem_brk st -> mem_max_addr st' = mem_max_addr st ->
  (forall c, c = heap st - 8 \/ c = heap st + 4 \/ c = mem_brk st - 8
             \/ (exists x s a, blk (heap st) bs x s a /\ (c = x - 8 \/ c = x + s - 4)) ->
             GET_INT (mem st') c = GET_INT (mem st) c) ->
  tiled st' bs.
Proof.
  intros [] Eh Eb Em E. constructor; rewrite ?Eh, ?Eb, ?Em; try assumption.
  - rewrite E by auto. assumption.
  - rewrite E by auto. assumption.
  - eapply seg_ext; [eassumption|]. intros x s a Hin.
    split; apply E; right; right; right; exists x, s, a; auto.
  - rewrite E by auto. assumption.
Qed.

(** Writes to list heads and to link words of blocks leave the tags alone. *)
Lemma tiled_link_frame st st' bs :
  tiled st bs ->
  heap st' = heap st -> mem_brk st' = mem_brk st -> mem_max_addr st' = mem_max_addr st ->
  (forall a, ~ in_slots (heap st) a ->
             (forall d, any_at (heap st) bs d -> ~ (d <= a < d + 8)) ->
             mem st' a = mem st a) ->
  tiled st' bs.
Proof.
  intros Ht Eh Eb Em Fr. apply (tiled_ext st st' bs Ht Eh Eb Em).
  pose proof (tiled_total _ _ Ht) as TT.
  pose proof (tiled_geom _ _ Ht) as Hg. pose proof (tiled_blk _ _ Ht) as TB.
  assert (NS : forall a, heap st - 8 <= a -> ~ in_slots (heap st) a).
  { intros a Ha. unfold in_slots, FULL_HEAP. change ((NO_LISTS + 1) * WSIZE) with 96.
    change (NO_LISTS * WSIZE) with 88. lia. }
  intros c Hc. apply load32_ext. intros b Hb. apply Fr.
  - apply NS. destruct Ht. destruct Hc as [-> | [-> | [-> | (x & s & a & Hx & Hc)]]]; try lia.
    pose proof (TB _ _ _ Hx). lia.
  - intros d (sd & ad & Hd). pose proof (TB _ _ _ Hd) as Bd.
    pose proof (t_seg _ _ Ht) as Sg. pose proof (t_brk _ _ Ht).
    destruct Hc as [-> | [-> | [-> | (x & s & a & Hx & Hc)]]]; try lia.
    pose proof (TB _ _ _ Hx) as Bx.
    destruct (seg_sep _ _ _ _ _ _ _ _ _ Sg Hx Hd) as [(? & ? & ?) | S]; lia.
Qed.

(** *** Rewriting tags *)

(** A run [mid] of blocks becomes one block of the same total size. *)
Lemma seg_retag m p l1 mid l2 S a' x :
  seg m p (l1 ++ mid ++ l2) -> mid <> [] -> S = total mid -> S + 1 < 2 ^ 32 ->
  x = p + total l1 ->
  seg (PUT_INT (PUT_INT m (x - 8) (tag S a')) (x + S - 4) (tag S a'))
      p (l1 ++ (S, a') :: l2).
Proof.
  intros H Hmid HS Hlt Ex.
  apply seg_app in H. destruct H as [H1 H2]. apply seg_app in H2. destruct H2 as [Hm H2].
  rewrite <- Ex in Hm, H2. rewrite <- HS in H2.
  assert (SZ : 16 <= S /\ S mod 8 = 0).
  { pose proof (seg_total_mod8 _ _ _ Hm). split; [|congruence].
    destruct mid as [|[s0 a0] r]; [contradiction|]. simpl in *.
    destruct Hm as ((? & ?) & _ & _ & Hr). pose proof (seg_total _ _ _ Hr). lia. }
  pose proof (tag_range S a' ltac:(lia) Hlt) as TR.
  apply seg_app. split.
  - eapply seg_ext; [exact H1|]. intros y t b Hin.
    pose proof (seg_in_strong _ _ _ _ _ _ H1 Hin) as (? & ? & ?).
    rewrite !GET_INT_PUT_INT_other by lia. auto.
  - rewrite <- Ex. simpl. split; [exact SZ|]. split; [|split].
    + rewrite GET_INT_PUT_INT_other by lia. apply GET_INT_PUT_INT_same. exact TR.
    + apply GET_INT_PUT_INT_same. exact TR.
    + eapply seg_ext; [exact H2|]. intros y t b Hin.
      pose proof (seg_in_strong _ _ _ _ _ _ H2 Hin) as (? & ? & ?).
      rewrite !GET_INT_PUT_INT_other by lia. auto.
Qed.

Lemma tiled_retag st l1 mid l2 S a' :
  tiled st (l1 ++ mid ++ l2) -> mid <> [] -> S = total mid ->
  let x := heap st + 8 + total l1 in
  tiled (set_mem st (PUT_INT (PUT_INT (mem st) (x - 8) (tag S a')) (x + S - 4) (tag S a')))
        (l1 ++ (S, a') :: l2).
Proof.
  intros Ht Hmid HS x. assert (Ex : x = heap st + 8 + total l1) by reflexivity. clearbody x.
  pose proof (tiled_total _ _ Ht) as TT.
  tiled_fields Ht. rewrite !total_app in *. rewrite <- HS in *.
  apply seg_app in Tseg as Hs. destruct Hs as [H1 H2]. apply seg_app in H2. destruct H2 as [Hm H2].
  pose proof (seg_total_16 _ _ _ H1). pose proof (seg_total_16 _ _ _ H2).
  assert (16 <= S).
  { destruct mid as [|[s0 a0] r]; [contradiction|]. simpl in *.
    destruct Hm as ((? & ?) & _ & _ & Hr). pose proof (seg_total _ _ _ Hr). lia. }
  constructor; cbn [heap mem mem_brk mem_max_addr set_mem]; try assumption.
  - rewrite total_app. simpl. lia.
  - rewrite !GET_INT_PUT_INT_other by lia. assumption.
  - rewrite !GET_INT_PUT_INT_other by lia. assumption.
  - apply seg_retag with (mid := mid); try assumption. lia.
  - rewrite !GET_INT_PUT_INT_other by lia. assumption.
Qed.

(** A free block is cut in two. *)
Lemma tiled_split st l1 s l2 a :
  tiled st (l1 ++ (s, false) :: l2) -> 16 <= a -> a + 16 <= s -> a mod 8 = 0 ->
  let x := heap st + 8 + total l1 in
  let m1 := PUT_INT (mem st) (x - 8) (tag a true) in
  let m2 := PUT_INT m1 (x + a - 4) (tag a true) in
  let m3 := PUT_INT m2 (x + a - 8) (tag (s - a) false) in
  let m4 := PUT_INT m3 (x + s - 4) (tag (s - a) false) in
  tiled (set_mem st m4) (l1 ++ (a, true) :: (s - a, false) :: l2).
Proof.
  intros Ht Ha1 Ha2 Ha8 x m1 m2 m3 m4.
  assert (Ex : x = heap st + 8 + total l1) by reflexivity. clearbody x.
  pose proof (tiled_total _ _ Ht) as TT.
  tiled_fields Ht. rewrite !total_app in *. cbn [total] in *.
  apply seg_app in Tseg as Hs. destruct Hs as [H1 H2]. cbn [seg] in H2.
  destruct H2 as ((Hs16 & Hs8) & Hh & Hf & H2). rewrite <- Ex in Hh, Hf, H2.
  pose proof (seg_total_16 _ _ _ H1). pose proof (seg_total_16 _ _ _ H2).
  pose proof (tag_range a true ltac:(lia) ltac:(lia)) as TR1.
  pose proof (tag_range (s - a) false ltac:(lia) ltac:(lia)) as TR2.
  assert (S8 : (s - a) mod 8 = 0).
  { rewrite Zminus_mod, Hs8, Ha8. reflexivity. }
  constructor; cbn [heap mem mem_brk mem_max_addr set_mem]; try assumption.
  - rewrite total_app. cbn [total]. lia.
  - unfold m4, m3, m2, m1. rewrite !GET_INT_PUT_INT_other by lia. assumption.
  - unfold m4, m3, m2, m1. rewrite !GET_INT_PUT_INT_other by lia. assumption.
  - apply seg_app. split.
    + eapply seg_ext; [exact H1|]. intros y t b Hin.
      pose proof (seg_in_strong _ _ _ _ _ _ H1 Hin) as (? & ? & ?).
      unfold m4, m3, m2, m1. rewrite !GET_INT_PUT_INT_other by lia. auto.
    + rewrite <- Ex. cbn [seg]. split; [lia|]. split; [|split; [|split; [|split; [|split]]]].
      * unfold m4, m3, m2. rewrite !GET_INT_PUT_INT_other by lia.
        apply GET_INT_PUT_INT_same. exact TR1.
      * unfold m4, m3. rewrite !GET_INT_PUT_INT_other by lia.
        apply GET_INT_PUT_INT_same. exact TR1.
      * split; [lia|exact S8].
      * unfold m4. rewrite !GET_INT_PUT_INT_other by lia.
        apply GET_INT_PUT_INT_same. exact TR2.
      * replace (x + a + (s - a) - 4) with (x + s - 4) by lia.
        apply GET_INT_PUT_INT_same. exact TR2.
      * replace (x + a + (s - a)) with (x + s) by lia.
        eapply seg_ext; [exact H2|]. intros y t b Hin.
        pose proof (seg_in_strong _ _ _ _ _ _ H2 Hin) as (? & ? & ?).
        unfold m4, m3, m2, m1. rewrite !GET_INT_PUT_INT_other by lia. auto.
  - unfold m4, m3, m2, m1. rewrite !GET_INT_PUT_INT_other by lia. assumption.
Qed.

(** The arena grows by one free block. *)
Lemma tiled_grow st bs size :
  tiled st bs -> 16 <= size -> size mod 8 = 0 ->
  mem_brk st + size <= mem_max_addr st ->
  let bp := mem_brk st in
  let m1 := PUT_INT (mem st) (bp - 8) (tag size false) in
  let m2 := PUT_INT m1 (bp + size - 4) (tag size false) in
  let m3 := PUT_INT m2 (bp + size - 8) (tag 0 true) in
  tiled (mkState m3 (heap st) (mem_brk st + size) (mem_max_addr st)) (bs ++ [(size, false)]).
Proof.
  intros Ht Hs Hs8 Hmax bp m1 m2 m3.
  assert (Ex : bp = mem_brk st) by reflexivity. clearbody bp.
  pose proof (tiled_total _ _ Ht) as TT.
  tiled_fields Ht. unfold FULL_HEAP in *. change ((NO_LISTS + 1) * WSIZE) with 96 in *.
  pose proof (tag_range size false ltac:(lia) ltac:(lia)) as TR1.
  pose proof (seg_total_16 _ _ _ Tseg) as T16.
  constructor; cbn [heap mem mem_brk mem_max_addr]; try assumption.
  - rewrite total_app. cbn [total]. lia.
  - unfold m3, m2, m1. rewrite !GET_INT_PUT_INT_other by lia. assumption.
  - unfold m3, m2, m1. rewrite !GET_INT_PUT_INT_other by lia. assumption.
  - apply seg_app. split.
    + eapply seg_ext; [exact Tseg|]. intros y t b Hin.
      pose proof (seg_in_strong _ _ _ _ _ _ Tseg Hin) as (? & ? & ?).
      unfold m3, m2, m1. rewrite !GET_INT_PUT_INT_other by lia. auto.
    + replace (heap st + 8 + total bs) with bp by lia. cbn [seg].
      split; [auto|]. split; [|split; [|exact I]].
      * unfold m3, m2. rewrite !GET_INT_PUT_INT_other by lia.
        apply GET_INT_PUT_INT_same. exact TR1.
      * unfold m3. rewrite !GET_INT_PUT_INT_other by lia.
        apply GET_INT_PUT_INT_same. exact TR1.
  - unfold m3. rewrite <- Ex. replace (bp + size - 8) with (bp + size - 8) by lia.
    apply GET_INT_PUT_INT_same. unfold tag. simpl. lia.
Qed.

End Frames.

Import Frames.

Module Steps.

Lemma heap_frame_refl h L T m : heap_frame h L T m m.
Proof. intros a _ _ _. reflexivity. Qed.

Lemma heap_frame_trans h L T m1 m2 m3 :
  heap_frame h L T m1 m2 -> heap_frame h L T m2 m3 -> heap_frame h L T m1 m3.
Proof. intros H1 H2 a Hs Hl Ht. rewrite H2, H1 by assumption. reflexivity. Qed.

Lemma heap_frame_weaken h (L L' T T' : Z -> Prop) m m' :
  (forall d, L d -> L' d) -> (forall c, T c -> T' c) ->
  heap_frame h L T m m' -> heap_frame h L' T' m m'.
Proof. intros HL HT H a Hs Hl Ht. apply H; auto. Qed.

Lemma heap_frame_tag h L (T : Z -> Prop) m c v :
  T c -> heap_frame h L T m (PUT_INT m c v).
Proof.
  intros Tc a _ _ Ht. unfold PUT_INT. apply store32_out. exact (Ht c Tc).
Qed.

(** *** Membership across a change in the middle of the list *)

Lemma blk_app h l1 mid l2 y sy a :
  blk h (l1 ++ mid ++ l2) y sy a <->
  In (y, sy, a) (starts (h + 8) l1)
  \/ In (y, sy, a) (starts (h + 8 + total l1) mid)
  \/ In (y, sy, a) (starts (h + 8 + total l1 + total mid) l2).
Proof.
  unfold blk. rewrite !starts_app, !in_app_iff. tauto.
Qed.

Lemma free_at_mid h l1 s l2 y :
  free_at h (l1 ++ (s, false) :: l2) y <->
  outside h l1 s l2 y \/ y = h + 8 + total l1.
Proof.
  unfold free_at, outside.
  change (l1 ++ (s, false) :: l2) with (l1 ++ [(s, false)] ++ l2).
  split.
  - intros (sy & H). apply blk_app in H. cbn [total starts In] in H.
    rewrite Z.add_0_r in H. destruct H as [H | [[E | []] | H]].
    + left. exists sy. auto.
    + right. congruence.
    + left. exists sy. auto.
  - intros [(sy & H) | ->].
    + exists sy. apply blk_app. cbn [total]. rewrite Z.add_0_r. tauto.
    + exists s. apply blk_app. right. left. simpl. auto.
Qed.

Lemma free_at_mid_alloc h l1 s l2 y :
  free_at h (l1 ++ (s, true) :: l2) y <-> outside h l1 s l2 y.
Proof.
  unfold free_at, outside.
  change (l1 ++ (s, true) :: l2) with (l1 ++ [(s, true)] ++ l2).
  split.
  - intros (sy & H). apply blk_app in H. cbn [total starts In] in H.
    rewrite Z.add_0_r in H. destruct H as [H | [[E | []] | H]].
    + exists sy. auto.
    + discriminate E.
    + exists sy. auto.
  - intros (sy & H). exists sy. apply blk_app. cbn [total]. rewrite Z.add_0_r. tauto.
Qed.

Lemma outside_right h l1 s t l2 y :
  outside h l1 s ((t, false) :: l2) y <->
  outside h l1 (s + t) l2 y \/ y = h + 8 + total l1 + s.
Proof.
  unfold outside. cbn [starts In].
  replace (h + 8 + total l1 + s + t) with (h + 8 + total l1 + (s + t)) by lia.
  split.
  - intros (sy & [H | [E | H]]).
    + left. exists sy. auto.
    + right. congruence.
    + left. exists sy. auto.
  - intros [(sy & [H | H]) | ->].
    + exists sy. auto.
    + exists sy. auto.
    + exists t. auto.
Qed.

Lemma outside_left h l1 t s l2 y :
  outside h (l1 ++ [(t, false)]) s l2 y <->
  outside h l1 (t + s) l2 y \/ y = h + 8 + total l1.
Proof.
  unfold outside. rewrite starts_app, total_app. cbn [starts total In].
  replace (h + 8 + (total l1 + (t + 0)) + s) with (h + 8 + total l1 + (t + s)) by lia.
  split.
  - intros (sy & [H | H]).
    + apply in_app_iff in H. cbn [In] in H. destruct H as [H | [E | []]].
      * left. exists sy. auto.
      * right. congruence.
    + left. exists sy. auto.
  - intros [(sy & [H | H]) | ->].
    + exists sy. left. apply in_app_iff. auto.
    + exists sy. auto.
    + exists t. left. apply in_app_iff. right. simpl. auto.
Qed.

(** Blocks outside the run are blocks of the list, whatever the run is. *)
Lemma outside_any h l1 mid l2 y :
  outside h l1 (total mid) l2 y -> free_at h (l1 ++ mid ++ l2) y.
Proof.
  intros (sy & H). exists sy. apply blk_app. tauto.
Qed.

(** Where they lie, relative to the run. *)
Lemma outside_pos m h l1 mid l2 y :
  seg m (h + 8) (l1 ++ mid ++ l2) -> outside h l1 (total mid) l2 y ->
  let x := h + 8 + total l1 in
  y + 16 <= x \/ y = x + total mid \/ x + total mid + 16 <= y.
Proof.
  intros Hs (sy & H) x. apply seg_app in Hs. destruct Hs as [H1 H2].
  apply seg_app in H2. destruct H2 as [Hm H2]. destruct H as [H | H].
  - pose proof (seg_in_strong _ _ _ _ _ _ H1 H). subst x. lia.
  - pose proof (seg_in_strong _ _ _ _ _ _ H2 H). subst x. lia.
Qed.

(** *** The three kinds of step *)

Section Step.
Variables (st : state) (bs : list block) (F : Z -> Prop).
Hypothesis Ht : tiled st bs.
Hypothesis Hok : lists_ok (mem st) (heap st) F.
Hypothesis HF : forall y, F y -> free_at (heap st) bs y.

Lemma HFG_any : forall y, F y -> any_at (heap st) bs y.
Proof. intros y Fy. apply free_any. auto. Qed.

Lemma step_remove z :
  F z ->
  let st1 := remove_from_list st z in
  tiled st1 bs
  /\ lists_ok (mem st1) (heap st) (fun y => F y /\ y <> z)
  /\ heap st1 = heap st /\ mem_brk st1 = mem_brk st /\ mem_max_addr st1 = mem_max_addr st
  /\ heap_frame (heap st) (fun y => F y /\ y <> z) no_tags (mem st) (mem st1).
Proof.
  intros Fz st1. pose proof (tiled_geom _ _ Ht) as Hg.
  destruct (remove_state st z) as (Eh & Eb & Em).
  assert (Fr : heap_frame (heap st) (fun y => F y /\ y <> z) no_tags (mem st) (mem st1)).
  { intros a Hs Hl _.
    apply (remove_frame _ _ _ F Hg HFG_any st eq_refl Hok z Fz); [assumption| |].
    - intros [HP Hr].
      destruct (remove_P _ _ _ F Hg HFG_any st Hok z Fz HP) as (FP & _ & HPz & _).
      exact (Hl _ (conj FP HPz) Hr).
    - intros [HN Hr].
      destruct (remove_N _ _ _ F Hg HFG_any st Hok z Fz HN) as (FN & _ & _ & HNz & _).
      exact (Hl _ (conj FN HNz) Hr). }
  split; [|split; [|repeat apply conj; assumption]].
  - apply (tiled_link_frame st st1 bs Ht Eh Eb Em).
    intros a Hs Hl. apply Fr; [assumption| |intros c []].
    intros d [Fd _]. apply Hl. apply HFG_any. exact Fd.
  - apply (remove_lists_ok _ _ _ F Hg HFG_any st eq_refl Hok z Fz).
Qed.

Lemma step_insert z :
  any_at (heap st) bs z -> ~ F z ->
  let st1 := lifo_insert st z in
  tiled st1 bs
  /\ lists_ok (mem st1) (heap st) (fun y => F y \/ y = z)
  /\ heap st1 = heap st /\ mem_brk st1 = mem_brk st /\ mem_max_addr st1 = mem_max_addr st
  /\ heap_frame (heap st) (fun y => F y \/ y = z) no_tags (mem st) (mem st1).
Proof.
  intros Gz Fz st1. pose proof (tiled_geom _ _ Ht) as Hg.
  destruct (insert_state st z) as (Eh & Eb & Em).
  assert (Fr : heap_frame (heap st) (fun y => F y \/ y = z) no_tags (mem st) (mem st1)).
  { intros a Hs Hl _.
    apply (insert_frame _ _ _ F Hg HFG_any st eq_refl Hok z Gz Fz); [assumption| |].
    - apply Hl. right. reflexivity.
    - intros [HH Hr].
      destruct (insert_H _ _ _ F Hg HFG_any st Hok z Gz Fz HH) as (FH & _).
      exact (Hl _ (or_introl FH) Hr). }
  split; [|split; [|repeat apply conj; assumption]].
  - apply (tiled_link_frame st st1 bs Ht Eh Eb Em).
    intros a Hs Hl. apply Fr; [assumption| |intros c []].
    intros d [Fd | ->]; apply Hl; [apply HFG_any|]; assumption.
  - apply (insert_lists_ok _ _ _ F Hg HFG_any st eq_refl Hok z Gz Fz).
Qed.

End Step.

Lemma step_retag st l1 mid l2 F S a' :
  tiled st (l1 ++ mid ++ l2) -> mid <> [] -> S = total mid ->
  lists_ok (mem st) (heap st) F ->
  (forall y, F y -> outside (heap st) l1 S l2 y) ->
  let x := heap st + 8 + total l1 in
  let m' := PUT_INT (PUT_INT (mem st) (x - 8) (tag S a')) (x + S - 4) (tag S a') in
  tiled (set_mem st m') (l1 ++ (S, a') :: l2)
  /\ lists_ok m' (heap st) F.
Proof.
  intros Ht Hmid HS Hok HF x m'. split; [apply tiled_retag with (mid := mid); assumption|].
  assert (Ex : x = heap st + 8 + total l1) by reflexivity. clearbody x.
  pose proof (tiled_total _ _ Ht) as TT. tiled_fields Ht.
  rewrite !total_app in *. rewrite <- HS in *.
  apply seg_app in Tseg as Hs. destruct Hs as [H1 H2]. apply seg_app in H2. destruct H2 as [Hm H2].
  pose proof (seg_total_16 _ _ _ H1). pose proof (seg_total_16 _ _ _ H2).
  assert (16 <= S).
  { destruct mid as [|[s0 a0] r]; [contradiction|]. simpl in *.
    destruct Hm as ((? & ?) & _ & _ & Hr). pose proof (seg_total _ _ _ Hr). lia. }
  apply (lists_ok_ext (mem st) m' (heap st) F Hok).
  - intros i Hi. pose proof (slot_range (heap st) i Hi).
    unfold m'. rewrite !GET_PUT_INT_other by lia. reflexivity.
  - intros y Fy. specialize (HF y Fy). rewrite HS in HF.
    pose proof (outside_pos _ _ _ _ _ _ Tseg HF) as Py. cbv zeta in Py. rewrite <- HS, <- Ex in Py.
    unfold m', HDR, THIS, FULL_HDR, WSIZE.
    rewrite !GET_PUT_INT_other, !GET_INT_PUT_INT_other by lia. auto.
Qed.

End Steps.

Import Steps.

Module Reading.

Lemma split_last_free l t : split_last (l ++ [(t, false)]) = (l, t).
Proof. unfold split_last. rewrite rev_app_distr. simpl. rewrite rev_involutive. reflexivity. Qed.

Lemma split_last_alloc l t : split_last (l ++ [(t, true)]) = (l ++ [(t, true)], 0).
Proof. unfold split_last. rewrite rev_app_distr. reflexivity. Qed.

Lemma last_cases (l : list block) :
  l = [] \/ (exists l' t, l = l' ++ [(t, true)]) \/ (exists l' t, l = l' ++ [(t, false)]).
Proof.
  destruct (rev l) as [|[t [|]] r] eqn:E.
  - left. apply (f_equal (@rev block)) in E. rewrite rev_involutive in E. exact E.
  - right. left. exists (rev r), t.
    apply (f_equal (@rev block)) in E. rewrite rev_involutive in E. exact E.
  - right. right. exists (rev r), t.
    apply (f_equal (@rev block)) in E. rewrite rev_involutive in E. exact E.
Qed.

Section Read.
Variables (st : state) (l1 : list block) (s : Z) (a : bool) (l2 : list block).
Hypothesis Ht : tiled st (l1 ++ (s, a) :: l2).

Lemma read_blk : blk (heap st) (l1 ++ (s, a) :: l2) (heap st + 8 + total l1) s a.
Proof. apply in_starts_mid. Qed.

Lemma read_self :
  GET_SIZE (mem st) (HDR (heap st + 8 + total l1)) = s
  /\ GET_ALLOC (mem st) (HDR (heap st + 8 + total l1)) = Z.b2z a
  /\ NEXT_BLK (mem st) (heap st + 8 + total l1) = heap st + 8 + total l1 + s
  /\ FTR (mem st) (heap st + 8 + total l1) = heap st + 8 + total l1 + s - 4.
Proof.
  pose proof (tiled_size _ _ Ht _ _ _ read_blk) as E.
  pose proof (tiled_alloc _ _ Ht _ _ _ read_blk) as E'.
  unfold NEXT_BLK, FTR, PREV. fold (HDR (heap st + 8 + total l1)). rewrite E.
  unfold WSIZE. repeat apply conj; try assumption; lia.
Qed.

Lemma read_bounds :
  16 <= s /\ s mod 8 = 0 /\ 0 <= total l1 /\ 0 <= total l2
  /\ total l1 + s + total l2 + 96 <= 2 ^ 32.
Proof.
  pose proof (tiled_total _ _ Ht) as TT. rewrite total_app in TT. cbn [total] in TT.
  pose proof (t_seg _ _ Ht) as Sg. apply seg_app in Sg. destruct Sg as [S1 S2].
  cbn [seg] in S2. destruct S2 as ((? & ?) & _ & _ & S2).
  pose proof (seg_total _ _ _ S1). pose proof (seg_total _ _ _ S2). lia.
Qed.

Lemma read_next_blk t b l2' :
  l2 = (t, b) :: l2' ->
  GET_SIZE (mem st) (HDR (heap st + 8 + total l1 + s)) = t
  /\ GET_ALLOC (mem st) (HDR (heap st + 8 + total l1 + s)) = Z.b2z b
  /\ FTR (mem st) (heap st + 8 + total l1 + s) = heap st + 8 + total l1 + s + t - 4
  /\ 16 <= t.
Proof.
  intros E. subst l2.
  assert (B : blk (heap st) (l1 ++ (s, a) :: (t, b) :: l2') (heap st + 8 + total l1 + s) t b).
  { unfold blk. rewrite starts_app. apply in_or_app. right. simpl. auto. }
  pose proof (tiled_size _ _ Ht _ _ _ B) as E.
  pose proof (tiled_alloc _ _ Ht _ _ _ B) as E'.
  pose proof (tiled_blk _ _ Ht _ _ _ B) as Bb.
  unfold FTR, PREV. rewrite E. unfold WSIZE. repeat apply conj; try assumption; lia.
Qed.

Lemma read_next_epi :
  l2 = [] -> GET_ALLOC (mem st) (HDR (heap st + 8 + total l1 + s)) = 1.
Proof.
  intros E. subst l2. pose proof (t_epi _ _ Ht) as Ep. pose proof (t_brk _ _ Ht) as Eb.
  rewrite total_app in Eb. cbn [total] in Eb.
  unfold GET_ALLOC, HDR, THIS, FULL_HDR, WSIZE.
  replace (heap st + 8 + total l1 + s - 8) with (mem_brk st - 8) by lia.
  rewrite Ep. reflexivity.
Qed.

Lemma read_prev_blk l1' t b :
  l1 = l1' ++ [(t, b)] ->
  PREV_BLK (mem st) (heap st + 8 + total l1) = heap st + 8 + total l1'
  /\ heap st + 8 + total l1 = heap st + 8 + total l1' + t
  /\ GET_SIZE (mem st) (HDR (heap st + 8 + total l1')) = t
  /\ GET_ALLOC (mem st) (FTR (mem st) (heap st + 8 + total l1')) = Z.b2z b
  /\ 16 <= t.
Proof.
  intros E. subst l1. rewrite total_app. cbn [total]. rewrite Z.add_0_r.
  assert (B : blk (heap st) ((l1' ++ [(t, b)]) ++ (s, a) :: l2) (heap st + 8 + total l1') t b).
  { unfold blk. rewrite <- app_assoc. apply in_starts_mid. }
  pose proof (tiled_size _ _ Ht _ _ _ B) as E.
  pose proof (tiled_blk _ _ Ht _ _ _ B) as ((? & ? & ?) & Eh & Ef & _).
  assert (Es : GET_SIZE (mem st) (heap st + 8 + (total l1' + t) - 4) = t).
  { unfold GET_SIZE. replace (heap st + 8 + (total l1' + t) - 4)
      with (heap st + 8 + total l1' + t - 4) by lia. rewrite Ef. apply tag_size; lia. }
  unfold PREV_BLK, PREV, FULL_HDR, WSIZE.
  replace (heap st + 8 + (total l1' + t) - 8 + 4) with (heap st + 8 + (total l1' + t) - 4) by lia.
  rewrite Es. unfold FTR, PREV. rewrite E. unfold WSIZE, GET_ALLOC.
  replace (heap st + 8 + total l1' + t - 8 + 4) with (heap st + 8 + total l1' + t - 4) by lia.
  rewrite Ef. rewrite tag_alloc by assumption.
  repeat apply conj; try reflexivity; lia.
Qed.

Lemma read_prev_pro :
  l1 = [] ->
  GET_ALLOC (mem st) (FTR (mem st) (PREV_BLK (mem st) (heap st + 8 + total l1))) = 1.
Proof.
  intros E. subst l1. cbn [total]. rewrite Z.add_0_r.
  pose proof (t_pro_hdr _ _ Ht) as Eh. pose proof (t_pro_ftr _ _ Ht) as Ef.
  assert (Es : GET_SIZE (mem st) (heap st + 4) = 8).
  { unfold GET_SIZE. rewrite Ef. reflexivity. }
  unfold PREV_BLK, PREV, FULL_HDR, WSIZE.
  replace (heap st + 8 - 8 + 4) with (heap st + 4) by lia. rewrite Es.
  replace (heap st + 8 - 8) with (heap st) by lia.
  unfold FTR, PREV, HDR, THIS, FULL_HDR, WSIZE.
  assert (Es' : GET_SIZE (mem st) (heap st - 8) = 8).
  { unfold GET_SIZE. rewrite Eh. reflexivity. }
  rewrite Es'. replace (heap st + 8 - 8 + 4) with (heap st + 4) by lia.
  unfold GET_ALLOC. rewrite Ef. reflexivity.
Qed.

End Read.

(** What [coalesce] reads of the two neighbours. *)
Lemma read_prev_alloc st l1 s a l2 :
  tiled st (l1 ++ (s, a) :: l2) ->
  GET_ALLOC (mem st) (FTR (mem st) (PREV_BLK (mem st) (heap st + 8 + total l1)))
  = if snd (split_last l1) =? 0 then 1 else 0.
Proof.
  intros Ht. destruct (last_cases l1) as [E | [(l' & t & E) | (l' & t & E)]].
  - rewrite (read_prev_pro _ _ _ _ _ Ht) by assumption. subst l1. reflexivity.
  - destruct (read_prev_blk _ _ _ _ _ Ht _ _ _ E) as (E1 & _ & _ & E2 & _). rewrite E1, E2.
    subst l1. rewrite split_last_alloc. reflexivity.
  - destruct (read_prev_blk _ _ _ _ _ Ht _ _ _ E) as (E1 & _ & _ & E2 & ?). rewrite E1, E2.
    subst l1. rewrite split_last_free. cbn [snd].
    destruct (Z.eqb_spec t 0); [lia|reflexivity].
Qed.

Lemma read_next_alloc st l1 s a l2 :
  tiled st (l1 ++ (s, a) :: l2) ->
  GET_ALLOC (mem st) (HDR (NEXT_BLK (mem st) (heap st + 8 + total l1)))
  = if snd (split_first l2) =? 0 then 1 else 0.
Proof.
  intros Ht. destruct (read_self _ _ _ _ _ Ht) as (_ & _ & -> & _).
  destruct l2 as [|[t [|]] l2'].
  - rewrite (read_next_epi _ _ _ _ _ Ht) by reflexivity. reflexivity.
  - destruct (read_next_blk _ _ _ _ _ Ht t true l2' eq_refl) as (_ & -> & _). reflexivity.
  - destruct (read_next_blk _ _ _ _ _ Ht t false l2' eq_refl) as (_ & -> & _ & ?).
    cbn [split_first snd]. destruct (Z.eqb_spec t 0); [lia|reflexivity].
Qed.

Lemma split_last_spec l :
  (snd (split_last l) = 0 /\ fst (split_last l) = l)
  \/ (0 <> snd (split_last l) /\ l = fst (split_last l) ++ [(snd (split_last l), false)])
  \/ (exists l', l = l' ++ [(0, false)]).
Proof.
  destruct (last_cases l) as [E | [(l' & t & E) | (l' & t & E)]]; subst l.
  - left. auto.
  - left. rewrite split_last_alloc. auto.
  - rewrite split_last_free. cbn [fst snd].
    destruct (Z.eq_dec t 0) as [-> | Hne]; [right; right; eauto|right; left; auto].
Qed.

End Reading.

Import Reading.

Module Coalesce.

Lemma outside_far m h l1 S l2 y :
  seg m (h + 8) l1 -> seg m (h + 8 + total l1 + S) l2 -> outside h l1 S l2 y ->
  y + 16 <= h + 8 + total l1
  \/ y = h + 8 + total l1 + S \/ h + 8 + total l1 + S + 16 <= y.
Proof.
  intros H1 H2 (sy & [H | H]).
  - pose proof (seg_in_strong _ _ _ _ _ _ H1 H). lia.
  - pose proof (seg_in_strong _ _ _ _ _ _ H2 H). lia.
Qed.

Lemma tiled_parts st l1 s a l2 :
  tiled st (l1 ++ (s, a) :: l2) ->
  seg (mem st) (heap st + 8) l1 /\ seg (mem st) (heap st + 8 + total l1 + s) l2.
Proof.
  intros Ht. pose proof (t_seg _ _ Ht) as Sg. apply seg_app in Sg. destruct Sg as [S1 S2].
  cbn [seg] in S2. tauto.
Qed.

Lemma GET_SIZE_PUT_INT_other m d v y :
  y + 4 <= d \/ d + 4 <= y -> GET_SIZE (PUT_INT m d v) y = GET_SIZE m y.
Proof. intros H. unfold GET_SIZE. rewrite GET_INT_PUT_INT_other by exact H. reflexivity. Qed.

Lemma PACK_free s : 0 <= s -> s + 1 < 2 ^ 32 -> s mod 8 = 0 -> PACK s 0 = tag s false.
Proof. intros. apply (PACK_tag s false); assumption. Qed.

Lemma PACK_alloc s : 0 <= s -> s + 1 < 2 ^ 32 -> s mod 8 = 0 -> PACK s 1 = tag s true.
Proof. intros. apply (PACK_tag s true); assumption. Qed.

(** The footer address [coalesce] computes right after it wrote the header. *)
Lemma FTR_after_header m x S a :
  0 <= S -> S + 1 < 2 ^ 32 -> S mod 8 = 0 ->
  FTR (PUT_INT m (HDR x) (tag S a)) x = x + S - 4.
Proof.
  intros H0 H1 H8. unfold FTR, PREV, GET_SIZE.
  rewrite GET_INT_PUT_INT_same by (apply tag_range; lia).
  rewrite tag_size by assumption. unfold WSIZE. lia.
Qed.

Section Cases.
Variables (st : state) (l1 : list block) (s : Z) (l2 : list block).
Hypothesis Ht : tiled st (l1 ++ (s, false) :: l2).
Hypothesis Hok : lists_ok (mem st) (heap st) (outside (heap st) l1 s l2).

Definition post (r : Z * state) (bs' : list block) (ret : Z) : Prop :=
  fst r = ret /\ Inv (snd r) bs'
  /\ heap (snd r) = heap st /\ mem_brk (snd r) = mem_brk st
  /\ mem_max_addr (snd r) = mem_max_addr st
  /\ heap_frame (heap st) (free_at (heap st) (l1 ++ (s, false) :: l2))
       (tags_of (heap st) (l1 ++ (s, false) :: l2)) (mem st) (mem (snd r)).

Lemma out_free y : outside (heap st) l1 s l2 y -> free_at (heap st) (l1 ++ (s, false) :: l2) y.
Proof. intros H. apply free_at_mid. left. exact H. Qed.

Lemma out_not_bp : ~ outside (heap st) l1 s l2 (heap st + 8 + total l1).
Proof.
  intros H. destruct (tiled_parts _ _ _ _ _ Ht) as [S1 S2].
  pose proof (outside_far _ _ _ _ _ _ S1 S2 H).
  destruct (read_bounds _ _ _ _ _ Ht) as (? & _). lia.
Qed.

Lemma coal_1 :
  GET_ALLOC (mem st) (FTR (mem st) (PREV_BLK (mem st) (heap st + 8 + total l1))) = 1 ->
  GET_ALLOC (mem st) (HDR (NEXT_BLK (mem st) (heap st + 8 + total l1))) = 1 ->
  post (coalesce st (heap st + 8 + total l1)) (l1 ++ (s, false) :: l2)
       (heap st + 8 + total l1).
Proof.
  intros PA NA. unfold coalesce. rewrite PA, NA.
  change (1 =? 0) with false. cbn [negb andb fst snd].
  destruct (step_insert st _ _ Ht Hok out_free (heap st + 8 + total l1))
    as (T' & L' & Eh & Eb & Em & Fr).
  - exists s, false. apply read_blk.
  - apply out_not_bp.
  - unfold post. cbn [fst snd]. split; [reflexivity|]. split; [|repeat apply conj; try assumption].
    + split; [exact T'|]. rewrite Eh.
      eapply lists_ok_iff; [|exact L']. intros y. cbv beta. rewrite free_at_mid. tauto.
    + eapply heap_frame_weaken; [| |exact Fr].
      * intros d Hd. cbv beta in Hd. apply free_at_mid. tauto.
      * intros c [].
Qed.

Lemma coal_2 t2 l2' :
  GET_ALLOC (mem st) (FTR (mem st) (PREV_BLK (mem st) (heap st + 8 + total l1))) = 1 ->
  l2 = (t2, false) :: l2' ->
  post (coalesce st (heap st + 8 + total l1)) (l1 ++ (s + t2, false) :: l2')
       (heap st + 8 + total l1).
Proof.
  intros PA E2. set (bp := heap st + 8 + total l1).
  assert (Ebp : bp = heap st + 8 + total l1) by reflexivity. clearbody bp.
  rewrite <- Ebp in PA.
  pose proof (read_next_alloc _ _ _ _ _ Ht) as NA. rewrite <- Ebp in NA.
  destruct (read_self _ _ _ _ _ Ht) as (Es & _ & En & _). rewrite <- Ebp in Es, En.
  destruct (read_bounds _ _ _ _ _ Ht) as (Hs16 & Hs8 & Ht1 & Ht2 & Htot).
  destruct (read_next_blk _ _ _ _ _ Ht _ _ _ E2) as (_ & _ & _ & H16).
  assert (NA0 : GET_ALLOC (mem st) (HDR (NEXT_BLK (mem st) bp)) = 0).
  { rewrite NA, E2. cbn [split_first snd]. destruct (Z.eqb_spec t2 0); [lia|reflexivity]. }
  unfold coalesce. rewrite PA, NA0, Es, En.
  change (1 =? 0) with false. change (0 =? 0) with true. cbn [negb andb].
  (* removing the successor *)
  assert (Fnx : outside (heap st) l1 s l2 (bp + s)).
  { rewrite E2. apply outside_right. right. lia. }
  destruct (step_remove st _ _ Ht Hok out_free (bp + s) Fnx)
    as (T1 & L1 & Eh1 & Eb1 & Em1 & Fr1).
  set (st1 := remove_from_list st (bp + s)) in *.
  assert (Ht1' : tiled st1 (l1 ++ (s, false) :: (t2, false) :: l2')) by (rewrite <- E2; exact T1).
  destruct (read_self _ _ _ _ _ Ht1') as (_ & _ & En1 & _).
  destruct (read_next_blk _ _ _ _ _ Ht1' _ _ _ eq_refl) as (Et1 & _ & _ & _).
  rewrite Eh1, <- Ebp in En1, Et1. rewrite En1, Et1.
  rewrite E2 in Htot, Ht2, L1, Fr1. cbn [total] in Htot, Ht2.
  assert (S8 : (s + t2) mod 8 = 0 /\ 0 <= total l2').
  { pose proof (t_seg _ _ Ht1') as Sg. apply seg_app in Sg. destruct Sg as [_ Sg].
    cbn [seg] in Sg. destruct Sg as (_ & _ & _ & (_ & H8) & _ & _ & Sg).
    pose proof (seg_total _ _ _ Sg).
    rewrite Z.add_mod, Hs8, H8 by lia. split; [reflexivity|assumption]. }
  destruct S8 as [S8 Hl2'].
  assert (ES : u32 (s + t2) = s + t2) by (unfold u32; apply Z.mod_small; lia).
  rewrite ES, PACK_free by lia.
  rewrite FTR_after_header by lia.
  (* the tags *)
  destruct (step_retag st1 l1 [(s, false); (t2, false)] l2'
              (fun y => outside (heap st) l1 s ((t2, false) :: l2') y /\ y <> bp + s)
              (s + t2) false)
    as (T3 & L3).
  { exact Ht1'. } { discriminate. } { cbn [total]. lia. } { rewrite Eh1. exact L1. }
  { intros y [Hy Hne]. rewrite Eh1. apply outside_right in Hy. destruct Hy; [assumption|lia]. }
  cbv zeta in T3, L3. rewrite Eh1, <- Ebp in T3, L3.
  unfold HDR, THIS, FULL_HDR, WSIZE.
  set (m3 := PUT_INT (PUT_INT (mem st1) (bp - 8) (tag (s + t2) false)) (bp + (s + t2) - 4)
                     (tag (s + t2) false)) in *.
  (* the merged block goes on its list *)
  destruct (tiled_parts _ _ _ _ _ T3) as [S1 S2]. cbn [heap mem set_mem] in S1, S2.
  rewrite Eh1 in S1, S2.
  assert (Fsub : forall y, outside (heap st) l1 s ((t2, false) :: l2') y /\ y <> bp + s
                           <-> outside (heap st) l1 (s + t2) l2' y).
  { intros y. rewrite outside_right. split; [intros [[H | H] Hne]; [assumption|lia]|].
    intros H. split; [left; assumption|].
    pose proof (outside_far _ _ _ _ _ _ S1 S2 H). lia. }
  destruct (step_insert (set_mem st1 m3) (l1 ++ (s + t2, false) :: l2')
              (fun y => outside (heap st) l1 s ((t2, false) :: l2') y /\ y <> bp + s) T3)
    with (z := bp) as (T' & L' & Eh & Eb & Em & Fr).
  { cbn [heap mem set_mem]. rewrite Eh1. exact L3. }
  { intros y Hy. cbn [heap set_mem]. rewrite Eh1. apply free_at_mid. left. apply Fsub. exact Hy. }
  { cbn [heap set_mem]. rewrite Eh1, Ebp. exists (s + t2), false. apply in_starts_mid. }
  { intros Hy. apply Fsub in Hy. pose proof (outside_far _ _ _ _ _ _ S1 S2 Hy). lia. }
  cbn [heap mem mem_brk mem_max_addr set_mem] in *.
  unfold post. cbn [fst snd]. split; [reflexivity|].
  split; [|repeat apply conj; try congruence].
  - split; [exact T'|]. rewrite Eh, Eh1.
    eapply lists_ok_iff; [|rewrite Eh1 in L'; exact L']. intros y. cbv beta.
    rewrite free_at_mid, Fsub. rewrite Ebp. tauto.
  - rewrite Eh1 in Fr.
    eapply heap_frame_trans; [|eapply heap_frame_weaken; [| |exact Fr]].
    + eapply heap_frame_trans; [eapply heap_frame_weaken; [| |exact Fr1]|].
      * intros d [Hd _]. apply out_free. rewrite E2. exact Hd.
      * intros c [].
      * unfold m3. eapply heap_frame_trans; apply heap_frame_tag.
        -- exists bp, s, false. split; [rewrite Ebp; apply read_blk|left; reflexivity].
        -- exists (bp + s), t2, false. split; [|right; lia].
           rewrite E2. unfold blk. rewrite starts_app. apply in_or_app. right. simpl.
           rewrite Ebp. auto.
    + intros d [[Hd _] | ->]; [apply out_free; rewrite E2; assumption|].
      apply free_at_mid. right. exact Ebp.
    + intros c [].
Qed.

Lemma coal_3 l1' t1 :
  l1 = l1' ++ [(t1, false)] ->
  GET_ALLOC (mem st) (HDR (NEXT_BLK (mem st) (heap st + 8 + total l1))) = 1 ->
  post (coalesce st (heap st + 8 + total l1)) (l1' ++ (t1 + s, false) :: l2)
       (heap st + 8 + total l1').
Proof.
  intros E1 NA. set (bp := heap st + 8 + total l1).
  assert (Ebp : bp = heap st + 8 + total l1) by reflexivity. clearbody bp.
  rewrite <- Ebp in NA.
  set (q := heap st + 8 + total l1').
  assert (Eq : q = heap st + 8 + total l1') by reflexivity. clearbody q.
  destruct (read_self _ _ _ _ _ Ht) as (Es & _ & En & Ef). rewrite <- Ebp in Es, En, Ef.
  destruct (read_bounds _ _ _ _ _ Ht) as (Hs16 & Hs8 & Ht1 & Ht2 & Htot).
  destruct (read_prev_blk _ _ _ _ _ Ht _ _ _ E1) as (Ep & Ebq & Eqs & Eqa & H16).
  rewrite <- Eq in Ep, Ebq, Eqs, Eqa. rewrite <- Ebp in Ep, Ebq.
  unfold coalesce. rewrite Ep, Eqa, NA, Es.
  change (1 =? 0) with false. change (Z.b2z false =? 0) with true. cbn [negb andb].
  assert (Ht' : tiled st (l1' ++ (t1, false) :: (s, false) :: l2)).
  { pose proof Ht as X. rewrite E1, <- app_assoc in X. exact X. }
  destruct (tiled_parts _ _ _ _ _ Ht') as [S1' _].
  pose proof (seg_total _ _ _ S1') as Hl1'.
  assert (Etot : total l1 = total l1' + t1).
  { rewrite E1, total_app. cbn [total]. lia. }
  (* removing the predecessor *)
  assert (Fq : outside (heap st) l1 s l2 q).
  { rewrite E1. apply outside_left. right. exact Eq. }
  destruct (step_remove st _ _ Ht Hok out_free q Fq) as (T1 & L1 & Eh1 & Eb1 & Em1 & Fr1).
  set (st1 := remove_from_list st q) in *.
  destruct (read_prev_blk _ _ _ _ _ T1 _ _ _ E1) as (Ep1 & _ & Eqs1 & _).
  destruct (read_self _ _ _ _ _ T1) as (Es1 & _ & _ & _).
  rewrite Eh1 in Ep1, Eqs1, Es1. rewrite <- Eq in Ep1, Eqs1. rewrite <- Ebp in Ep1, Es1.
  rewrite Ep1, Eqs1.
  assert (S8 : (t1 + s) mod 8 = 0).
  { pose proof (t_seg _ _ Ht') as Sg. apply seg_app in Sg. destruct Sg as [_ Sg].
    cbn [seg] in Sg. destruct Sg as ((_ & H8) & _).
    rewrite Z.add_mod, Hs8, H8 by lia. reflexivity. }
  assert (ES : u32 (s + t1) = t1 + s) by (unfold u32; rewrite Z.mod_small; lia).
  rewrite ES, PACK_free by lia.
  assert (Ef2 : FTR (PUT_INT (mem st1) (HDR q) (tag (t1 + s) false)) bp = q + (t1 + s) - 4).
  { unfold FTR, PREV, GET_SIZE. unfold HDR, THIS, FULL_HDR, WSIZE.
    rewrite GET_INT_PUT_INT_other by lia.
    unfold GET_SIZE, HDR, THIS, FULL_HDR, WSIZE in Es1. rewrite Es1. lia. }
  rewrite Ef2.
  (* the tags *)
  assert (T1' : tiled st1 (l1' ++ [(t1, false); (s, false)] ++ l2)).
  { pose proof T1 as X. rewrite E1, <- app_assoc in X. exact X. }
  rewrite E1 in L1, Fr1.
  destruct (step_retag st1 l1' [(t1, false); (s, false)] l2
              (fun y => outside (heap st) (l1' ++ [(t1, false)]) s l2 y /\ y <> q)
              (t1 + s) false T1')
    as (T3 & L3).
  { discriminate. } { cbn [total]. lia. } { rewrite Eh1. exact L1. }
  { intros y [Hy Hne]. rewrite Eh1. apply outside_left in Hy. destruct Hy; [assumption|lia]. }
  cbv zeta in T3, L3. rewrite Eh1, <- Eq in T3, L3.
  unfold HDR, THIS, FULL_HDR, WSIZE.
  set (m3 := PUT_INT (PUT_INT (mem st1) (q - 8) (tag (t1 + s) false)) (q + (t1 + s) - 4)
                     (tag (t1 + s) false)) in *.
  assert (Ep3 : PREV_BLK m3 bp = q).
  { unfold PREV_BLK, PREV, FULL_HDR, WSIZE, GET_SIZE, m3.
    rewrite !GET_INT_PUT_INT_other by lia.
    unfold PREV_BLK, PREV, FULL_HDR, WSIZE, GET_SIZE in Ep1. exact Ep1. }
  rewrite Ep3.
  (* the merged block goes on its list *)
  destruct (tiled_parts _ _ _ _ _ T3) as [S1 S2]. cbn [heap mem set_mem] in S1, S2.
  rewrite Eh1 in S1, S2.
  assert (Fsub : forall y, outside (heap st) (l1' ++ [(t1, false)]) s l2 y /\ y <> q
                           <-> outside (heap st) l1' (t1 + s) l2 y).
  { intros y. rewrite outside_left. split; [intros [[H | H] Hne]; [assumption|lia]|].
    intros H. split; [left; assumption|].
    pose proof (outside_far _ _ _ _ _ _ S1 S2 H). lia. }
  destruct (step_insert (set_mem st1 m3) (l1' ++ (t1 + s, false) :: l2)
              (fun y => outside (heap st) (l1' ++ [(t1, false)]) s l2 y /\ y <> q) T3)
    with (z := q) as (T' & L' & Eh & Eb & Em & Fr).
  { cbn [heap mem set_mem]. rewrite Eh1. exact L3. }
  { intros y Hy. cbn [heap set_mem]. rewrite Eh1. apply free_at_mid. left. apply Fsub. exact Hy. }
  { cbn [heap set_mem]. rewrite Eh1, Eq. exists (t1 + s), false. apply in_starts_mid. }
  { intros Hy. apply Fsub in Hy. pose proof (outside_far _ _ _ _ _ _ S1 S2 Hy). lia. }
  cbn [heap mem mem_brk mem_max_addr set_mem] in *. rewrite Eh1 in Fr.
  set (st3 := lifo_insert (set_mem st1 m3) q) in *.
  assert (Ep4 : PREV_BLK (mem st3) bp = q).
  { rewrite <- Ep3. unfold PREV_BLK, PREV, FULL_HDR, WSIZE, GET_SIZE. f_equal. f_equal.
    apply load32_ext. intros b Hb. apply Fr.
    - unfold in_slots, FULL_HEAP. change ((NO_LISTS + 1) * WSIZE) with 96.
      change (NO_LISTS * WSIZE) with 88. lia.
    - intros d [Hd | ->]; [|lia].
      apply Fsub in Hd. pose proof (outside_far _ _ _ _ _ _ S1 S2 Hd). lia.
    - intros c []. }
  unfold post. cbn [fst snd]. split; [exact Ep4|].
  split; [|repeat apply conj; try congruence].
  - split; [exact T'|]. rewrite Eh, Eh1.
    eapply lists_ok_iff; [|rewrite Eh1 in L'; exact L']. intros y. cbv beta.
    rewrite free_at_mid, Fsub. rewrite Eq. tauto.
  - eapply heap_frame_trans; [|eapply heap_frame_weaken; [| |exact Fr]].
    + eapply heap_frame_trans; [eapply heap_frame_weaken; [| |exact Fr1]|].
      * intros d [Hd _]. apply out_free. rewrite E1. exact Hd.
      * intros c [].
      * unfold m3. eapply heap_frame_trans; apply heap_frame_tag.
        -- exists q, t1, false. split; [|left; reflexivity].
           rewrite E1, <- app_assoc, Eq. apply in_starts_mid.
        -- exists bp, s, false. split; [rewrite Ebp; apply read_blk|right; lia].
    + intros d [[Hd _] | ->]; [apply out_free; rewrite E1; assumption|].
      apply out_free. exact Fq.
    + intros c [].
Qed.

Lemma coal_4 l1' t1 t2 l2' :
  l1 = l1' ++ [(t1, false)] -> l2 = (t2, false) :: l2' ->
  post (coalesce st (heap st + 8 + total l1)) (l1' ++ (t1 + s + t2, false) :: l2')
       (heap st + 8 + total l1').
Proof.
  intros E1 E2. set (bp := heap st + 8 + total l1).
  assert (Ebp : bp = heap st + 8 + total l1) by reflexivity. clearbody bp.
  set (q := heap st + 8 + total l1').
  assert (Eq : q = heap st + 8 + total l1') by reflexivity. clearbody q.
  pose proof (read_next_alloc _ _ _ _ _ Ht) as NA. rewrite <- Ebp in NA.
  destruct (read_self _ _ _ _ _ Ht) as (Es & _ & En & Ef). rewrite <- Ebp in Es, En, Ef.
  destruct (read_bounds _ _ _ _ _ Ht) as (Hs16 & Hs8 & Ht1 & Ht2 & Htot).
  destruct (read_prev_blk _ _ _ _ _ Ht _ _ _ E1) as (Ep & Ebq & Eqs & Eqa & H16).
  rewrite <- Eq in Ep, Ebq, Eqs, Eqa. rewrite <- Ebp in Ep, Ebq.
  destruct (read_next_blk _ _ _ _ _ Ht _ _ _ E2) as (_ & _ & _ & H16').
  assert (NA0 : GET_ALLOC (mem st) (HDR (NEXT_BLK (mem st) bp)) = 0).
  { rewrite NA, E2. cbn [split_first snd]. destruct (Z.eqb_spec t2 0); [lia|reflexivity]. }
  unfold coalesce. rewrite Ep, Eqa, NA0, Es.
  change (Z.b2z false =? 0) with true. change (0 =? 0) with true. cbn [negb andb].
  assert (Etot : total l1 = total l1' + t1).
  { rewrite E1, total_app. cbn [total]. lia. }
  (* removing the predecessor *)
  assert (Fq : outside (heap st) l1 s l2 q).
  { rewrite E1. apply outside_left. right. exact Eq. }
  destruct (step_remove st _ _ Ht Hok out_free q Fq) as (T1 & L1 & Eh1 & Eb1 & Em1 & Fr1).
  set (st1 := remove_from_list st q) in *. clearbody st1.
  destruct (read_self _ _ _ _ _ T1) as (_ & _ & En1 & _).
  rewrite Eh1, <- Ebp in En1. rewrite En1.
  (* removing the successor *)
  assert (Fnx : outside (heap st) l1 s l2 (bp + s) /\ bp + s <> q).
  { split; [|lia]. rewrite E2. apply outside_right. right. lia. }
  destruct (step_remove st1 _ _ T1 ltac:(rewrite Eh1; exact L1)
              ltac:(rewrite Eh1; intros y [Hy _]; exact (out_free y Hy)) (bp + s) Fnx)
    as (T2 & L2 & Eh2 & Eb2 & Em2 & Fr2).
  set (st2 := remove_from_list st1 (bp + s)) in *. clearbody st2. rewrite Eh1 in L2, Fr2.
  assert (T2' : tiled st2 (l1' ++ [(t1, false); (s, false); (t2, false)] ++ l2')).
  { pose proof T2 as X. rewrite E1, E2, <- app_assoc in X. exact X. }
  destruct (read_prev_blk _ _ _ _ _ T2 _ _ _ E1) as (Ep2 & _ & Eqs2 & _).
  destruct (read_self _ _ _ _ _ T2) as (Es2 & _ & En2 & _).
  destruct (read_next_blk _ _ _ _ _ T2 _ _ _ E2) as (Et2 & _ & Ef2 & _).
  rewrite Eh2, Eh1 in Ep2, Eqs2, Es2, En2, Et2, Ef2.
  rewrite <- Eq in Ep2, Eqs2. rewrite <- Ebp in Ep2, Es2, En2, Et2, Ef2.
  assert (Bnx : blk (heap st2) (l1 ++ (s, false) :: l2) (bp + s) t2 false).
  { rewrite E2. unfold blk. rewrite starts_app. apply in_or_app. right.
    rewrite Eh2, Eh1, <- Ebp. cbn [starts In]. right. left. reflexivity. }
  pose proof (tiled_blk _ _ T2 _ _ _ Bnx) as ((Ht16 & H8' & Htb) & _ & Eft & _).
  assert (Eft' : GET_SIZE (mem st2) (bp + s + t2 - 4) = t2).
  { unfold GET_SIZE. rewrite Eft. apply tag_size; lia. }
  rewrite Ep2, Eqs2, En2, Ef2, Eft'.
  destruct (tiled_parts _ _ _ _ _ T2) as [_ S2']. rewrite E2 in S2'. cbn [seg] in S2'.
  destruct S2' as (_ & _ & _ & S2'). pose proof (seg_total _ _ _ S2') as Hl2'.
  rewrite E2 in Htot, Ht2. cbn [total] in Htot, Ht2.
  destruct (tiled_parts _ _ _ _ _ T2') as [S1' _].
  pose proof (seg_total _ _ _ S1') as Hl1'.
  assert (S8 : (t1 + s + t2) mod 8 = 0).
  { pose proof (t_seg _ _ T2') as Sg. apply seg_app in Sg. destruct Sg as [_ Sg].
    cbn [app seg] in Sg. destruct Sg as ((_ & H8) & _).
    rewrite Z.add_mod, (Z.add_mod t1 s), Hs8, H8, H8' by lia. reflexivity. }
  assert (ES : u32 (s + (t1 + t2)) = t1 + s + t2) by (unfold u32; rewrite Z.mod_small; lia).
  rewrite ES, PACK_free by lia.
  assert (Ef3 : FTR (PUT_INT (mem st2) (HDR q) (tag (t1 + s + t2) false))
                    (NEXT_BLK (PUT_INT (mem st2) (HDR q) (tag (t1 + s + t2) false)) bp)
                = q + (t1 + s + t2) - 4).
  { assert (X : NEXT_BLK (PUT_INT (mem st2) (HDR q) (tag (t1 + s + t2) false)) bp = bp + s).
    { unfold NEXT_BLK. change (THIS (FULL_HDR bp)) with (HDR bp).
      rewrite GET_SIZE_PUT_INT_other by (unfold HDR, THIS, FULL_HDR, WSIZE; lia).
      rewrite Es2. reflexivity. }
    rewrite X. unfold FTR.
    rewrite GET_SIZE_PUT_INT_other by (unfold HDR, THIS, FULL_HDR, WSIZE; lia).
    rewrite Et2. unfold PREV, WSIZE. lia. }
  rewrite Ef3.
  (* the tags *)
  rewrite E1, E2 in L2, Fr2.
  set (F2 := fun y => (outside (heap st) (l1' ++ [(t1, false)]) s ((t2, false) :: l2') y
                       /\ y <> q) /\ y <> bp + s) in *.
  assert (Fsub0 : forall y, F2 y -> outside (heap st) l1' (t1 + s + t2) l2' y).
  { intros y [[Hy Hq] Hn]. apply outside_left in Hy. destruct Hy as [Hy | Hy]; [|lia].
    apply outside_right in Hy. destruct Hy as [Hy | Hy]; [|lia].
    replace (t1 + s + t2) with (t1 + s + t2) by lia. exact Hy. }
  destruct (step_retag st2 l1' [(t1, false); (s, false); (t2, false)] l2' F2
              (t1 + s + t2) false T2')
    as (T3 & L3).
  { discriminate. } { cbn [total]. lia. } { rewrite Eh2, Eh1. exact L2. }
  { intros y Hy. rewrite Eh2, Eh1. apply Fsub0. exact Hy. }
  cbv zeta in T3, L3. rewrite Eh2, Eh1, <- Eq in T3, L3.
  unfold HDR, THIS, FULL_HDR, WSIZE.
  set (m4 := PUT_INT (PUT_INT (mem st2) (q - 8) (tag (t1 + s + t2) false))
                     (q + (t1 + s + t2) - 4) (tag (t1 + s + t2) false)) in *.
  assert (Ep4 : PREV_BLK m4 bp = q).
  { unfold PREV_BLK, m4.
    rewrite !GET_SIZE_PUT_INT_other by (unfold PREV, FULL_HDR, WSIZE; lia). exact Ep2. }
  rewrite Ep4.
  (* the merged block goes on its list *)
  destruct (tiled_parts _ _ _ _ _ T3) as [S1 S2]. cbn [heap mem set_mem] in S1, S2.
  rewrite Eh2, Eh1 in S1, S2.
  assert (Fsub : forall y, F2 y <-> outside (heap st) l1' (t1 + s + t2) l2' y).
  { intros y. split; [apply Fsub0|]. intros H.
    pose proof (outside_far _ _ _ _ _ _ S1 S2 H).
    unfold F2. rewrite outside_left, outside_right.
    split; [split; [left; left; exact H|lia]|lia]. }
  destruct (step_insert (set_mem st2 m4) (l1' ++ (t1 + s + t2, false) :: l2') F2 T3)
    with (z := q) as (T' & L' & Eh & Eb & Em & Fr).
  { cbn [heap mem set_mem]. rewrite Eh2, Eh1. exact L3. }
  { intros y Hy. cbn [heap set_mem]. rewrite Eh2, Eh1. apply free_at_mid. left.
    apply Fsub. exact Hy. }
  { cbn [heap set_mem]. rewrite Eh2, Eh1, Eq. exists (t1 + s + t2), false. apply in_starts_mid. }
  { intros Hy. apply Fsub in Hy. pose proof (outside_far _ _ _ _ _ _ S1 S2 Hy). lia. }
  cbn [heap mem mem_brk mem_max_addr set_mem] in *. rewrite Eh2, Eh1 in Fr.
  set (st5 := lifo_insert (set_mem st2 m4) q) in *. clearbody st5.
  assert (Ep5 : PREV_BLK (mem st5) bp = q).
  { rewrite <- Ep4. unfold PREV_BLK, PREV, FULL_HDR, WSIZE, GET_SIZE. f_equal. f_equal.
    apply load32_ext. intros b Hb. apply Fr.
    - unfold in_slots, FULL_HEAP. change ((NO_LISTS + 1) * WSIZE) with 96.
      change (NO_LISTS * WSIZE) with 88. lia.
    - intros d [Hd | ->]; [|lia].
      apply Fsub in Hd. pose proof (outside_far _ _ _ _ _ _ S1 S2 Hd). lia.
    - intros c []. }
  unfold post. cbn [fst snd]. split; [exact Ep5|].
  split; [|repeat apply conj; try congruence].
  - split; [exact T'|]. rewrite Eh, Eh2, Eh1.
    eapply lists_ok_iff; [|rewrite Eh2, Eh1 in L'; exact L']. intros y. cbv beta.
    rewrite free_at_mid, Fsub. rewrite Eq. tauto.
  - assert (FF : forall d, F2 d \/ d = q -> free_at (heap st) (l1 ++ (s, false) :: l2) d).
    { intros d [[[Hd _] _] | ->]; apply out_free; [rewrite E1, E2; exact Hd|exact Fq]. }
    eapply heap_frame_trans; [|eapply heap_frame_weaken; [exact FF| |exact Fr]].
    + eapply heap_frame_trans; [eapply heap_frame_weaken; [| |exact Fr1]|].
      * intros d [Hd _]. apply out_free. exact Hd.
      * intros c [].
      * eapply heap_frame_trans; [eapply heap_frame_weaken; [| |exact Fr2]|].
        -- intros d Hd. apply FF. left. exact Hd.
        -- intros c [].
        -- unfold m4. eapply heap_frame_trans; apply heap_frame_tag.
           ++ exists q, t1, false. split; [|left; reflexivity].
              rewrite E1, <- app_assoc, Eq. apply in_starts_mid.
           ++ exists (bp + s), t2, false. split; [|right; lia].
              rewrite Eh2, Eh1 in Bnx. exact Bnx.
    + intros c [].
Qed.

End Cases.

(** [coalesce] on the free block between [l1] and [l2]: the block and its
    free neighbours become one free block, which is on its list; the
    result is the payload address of the merged block. *)
Lemma coalesce_spec st l1 s l2 :
  tiled st (l1 ++ (s, false) :: l2) ->
  lists_ok (mem st) (heap st) (outside (heap st) l1 s l2) ->
  post st l1 s l2 (coalesce st (heap st + 8 + total l1)) (coalesced l1 s l2)
       (heap st + 8 + total (fst (split_last l1))).
Proof.
  intros Ht Hok.
  pose proof (read_prev_alloc _ _ _ _ _ Ht) as PA.
  pose proof (read_next_alloc _ _ _ _ _ Ht) as NA.
  unfold coalesced.
  destruct (last_cases l1) as [E1 | [(l1' & t1 & E1) | (l1' & t1 & E1)]].
  - assert (X : split_last l1 = (l1, 0)) by (rewrite E1; reflexivity).
    rewrite X in *. cbn [fst snd] in *. change (0 =? 0) with true in PA.
    destruct l2 as [|[t2 [|]] l2'].
    + cbn [split_first fst snd] in *. replace (0 + s + 0) with s by lia.
      apply coal_1; assumption.
    + cbn [split_first fst snd] in *. replace (0 + s + 0) with s by lia.
      apply coal_1; assumption.
    + cbn [split_first fst snd] in *. replace (0 + s + t2) with (s + t2) by lia.
      apply coal_2; [assumption|assumption|assumption|reflexivity].
  - assert (X : split_last l1 = (l1, 0)) by (rewrite E1; apply split_last_alloc).
    rewrite X in *. cbn [fst snd] in *. change (0 =? 0) with true in PA.
    destruct l2 as [|[t2 [|]] l2'].
    + cbn [split_first fst snd] in *. replace (0 + s + 0) with s by lia.
      apply coal_1; assumption.
    + cbn [split_first fst snd] in *. replace (0 + s + 0) with s by lia.
      apply coal_1; assumption.
    + cbn [split_first fst snd] in *. replace (0 + s + t2) with (s + t2) by lia.
      apply coal_2; [assumption|assumption|assumption|reflexivity].
  - assert (X : split_last l1 = (l1', t1)) by (rewrite E1; apply split_last_free).
    rewrite X in *. cbn [fst snd] in *.
    destruct l2 as [|[t2 [|]] l2'].
    + cbn [split_first fst snd] in *. replace (t1 + s + 0) with (t1 + s) by lia.
      apply coal_3; assumption.
    + cbn [split_first fst snd] in *. replace (t1 + s + 0) with (t1 + s) by lia.
      apply coal_3; assumption.
    + cbn [split_first fst snd] in *.
      apply coal_4; [assumption|assumption|assumption|reflexivity].
Qed.

(** Merging leaves no two free blocks side by side when there were none
    apart from the block itself. *)
Lemma no_adj_app_inv l1 l2 : no_adj (l1 ++ l2) -> no_adj l1 /\ no_adj l2.
Proof.
  induction l1 as [|[s a] l IH]; intros H; [split; [exact I|exact H]|].
  destruct l as [|[s' a'] l'].
  - split; [exact I|]. destruct l2 as [|[s2 a2] l2']; [exact I|]. apply H.
  - cbn [app no_adj] in H. destruct H as [Ha H]. destruct (IH H) as [H1 H2].
    split; [|exact H2]. split; assumption.
Qed.

Lemma no_adj_join l1 b l2 : no_adj (l1 ++ [b]) -> no_adj (b :: l2) -> no_adj (l1 ++ b :: l2).
Proof.
  intros H1 H2. induction l1 as [|[s a] l IH]; [exact H2|].
  destruct l as [|[s' a'] l'].
  - destruct b as [sb ab]. destruct H1 as [Ha _]. split; [exact Ha|exact H2].
  - cbn [app no_adj] in H1. destruct H1 as [Ha H1]. cbn [app].
    split; [exact Ha|]. apply IH. exact H1.
Qed.

Lemma no_adj_last_size l t t' a : no_adj (l ++ [(t, a)]) -> no_adj (l ++ [(t', a)]).
Proof.
  induction l as [|[s b] l IH]; intros H; [exact I|].
  destruct l as [|[s' b'] l'].
  - destruct H as [Ha _]. split; [exact Ha|exact I].
  - cbn [app no_adj] in H. destruct H as [Ha H]. cbn [app].
    split; [exact Ha|]. apply IH. exact H.
Qed.

Lemma no_adj_head_size l t t' a : no_adj ((t, a) :: l) -> no_adj ((t', a) :: l).
Proof. destruct l as [|[s b] l]; intros H; exact H. Qed.

Lemma no_adj_coalesced l1 s l2 :
  no_adj (l1 ++ (s, true) :: l2) -> no_adj (coalesced l1 s l2).
Proof.
  intros H. destruct (no_adj_app_inv _ _ H) as [H1 H2].
  destruct (no_adj_app_inv [(s, true)] l2 H2) as [_ H3].
  unfold coalesced. apply no_adj_join.
  - destruct (last_cases l1) as [E | [(l' & t & E) | (l' & t & E)]]; rewrite E in *.
    + exact I.
    + rewrite split_last_alloc. cbn [fst snd]. rewrite <- app_assoc. apply no_adj_join.
      * exact H1.
      * split; [left; reflexivity|exact I].
    + rewrite split_last_free. cbn [fst snd]. apply (no_adj_last_size _ _ _ _ H1).
  - destruct l2 as [|[t2 [|]] l2']; cbn [split_first fst snd].
    + exact I.
    + split; [right; reflexivity|exact H3].
    + apply (no_adj_head_size _ _ _ _ H3).
Qed.

End Coalesce.

Import Coalesce.

Module Free.

(** [free] of the allocated block between [l1] and [l2]. *)
Lemma free_spec st l1 s l2 :
  Inv st (l1 ++ (s, true) :: l2) ->
  let st' := free st (heap st + 8 + total l1) in
  Inv st' (coalesced l1 s l2)
  /\ heap st' = heap st /\ mem_brk st' = mem_brk st /\ mem_max_addr st' = mem_max_addr st
  /\ heap_frame (heap st) (free_at (heap st) (l1 ++ (s, false) :: l2))
       (tags_of (heap st) (l1 ++ (s, false) :: l2)) (mem st) (mem st').
Proof.
  intros [Ht Hok]. set (bp := heap st + 8 + total l1).
  assert (Ebp : bp = heap st + 8 + total l1) by reflexivity. clearbody bp.
  destruct (read_self _ _ _ _ _ Ht) as (Es & _). rewrite <- Ebp in Es.
  destruct (read_bounds _ _ _ _ _ Ht) as (Hs16 & Hs8 & Ht1 & Ht2 & Htot).
  pose proof (t_base _ _ Ht) as Hb.
  unfold free. destruct (Z.eqb_spec bp 0) as [E0 | _]; [lia|].
  rewrite Es, PACK_free, FTR_after_header by lia.
  destruct (step_retag st l1 [(s, true)] l2 (free_at (heap st) (l1 ++ (s, true) :: l2))
              s false Ht) as (T2 & L2).
  { discriminate. } { cbn [total]. lia. } { exact Hok. }
  { intros y Hy. apply free_at_mid_alloc. exact Hy. }
  cbv zeta in T2, L2. rewrite <- Ebp in T2, L2. unfold HDR, THIS, FULL_HDR, WSIZE.
  set (m2 := PUT_INT (PUT_INT (mem st) (bp - 8) (tag s false)) (bp + s - 4) (tag s false)) in *.
  pose proof (coalesce_spec (set_mem st m2) l1 s l2 T2) as C.
  unfold post in C. cbn [heap mem mem_brk mem_max_addr set_mem] in C. rewrite <- Ebp in C.
  destruct C as (_ & HI & Eh & Eb & Em & Fr).
  { eapply lists_ok_iff; [|exact L2]. intros y. apply free_at_mid_alloc. }
  cbv zeta. split; [exact HI|]. split; [exact Eh|]. split; [exact Eb|]. split; [exact Em|].
  eapply heap_frame_trans; [|exact Fr].
  unfold m2. eapply heap_frame_trans; apply heap_frame_tag.
  - exists bp, s, false. split; [rewrite Ebp; apply in_starts_mid|left; reflexivity].
  - exists bp, s, false. split; [rewrite Ebp; apply in_starts_mid|right; reflexivity].
Qed.

End Free.

Import Free.

Module Place.

Lemma step_split st l1 s l2 F a :
  tiled st (l1 ++ (s, false) :: l2) -> 16 <= a -> a + 16 <= s -> a mod 8 = 0 ->
  lists_ok (mem st) (heap st) F ->
  (forall y, F y -> outside (heap st) l1 s l2 y) ->
  let x := heap st + 8 + total l1 in
  let m1 := PUT_INT (mem st) (x - 8) (tag a true) in
  let m2 := PUT_INT m1 (x + a - 4) (tag a true) in
  let m3 := PUT_INT m2 (x + a - 8) (tag (s - a) false) in
  let m4 := PUT_INT m3 (x + s - 4) (tag (s - a) false) in
  tiled (set_mem st m4) (l1 ++ (a, true) :: (s - a, false) :: l2)
  /\ lists_ok m4 (heap st) F.
Proof.
  intros Ht Ha1 Ha2 Ha8 Hok HF x m1 m2 m3 m4.
  split; [apply tiled_split; assumption|].
  assert (Ex : x = heap st + 8 + total l1) by reflexivity. clearbody x.
  pose proof (tiled_total _ _ Ht) as TT. tiled_fields Ht.
  destruct (tiled_parts _ _ _ _ _ Ht) as [S1 S2].
  pose proof (seg_total _ _ _ S1). pose proof (seg_total _ _ _ S2).
  apply (lists_ok_ext (mem st) m4 (heap st) F Hok).
  - intros i Hi. pose proof (slot_range (heap st) i Hi).
    unfold m4, m3, m2, m1. rewrite !GET_PUT_INT_other by lia. reflexivity.
  - intros y Fy. specialize (HF y Fy).
    pose proof (outside_far _ _ _ _ _ _ S1 S2 HF) as Py. rewrite <- Ex in Py.
    unfold m4, m3, m2, m1, HDR, THIS, FULL_HDR, WSIZE.
    rewrite !GET_PUT_INT_other, !GET_INT_PUT_INT_other by lia. auto.
Qed.

Lemma placed_total s a : total (placed s a) = s.
Proof. unfold placed. destruct (16 <=? s - a); cbn [total]; lia. Qed.

(** [place] on the free block between [l1] and [l2]. *)
Lemma place_spec st l1 s l2 asize :
  Inv st (l1 ++ (s, false) :: l2) ->
  16 <= asize -> asize mod 8 = 0 -> asize <= s ->
  let st' := place st (heap st + 8 + total l1) asize in
  let bs' := l1 ++ placed s asize ++ l2 in
  Inv st' bs'
  /\ heap st' = heap st /\ mem_brk st' = mem_brk st /\ mem_max_addr st' = mem_max_addr st
  /\ heap_frame (heap st) (free_at (heap st) bs') (tags_of (heap st) bs') (mem st) (mem st').
Proof.
  intros [Ht Hok] Ha16 Ha8 Has. set (bp := heap st + 8 + total l1).
  assert (Ebp : bp = heap st + 8 + total l1) by reflexivity. clearbody bp.
  destruct (read_self _ _ _ _ _ Ht) as (Es & _). rewrite <- Ebp in Es.
  destruct (read_bounds _ _ _ _ _ Ht) as (Hs16 & Hs8 & Ht1 & Ht2 & Htot).
  pose proof (t_base _ _ Ht) as Hb.
  destruct (tiled_parts _ _ _ _ _ Ht) as [S1 S2].
  assert (Fbp : free_at (heap st) (l1 ++ (s, false) :: l2) bp).
  { apply free_at_mid. right. exact Ebp. }
  destruct (step_remove st _ _ Ht Hok (fun y H => H) bp Fbp)
    as (T1 & L1 & Eh1 & Eb1 & Em1 & Fr1).
  assert (L1' : lists_ok (mem (remove_from_list st bp)) (heap st) (outside (heap st) l1 s l2)).
  { eapply lists_ok_iff; [|exact L1]. intros y. cbv beta. rewrite free_at_mid. split.
    - intros [[H | H] Hn]; [exact H|lia].
    - intros H. split; [left; exact H|].
      pose proof (outside_far _ _ _ _ _ _ S1 S2 H). lia. }
  assert (Fr1' : forall bs', (forall y, outside (heap st) l1 s l2 y -> free_at (heap st) bs' y) ->
            heap_frame (heap st) (free_at (heap st) bs') (tags_of (heap st) bs')
              (mem st) (mem (remove_from_list st bp))).
  { intros bs' Hsub. eapply heap_frame_weaken; [| |exact Fr1].
    - intros d [Hd Hn]. apply Hsub. apply free_at_mid in Hd. destruct Hd; [assumption|lia].
    - intros c []. }
  unfold place. rewrite Es.
  assert (Eu : u64 (s - asize) = s - asize) by (unfold u64; rewrite Z.mod_small; lia).
  rewrite Eu. unfold MIN_SIZE. cbv zeta. unfold placed.
  set (st1 := remove_from_list st bp) in *. clearbody st1.
  destruct (Z.geb_spec (s - asize) 16) as [Hsp | Hsp].
  - (* the block is split *)
    destruct (Z.leb_spec 16 (s - asize)) as [_ | ?]; [|lia].
    rewrite !PACK_alloc, !PACK_free by (try lia; rewrite Zminus_mod, Hs8, Ha8; reflexivity).
    rewrite FTR_after_header by lia.
    assert (En : NEXT_BLK (PUT_INT (PUT_INT (mem st1) (HDR bp) (tag asize true))
                             (bp + asize - 4) (tag asize true)) bp = bp + asize).
    { unfold NEXT_BLK. change (THIS (FULL_HDR bp)) with (HDR bp).
      rewrite GET_SIZE_PUT_INT_other by (unfold HDR, THIS, FULL_HDR, WSIZE; lia).
      unfold GET_SIZE. rewrite GET_INT_PUT_INT_same by (apply tag_range; lia).
      rewrite tag_size by lia. reflexivity. }
    rewrite En. rewrite FTR_after_header
      by (try lia; rewrite Zminus_mod, Hs8, Ha8; reflexivity).
    destruct (step_split st1 l1 s l2 (outside (heap st) l1 s l2) asize T1)
      as (T2 & L2); try assumption; try lia.
    { rewrite Eh1. exact L1'. } { rewrite Eh1. auto. }
    cbv zeta in T2, L2. rewrite Eh1, <- Ebp in T2, L2.
    unfold HDR, THIS, FULL_HDR, WSIZE.
    replace (bp + asize + (s - asize) - 4) with (bp + s - 4) by lia.
    set (m5 := PUT_INT (PUT_INT (PUT_INT (PUT_INT (mem st1) (bp - 8) (tag asize true))
                 (bp + asize - 4) (tag asize true)) (bp + asize - 8) (tag (s - asize) false))
                 (bp + s - 4) (tag (s - asize) false)) in *.
    change ([(asize, true); (s - asize, false)] ++ l2)
      with ((asize, true) :: (s - asize, false) :: l2).
    set (bs' := l1 ++ (asize, true) :: (s - asize, false) :: l2) in *.
    assert (Fiff : forall y, free_at (heap st) bs' y
                             <-> outside (heap st) l1 s l2 y \/ y = bp + asize).
    { intros y. unfold bs'.
      change (l1 ++ (asize, true) :: (s - asize, false) :: l2)
        with (l1 ++ [(asize, true)] ++ (s - asize, false) :: l2).
      rewrite app_assoc, free_at_mid. rewrite total_app. cbn [total].
      replace (heap st + 8 + (total l1 + (asize + 0))) with (bp + asize) by lia.
      unfold outside. rewrite starts_app, total_app. cbn [starts total In].
      replace (heap st + 8 + (total l1 + (asize + 0)) + (s - asize))
        with (heap st + 8 + total l1 + s) by lia.
      split.
      - intros [(sy & [H | H]) | H]; [|left; exists sy; auto|right; exact H].
        apply in_app_iff in H. cbn [In] in H. destruct H as [H | [H | []]].
        + left. exists sy. auto.
        + discriminate H.
      - intros [(sy & [H | H]) | H]; [| |right; exact H].
        + left. exists sy. left. apply in_app_iff. auto.
        + left. exists sy. auto. }
    destruct (step_insert (set_mem st1 m5) bs' (outside (heap st) l1 s l2) T2)
      with (z := bp + asize) as (T' & L' & Eh & Eb & Em & Fr).
    { cbn [heap mem set_mem]. rewrite Eh1. exact L2. }
    { intros y Hy. cbn [heap set_mem]. rewrite Eh1. apply Fiff. left. exact Hy. }
    { cbn [heap set_mem]. rewrite Eh1. exists (s - asize), false. unfold bs', blk.
      change (l1 ++ (asize, true) :: (s - asize, false) :: l2)
        with (l1 ++ [(asize, true)] ++ (s - asize, false) :: l2).
      rewrite app_assoc.
      replace (bp + asize) with (heap st + 8 + total (l1 ++ [(asize, true)]))
        by (rewrite total_app; cbn [total]; lia).
      apply in_starts_mid. }
    { intros Hy. pose proof (outside_far _ _ _ _ _ _ S1 S2 Hy). lia. }
    cbn [heap mem mem_brk mem_max_addr set_mem] in *. rewrite Eh1 in L', Fr.
    split; [|split; [congruence|split; [congruence|split; [congruence|]]]].
    + split; [exact T'|]. rewrite Eh, Eh1.
      eapply lists_ok_iff; [|exact L']. intros y. cbv beta. rewrite Fiff. tauto.
    + eapply heap_frame_trans; [apply Fr1'|].
      { intros y Hy. apply Fiff. left. exact Hy. }
      eapply heap_frame_trans; [|eapply heap_frame_weaken; [| |exact Fr]].
      * unfold m5. assert (B1 : blk (heap st) bs' bp asize true).
        { unfold bs', blk. rewrite Ebp. apply in_starts_mid. }
        assert (B2 : blk (heap st) bs' (bp + asize) (s - asize) false).
        { unfold bs', blk.
          change (l1 ++ (asize, true) :: (s - asize, false) :: l2)
            with (l1 ++ [(asize, true)] ++ (s - asize, false) :: l2).
          rewrite app_assoc.
          replace (bp + asize) with (heap st + 8 + total (l1 ++ [(asize, true)]))
            by (rewrite total_app; cbn [total]; lia).
          apply in_starts_mid. }
        eapply heap_frame_trans; [eapply heap_frame_trans; [eapply heap_frame_trans|]|];
          apply heap_frame_tag.
        -- exists bp, asize, true. split; [exact B1|left; reflexivity].
        -- exists bp, asize, true. split; [exact B1|right; reflexivity].
        -- exists (bp + asize), (s - asize), false. split; [exact B2|left; lia].
        -- exists (bp + asize), (s - asize), false. split; [exact B2|right; lia].
      * intros d Hd. apply Fiff. exact Hd.
      * intros c [].
  - (* the whole block is taken *)
    destruct (Z.leb_spec 16 (s - asize)) as [? | _]; [lia|].
    rewrite !PACK_alloc by lia. rewrite FTR_after_header by lia.
    destruct (step_retag st1 l1 [(s, false)] l2 (outside (heap st) l1 s l2) s true T1)
      as (T2 & L2).
    { discriminate. } { cbn [total]. lia. } { rewrite Eh1. exact L1'. }
    { rewrite Eh1. auto. }
    cbv zeta in T2, L2. rewrite Eh1, <- Ebp in T2, L2.
    unfold HDR, THIS, FULL_HDR, WSIZE. cbn [heap mem mem_brk mem_max_addr set_mem app].
    split; [|split; [congruence|split; [congruence|split; [congruence|]]]].
    + split; [exact T2|]. cbn [heap mem set_mem]. rewrite Eh1.
      eapply lists_ok_iff; [|exact L2]. intros y. symmetry. apply free_at_mid_alloc.
    + eapply heap_frame_trans; [apply Fr1'|].
      { intros y Hy. apply free_at_mid_alloc. exact Hy. }
      assert (B1 : blk (heap st) (l1 ++ (s, true) :: l2) bp s true).
      { unfold blk. rewrite Ebp. apply in_starts_mid. }
      eapply heap_frame_trans; apply heap_frame_tag.
      * exists bp, s, true. split; [exact B1|left; reflexivity].
      * exists bp, s, true. split; [exact B1|right; reflexivity].
Qed.

End Place.

Import Place.

Module Search.

Section Scan.
Variables (m : memory) (h : Z) (F : Z -> Prop) (asize : Z).
Hypothesis Hok : lists_ok m h F.
Variables (pos : Z -> Z) (A B : Z).
Hypothesis Hrank : forall x, F x ->
  A <= pos x < B /\ (nxt m h x <> 0 -> pos x < pos (nxt m h x)).

Lemma first_fit_loop_spec : forall fuel bp,
  F bp -> B - pos bp <= Z.of_nat fuel ->
  exists r, first_fit_loop fuel m h asize bp = Some r /\ fit m F asize r.
Proof.
  induction fuel as [|fuel IH]; intros bp Fbp Hf.
  - destruct (Hrank bp Fbp) as [? _]. lia.
  - cbn [first_fit_loop]. destruct (Z.leb_spec asize (GET_SIZE m (HDR bp))) as [Hle | Hgt].
    + exists bp. split; [reflexivity|]. right. split; assumption.
    + fold (nxt m h bp). destruct (Z.eqb_spec (nxt m h bp) 0) as [E | Hne]; cbn [negb].
      * exists 0. split; [reflexivity|]. left. reflexivity.
      * destruct (Hrank bp Fbp) as [? Hlt]. specialize (Hlt Hne).
        destruct (l_next _ _ _ Hok bp Fbp Hne) as (Fn & _).
        apply IH; [exact Fn|lia].
Qed.

Lemma best_fit_loop_spec : forall fuel bp p0 b0,
  F bp -> B - pos bp <= Z.of_nat fuel -> fit m F asize p0 ->
  exists p b, best_fit_loop fuel m h asize bp p0 b0 = Some (p, b) /\ fit m F asize p.
Proof.
  induction fuel as [|fuel IH]; intros bp p0 b0 Fbp Hf Hp0.
  - destruct (Hrank bp Fbp) as [? _]. lia.
  - cbn [best_fit_loop].
    set (c := (asize <=? GET_SIZE m (HDR bp)) && (GET_SIZE m (HDR bp) <=? b0)).
    assert (Hc : fit m F asize (fst (if c then (bp, GET_SIZE m (HDR bp)) else (p0, b0)))).
    { destruct c eqn:Ec; cbn [fst]; [|exact Hp0].
      apply andb_prop in Ec. destruct Ec as [Ec _]. apply Z.leb_le in Ec.
      right. split; assumption. }
    destruct (if c then (bp, GET_SIZE m (HDR bp)) else (p0, b0)) as [p1 b1]. cbn [fst] in Hc.
    fold (nxt m h bp). destruct (Z.eqb_spec (nxt m h bp) 0) as [E | Hne]; cbn [negb].
    + exists p1, b1. split; [reflexivity|exact Hc].
    + destruct (Hrank bp Fbp) as [? Hlt]. specialize (Hlt Hne).
      destruct (l_next _ _ _ Hok bp Fbp Hne) as (Fn & _).
      apply IH; [exact Fn|lia|exact Hc].
Qed.

Lemma find_fit_bins_spec fuel : B - A <= Z.of_nat fuel ->
  forall n x p0 b0, 0 <= x -> x + Z.of_nat n = NO_LISTS -> fit m F asize p0 ->
  exists r, find_fit_bins fuel n x m h asize p0 b0 = Some r /\ fit m F asize r.
Proof.
  intros Hf. induction n as [|n IH]; intros x p0 b0 Hx Hn Hp0.
  - exists p0. split; [reflexivity|exact Hp0].
  - cbn [find_fit_bins]. fold (slot h x).
    destruct (Z.eqb_spec (GET m (slot h x)) 0) as [E | Hne].
    + apply IH; [lia|lia|exact Hp0].
    + destruct (l_head _ _ _ Hok x ltac:(lia) Hne) as (Fh & _).
      destruct (Hrank _ Fh) as [? _].
      destruct (x =? NO_LISTS - 1).
      * destruct (best_fit_loop_spec fuel _ p0 b0 Fh ltac:(lia) Hp0) as (p & b & -> & Hp).
        apply IH; [lia|lia|exact Hp].
      * destruct (first_fit_loop_spec fuel _ Fh ltac:(lia)) as (r & -> & Hr).
        destruct (Z.eqb_spec r 0) as [E | Hr0]; cbn [negb].
        -- apply IH; [lia|lia|exact Hp0].
        -- exists r. split; [reflexivity|exact Hr].
Qed.

End Scan.

(** With enough fuel [find_fit] returns, and what it returns is null or a
    listed block that is large enough. *)
Lemma find_fit_spec st F asize :
  lists_ok (mem st) (heap st) F ->
  exists fuel0, forall fuel, (fuel0 <= fuel)%nat ->
    exists r, find_fit fuel st asize = Some r /\ fit (mem st) F asize r.
Proof.
  intros Hok. destruct (l_rank _ _ _ Hok) as (pos & A & B & Hrank).
  exists (Z.to_nat (B - A)). intros fuel Hfuel. unfold find_fit.
  pose proof (find_size_bin_range (s32 asize)) as Hb.
  apply (find_fit_bins_spec _ _ _ _ Hok pos A B Hrank); try lia.
  left. reflexivity.
Qed.

End Search.

Import Search.

Module Grow.

Lemma grow_size_eq words :
  0 <= words -> (words + 1) * 8 < 2 ^ 32 ->
  u32 (if negb (words mod 2 =? 0) then u64 ((words + 1) * WSIZE) else u64 (words * WSIZE))
  = grow_size words.
Proof.
  intros H0 H1. unfold grow_size, WSIZE, u32, u64.
  pose proof (Z.mod_pos_bound words 2 ltac:(lia)).
  destruct (Z.eqb_spec (words mod 2) 0) as [E | E]; cbn [negb].
  - rewrite E, Z.add_0_r. rewrite (Z.mod_small (words * 8) (2 ^ 64)) by lia.
    apply Z.mod_small. lia.
  - replace (words mod 2) with 1 by lia.
    rewrite (Z.mod_small ((words + 1) * 8) (2 ^ 64)) by lia. apply Z.mod_small. lia.
Qed.

Lemma grow_size_mod8 words : grow_size words mod 8 = 0.
Proof. unfold grow_size, WSIZE. apply Z.mod_mul. lia. Qed.

Lemma outside_nil h l S y : outside h l S [] y <-> free_at h l y.
Proof.
  unfold outside, free_at, blk. cbn [starts In].
  split; intros (sy & H); exists sy; tauto.
Qed.

(** [grow_heap] fails without a change when the arena is full. *)
Lemma grow_heap_full st words :
  0 <= words -> (words + 1) * 8 < 2 ^ 32 ->
  mem_max_addr st < mem_brk st + grow_size words ->
  grow_heap st words = (0, st).
Proof.
  intros H0 H1 Hfull. unfold grow_heap. rewrite grow_size_eq by assumption.
  unfold mem_sbrk. destruct (Z.ltb_spec (mem_max_addr st) (mem_brk st + grow_size words)); [|lia].
  reflexivity.
Qed.

(** Otherwise the arena ends with a free block that takes in the new bytes
    and the free block that was last, if there was one. *)
Lemma grow_heap_spec st bs words :
  Inv st bs -> 2 <= words -> (words + 1) * 8 < 2 ^ 32 ->
  mem_brk st + grow_size words <= mem_max_addr st ->
  let r := grow_heap st words in
  fst r = heap st + 8 + total (fst (split_last bs))
  /\ Inv (snd r) (coalesced bs (grow_size words) [])
  /\ heap (snd r) = heap st /\ mem_brk (snd r) = mem_brk st + grow_size words
  /\ mem_max_addr (snd r) = mem_max_addr st
  /\ heap_frame (heap st) (free_at (heap st) bs)
       (fun c => tags_of (heap st) bs c \/ mem_brk st - 8 <= c) (mem st) (mem (snd r)).
Proof.
  intros [Ht Hok] Hw H1 Hroom.
  assert (Hsz : 16 <= grow_size words).
  { unfold grow_size, WSIZE. pose proof (Z.mod_pos_bound words 2 ltac:(lia)). lia. }
  assert (Hsz' : grow_size words < 2 ^ 32 - 1).
  { unfold grow_size, WSIZE. pose proof (Z.mod_pos_bound words 2 ltac:(lia)). lia. }
  pose proof (grow_size_mod8 words) as H8.
  unfold grow_heap. rewrite grow_size_eq by lia.
  set (size := grow_size words) in *. clearbody size.
  unfold mem_sbrk. destruct (Z.ltb_spec (mem_max_addr st) (mem_brk st + size)); [lia|].
  cbn [mem heap mem_brk mem_max_addr set_mem].
  set (bp := mem_brk st). assert (Ebp : bp = mem_brk st) by reflexivity. clearbody bp.
  pose proof (tiled_total _ _ Ht) as TT. pose proof (t_brk _ _ Ht) as Eb.
  pose proof (t_base _ _ Ht) as Hb. pose proof (t_seg _ _ Ht) as Sg.
  rewrite !PACK_free by lia. rewrite FTR_after_header by lia.
  assert (En : NEXT_BLK (PUT_INT (PUT_INT (mem st) (HDR bp) (tag size false))
                           (bp + size - 4) (tag size false)) bp = bp + size).
  { unfold NEXT_BLK. change (THIS (FULL_HDR bp)) with (HDR bp).
    rewrite GET_SIZE_PUT_INT_other by (unfold HDR, THIS, FULL_HDR, WSIZE; lia).
    unfold GET_SIZE. rewrite GET_INT_PUT_INT_same by (apply tag_range; lia).
    rewrite tag_size by lia. reflexivity. }
  rewrite En. change (PACK 0 1) with (tag 0 true).
  pose proof (tiled_grow st bs size Ht Hsz H8 Hroom) as T2. cbv zeta in T2. rewrite <- Ebp in T2.
  unfold HDR, THIS, FULL_HDR, WSIZE.
  set (m3 := PUT_INT (PUT_INT (PUT_INT (mem st) (bp - 8) (tag size false))
               (bp + size - 4) (tag size false)) (bp + size - 8) (tag 0 true)) in *.
  set (st2 := {| mem := m3; heap := heap st; mem_brk := bp + size;
                 mem_max_addr := mem_max_addr st |}) in *.
  assert (L2 : lists_ok m3 (heap st) (outside (heap st) bs size [])).
  { eapply lists_ok_iff; [intros y; symmetry; apply outside_nil|].
    apply (lists_ok_ext (mem st) m3 (heap st) _ Hok).
    - intros i Hi. pose proof (slot_range (heap st) i Hi).
      unfold m3. rewrite !GET_PUT_INT_other by lia. reflexivity.
    - intros y (sy & Hy). pose proof (tiled_blk _ _ Ht _ _ _ Hy) as ((? & ? & ?) & _ & _ & ? & ? & _).
      unfold m3, HDR, THIS, FULL_HDR, WSIZE.
      rewrite !GET_PUT_INT_other, !GET_INT_PUT_INT_other by lia. auto. }
  pose proof (coalesce_spec st2 bs size [] T2 L2) as C. unfold post in C.
  cbn [heap mem mem_brk mem_max_addr st2] in C.
  replace (heap st + 8 + total bs) with bp in C by lia.
  destruct C as (Er & HI & Eh & Eb' & Em & Fr).
  cbv zeta. split; [exact Er|]. split; [exact HI|]. split; [exact Eh|].
  split; [exact Eb'|]. split; [exact Em|].
  intros a Hs Hl Htg.
  assert (Ha : a < bp - 8).
  { destruct (Z.lt_ge_cases a (bp - 8)) as [? | Hge]; [assumption|].
    exfalso. apply (Htg a); [right; lia|lia]. }
  rewrite Fr.
  - unfold m3. unfold PUT_INT. rewrite !store32_out by lia. reflexivity.
  - exact Hs.
  - intros d Hd. apply free_at_mid in Hd. destruct Hd as [Hd | Hd]; [|lia].
    apply Hl. apply outside_nil in Hd. exact Hd.
  - intros c (x & s & b & Hx & Hc).
    change (bs ++ [(size, false)]) with (bs ++ [(size, false)] ++ []) in Hx.
    apply blk_app in Hx. cbn [starts In total] in Hx. destruct Hx as [Hx | [[Hx | []] | []]].
    + apply Htg. left. exists x, s, b. split; [exact Hx|exact Hc].
    + injection Hx as <- <- <-. lia.
Qed.

End Grow.

Import Grow.

Module Init.

Lemma init_lists_out : forall n x h m a,
  (a < FULL_HEAP h + x * WSIZE \/ FULL_HEAP h + (x + Z.of_nat n) * WSIZE <= a) ->
  init_lists n x h m a = m a.
Proof.
  induction n as [|n IH]; intros x h m a Ha; [reflexivity|].
  cbn [init_lists]. rewrite IH by (unfold WSIZE in *; lia).
  unfold PUT. apply store64_out. unfold WSIZE in *. lia.
Qed.

Lemma init_lists_zero : forall n x h m i,
  x <= i < x + Z.of_nat n -> GET (init_lists n x h m) (FULL_HEAP h + i * WSIZE) = 0.
Proof.
  induction n as [|n IH]; intros x h m i Hi; [lia|].
  cbn [init_lists]. destruct (Z.eq_dec i x) as [-> | Hne].
  - unfold GET. rewrite (load64_ext (PUT m (FULL_HEAP h + x * WSIZE) 0)).
    + unfold PUT. apply load64_store64_same; lia.
    + intros b Hb. apply init_lists_out. unfold WSIZE in *. lia.
  - apply IH. lia.
Qed.

(** On a fresh arena [mm_init] succeeds and leaves one free block of 256
    bytes, with every list but its own empty. *)
Lemma mm_init_spec st :
  fresh st ->
  fst (mm_init st) = 0
  /\ Inv (snd (mm_init st)) [(256, false)]
  /\ heap (snd (mm_init st)) = mem_brk st + 104
  /\ mem_max_addr (snd (mm_init st)) = mem_max_addr st.
Proof.
  intros [Hal Hpos Hroom Hspan Htop]. unfold mm_init, mem_sbrk.
  change ((3 + NO_LISTS) * WSIZE) with 112.
  destruct (Z.ltb_spec (mem_max_addr st) (mem_brk st + 112)); [lia|].
  cbn [mem heap mem_brk mem_max_addr]. set (h := mem_brk st) in *.
  assert (Eh : h = mem_brk st) by reflexivity. clearbody h.
  change (PACK 0 0) with 0. change (PACK WSIZE 1) with (tag 8 true).
  change (PACK 0 1) with (tag 0 true).
  change (THIS (h + (NO_LISTS + 1) * WSIZE)) with (h + 96).
  change (PREV (h + (NO_LISTS + 2) * WSIZE)) with (h + 104 + 4).
  change (THIS (h + (NO_LISTS + 2) * WSIZE)) with (h + 104).
  change (h + (2 + NO_LISTS) * WSIZE) with (h + 104).
  change (PAGESIZE / WSIZE) with 32. change (Z.to_nat NO_LISTS) with 11%nat.
  set (m4 := PUT_INT (PUT_INT (PUT_INT (PUT (mem st) h 0) (h + 96) (tag 8 true))
                        (h + 104 + 4) (tag 8 true)) (h + 104) (tag 0 true)).
  set (m5 := init_lists 11 0 (h + 104) m4).
  set (st0 := {| mem := m5; heap := h + 104; mem_brk := h + 112;
                 mem_max_addr := mem_max_addr st |}).
  assert (Hm5 : forall a, h + 96 <= a -> m5 a = m4 a).
  { intros a Ha. unfold m5. apply init_lists_out. right.
    unfold FULL_HEAP. change ((NO_LISTS + 1) * WSIZE) with 96. unfold WSIZE. lia. }
  assert (G : forall c, h + 96 <= c -> GET_INT m5 c = GET_INT m4 c).
  { intros c Hc. unfold GET_INT. apply load32_ext. intros b Hb. apply Hm5. lia. }
  assert (T0 : tiled st0 []).
  { constructor; cbn [heap mem mem_brk mem_max_addr st0 total seg]; try lia; try exact I.
    - rewrite Z.add_mod, Hal by lia. reflexivity.
    - unfold FULL_HEAP. change ((NO_LISTS + 1) * WSIZE) with 96. lia.
    - rewrite G by lia. unfold m4.
      rewrite !GET_INT_PUT_INT_other by lia.
      replace (h + 104 - 8) with (h + 96) by lia.
      apply GET_INT_PUT_INT_same. cbv. split; [discriminate|reflexivity].
    - rewrite G by lia. unfold m4.
      rewrite !GET_INT_PUT_INT_other by lia.
      apply GET_INT_PUT_INT_same. cbv. split; [discriminate|reflexivity].
    - rewrite G by lia. unfold m4.
      replace (h + 112 - 8) with (h + 104) by lia.
      apply GET_INT_PUT_INT_same. cbv. split; [discriminate|reflexivity]. }
  assert (L0 : lists_ok m5 (h + 104) (free_at (h + 104) [])).
  { assert (Z0 : forall i, 0 <= i < NO_LISTS -> GET m5 (slot (h + 104) i) = 0).
    { intros i Hi. unfold slot, m5. apply init_lists_zero. unfold NO_LISTS in Hi. lia. }
    constructor.
    - intros i Hi Hne. rewrite Z0 in Hne by assumption. contradiction.
    - intros x (s & []).
    - intros x (s & []).
    - intros x (s & []).
    - exists (fun _ => 0), 0, 1. intros x (s & []). }
  pose proof (grow_heap_spec st0 [] 32 (conj T0 L0) ltac:(lia) ltac:(lia)) as Gs.
  change (grow_size 32) with 256 in Gs. cbv zeta in Gs.
  cbn [heap mem mem_brk mem_max_addr st0] in Gs.
  change (coalesced [] 256 []) with [(256, false)] in Gs.
  change (total (fst (split_last []))) with 0 in Gs.
  specialize (Gs ltac:(lia)). destruct Gs as (Er & HI & Eh' & Eb & Em & _).
  fold st0. destruct (grow_heap st0 32) as [bp st2]. cbn [fst snd] in *.
  destruct (Z.eqb_spec bp 0) as [E | _]; [lia|]. cbn [fst snd].
  split; [reflexivity|]. split; [exact HI|]. split; [exact Eh'|exact Em].
Qed.

End Init.

Import Init.

Module Live.

(** Payload bytes lie clear of the list heads, of the links of free blocks
    and of every boundary tag. *)
Lemma payload_frame st0 bs (L T : Z -> Prop) m m' :
  tiled st0 bs ->
  heap_frame (heap st0) L T m m' ->
  (forall d, L d -> free_at (heap st0) bs d) ->
  (forall c, T c -> tags_of (heap st0) bs c \/ mem_brk st0 - 8 <= c) ->
  kept (heap st0) bs m m'.
Proof.
  intros Ht Hfr HL HT x s a Hx Ha.
  pose proof (tiled_blk _ _ Ht _ _ _ Hx) as ((Hs16 & _ & _) & _ & _ & Hlo & Hhi & _).
  pose proof (t_seg _ _ Ht) as Sg. pose proof (t_base _ _ Ht) as Hb.
  apply Hfr.
  - unfold in_slots, FULL_HEAP. change ((NO_LISTS + 1) * WSIZE) with 96.
    change (NO_LISTS * WSIZE) with 88. lia.
  - intros d Hd Hr. destruct (HL d Hd) as (sd & Hbd).
    pose proof (tiled_blk _ _ Ht _ _ _ Hbd) as ((Hd16 & _) & _).
    destruct (seg_sep _ _ _ _ _ _ _ _ _ Sg Hx Hbd) as [(_ & _ & E) | [? | ?]];
      [discriminate E|lia|lia].
  - intros c Hc Hr. destruct (HT c Hc) as [(y & sy & b & Hy & Ey) | Hge]; [|lia].
    pose proof (tiled_blk _ _ Ht _ _ _ Hy) as ((Hy16 & _) & _).
    destruct (seg_sep _ _ _ _ _ _ _ _ _ Sg Hx Hy) as [(E1 & E2 & _) | [? | ?]]; lia.
Qed.

Lemma kept_refl h bs m : kept h bs m m.
Proof. intros x s a _ _. reflexivity. Qed.

Lemma kept_trans h bs bs' m1 m2 m3 :
  stays h bs bs' -> kept h bs m1 m2 -> kept h bs' m2 m3 -> kept h bs m1 m3.
Proof.
  intros Hst H1 H2 x s a Hx Ha. rewrite (H2 x s a) by (try apply Hst; assumption).
  apply (H1 x s a); assumption.
Qed.

Lemma stays_refl h bs : stays h bs bs.
Proof. intros x s H. exact H. Qed.

Lemma stays_trans h b1 b2 b3 : stays h b1 b2 -> stays h b2 b3 -> stays h b1 b3.
Proof. intros H1 H2 x s H. apply H2, H1, H. Qed.

(** Replacing a run of blocks by another of the same total size keeps
    every block outside it. *)
Lemma blk_replace h l1 mid mid' l2 x s a :
  total mid = total mid' ->
  blk h (l1 ++ mid ++ l2) x s a ->
  In (x, s, a) (starts (h + 8 + total l1) mid) \/ blk h (l1 ++ mid' ++ l2) x s a.
Proof.
  intros E H. apply blk_app in H. destruct H as [H | [H | H]].
  - right. apply blk_app. left. exact H.
  - left. exact H.
  - right. apply blk_app. right. right. rewrite <- E. exact H.
Qed.

Lemma stays_placed h l1 s asize l2 :
  stays h (l1 ++ (s, false) :: l2) (l1 ++ placed s asize ++ l2).
Proof.
  intros x sx H.
  destruct (blk_replace h l1 [(s, false)] (placed s asize) l2 x sx true) as [H' | H'].
  - rewrite placed_total. cbn [total]. lia.
  - exact H.
  - cbn [starts In] in H'. destruct H' as [E | []]. discriminate E.
  - exact H'.
Qed.

Lemma split_last_total l : total (fst (split_last l)) + snd (split_last l) = total l.
Proof.
  destruct (last_cases l) as [E | [(l' & t & E) | (l' & t & E)]]; subst l.
  - reflexivity.
  - rewrite split_last_alloc. cbn [fst snd]. lia.
  - rewrite split_last_free, total_app. cbn [fst snd total]. lia.
Qed.

Lemma split_first_total l : snd (split_first l) + total (fst (split_first l)) = total l.
Proof. destruct l as [|[t [|]] r]; cbn [split_first fst snd total]; lia. Qed.

(** Merging the block of size [s] with its free neighbours keeps every
    other allocated block. *)
Lemma stays_coalesced h l1 s b l2 x sx :
  blk h (l1 ++ (s, b) :: l2) x sx true -> x <> h + 8 + total l1 ->
  blk h (coalesced l1 s l2) x sx true.
Proof.
  intros H Hne. unfold coalesced.
  change (l1 ++ (s, b) :: l2) with (l1 ++ [(s, b)] ++ l2) in H.
  apply blk_app in H. cbn [starts In total] in H.
  pose proof (split_last_total l1) as E1. pose proof (split_first_total l2) as E2.
  change (?a ++ ?c :: ?d) with (a ++ [c] ++ d). apply blk_app. cbn [starts In total].
  destruct H as [H | [[H | []] | H]].
  - left. destruct (last_cases l1) as [E | [(l' & t & E) | (l' & t & E)]]; subst l1.
    + exact H.
    + rewrite split_last_alloc. exact H.
    + rewrite split_last_free. cbn [fst]. rewrite starts_app in H.
      apply in_app_iff in H. destruct H as [H | H]; [exact H|].
      cbn [starts In] in H. destruct H as [E | []]. discriminate E.
  - injection H as E _ _. lia.
  - right. right.
    replace (h + 8 + total (fst (split_last l1))
             + (snd (split_last l1) + s + snd (split_first l2) + 0))
      with (h + 8 + total l1 + (s + 0) + snd (split_first l2)) by lia.
    destruct l2 as [|[t [|]] r]; cbn [split_first fst snd] in *.
    + rewrite Z.add_0_r. exact H.
    + rewrite Z.add_0_r. exact H.
    + cbn [starts In] in H. destruct H as [E | H]; [discriminate E|].
      replace (h + 8 + total l1 + (s + 0) + t) with (h + 8 + total l1 + (s + 0) + t) by lia.
      exact H.
Qed.

(** *** No two free blocks side by side *)

Lemma no_adj_snoc_alloc l t : no_adj l -> no_adj (l ++ [(t, true)]).
Proof.
  induction l as [|[s a] l IH]; intros H; [exact I|].
  destruct l as [|[s' a'] l'].
  - split; [right; reflexivity|exact I].
  - cbn [app]. destruct H as [Ha H]. split; [exact Ha|]. apply IH. exact H.
Qed.

Lemma no_adj_placed l1 s asize l2 :
  no_adj (l1 ++ (s, false) :: l2) -> no_adj (l1 ++ placed s asize ++ l2).
Proof.
  intros H. destruct (no_adj_app_inv _ _ H) as [H1 H2].
  destruct (no_adj_app_inv [(s, false)] l2 H2) as [_ H3].
  unfold placed. destruct (16 <=? s - asize); cbn [app].
  - apply no_adj_join; [apply no_adj_snoc_alloc; exact H1|].
    split; [left; reflexivity|]. apply (no_adj_head_size _ _ _ _ H2).
  - apply no_adj_join; [apply no_adj_snoc_alloc; exact H1|].
    destruct l2 as [|[t b] r]; [exact I|]. split; [left; reflexivity|exact H3].
Qed.

Lemma no_adj_grown bs size : no_adj bs -> no_adj (coalesced bs size []).
Proof.
  intros H. apply no_adj_coalesced. apply no_adj_snoc_alloc. exact H.
Qed.

End Live.

Import Live.

Module Alloc.

Lemma adjust_sane size :
  sane size ->
  16 <= adjust size <= 2 ^ 32 - 16 /\ adjust size mod 8 = 0 /\ size + 8 <= adjust size.
Proof.
  intros [H0 H1]. split; [|split; [apply adjust_mult8|]].
  - destruct (Z.le_gt_cases size 8) as [Hs | Hs].
    + rewrite adjust_small by assumption. lia.
    + destruct (adjust_in_range size Hs ltac:(lia)) as [E H16]. split; [exact H16|].
      pose proof (adjust_mult8 size) as H8. rewrite E in *. unfold align_up in *.
      replace (size + 8 + (8 - 1)) with (size + 15) in * by lia.
      pose proof (Z.div_mod (size + 15) 8 ltac:(lia)).
      pose proof (Z.mod_pos_bound (size + 15) 8 ltac:(lia)).
      assert ((size + 15) / 8 * 8 <= 2 ^ 32 - 9) by lia.
      assert (X : (size + 15) / 8 <= 2 ^ 29 - 2) by lia. lia.
  - destruct (Z.le_gt_cases size 8) as [Hs | Hs].
    + rewrite adjust_small by assumption. lia.
    + destruct (adjust_in_range size Hs ltac:(lia)) as [E _]. rewrite E. unfold align_up.
      replace (size + 8 + (8 - 1)) with (size + 15) by lia.
      pose proof (Z.div_mod (size + 15) 8 ltac:(lia)).
      pose proof (Z.mod_pos_bound (size + 15) 8 ltac:(lia)). lia.
Qed.

(** The number of words [malloc] and [realloc] ask [grow_heap] for. *)
Lemma extend_words asize :
  16 <= asize <= 2 ^ 32 - 16 -> asize mod 8 = 0 ->
  let words := MAX asize PAGESIZE / WSIZE in
  2 <= words /\ (words + 1) * 8 < 2 ^ 32 /\ asize <= grow_size words.
Proof.
  intros Ha H8 words. unfold grow_size.
  assert (E : MAX asize PAGESIZE = 8 * words /\ asize <= MAX asize PAGESIZE
              /\ 256 <= MAX asize PAGESIZE <= 2 ^ 32 - 16).
  { unfold words, MAX, WSIZE. change PAGESIZE with 256.
    destruct (Z.gtb_spec asize 256).
    - pose proof (Z.div_mod asize 8 ltac:(lia)). lia.
    - change (256 / 8) with 32. lia. }
  clearbody words. unfold WSIZE. pose proof (Z.mod_pos_bound words 2 ltac:(lia)). lia.
Qed.

Lemma kept_mono h bs bs' m m' : stays h bs bs' -> kept h bs' m m' -> kept h bs m m'.
Proof. intros Hs Hk x s a Hx Ha. apply (Hk x s a); [apply Hs; exact Hx|exact Ha]. Qed.

Lemma split_last_nonneg st bs : tiled st bs -> 0 <= snd (split_last bs).
Proof.
  intros Ht. destruct (last_cases bs) as [E | [(l' & t & E) | (l' & t & E)]]; subst bs.
  - cbn. lia.
  - rewrite split_last_alloc. cbn. lia.
  - rewrite split_last_free. cbn [snd].
    destruct (read_bounds _ _ _ _ _ Ht) as (? & _). lia.
Qed.

Lemma blk_placed h l1 s asize l2 :
  blk h (l1 ++ placed s asize ++ l2) (h + 8 + total l1)
      (if 16 <=? s - asize then asize else s) true.
Proof.
  unfold placed, blk. destruct (16 <=? s - asize); cbn [app]; apply in_starts_mid.
Qed.

(** [place] keeps the allocated blocks and their payloads. *)
Lemma place_keeps st l1 s l2 asize :
  Inv st (l1 ++ (s, false) :: l2) ->
  16 <= asize -> asize mod 8 = 0 -> asize <= s ->
  kept (heap st) (l1 ++ placed s asize ++ l2) (mem st)
       (mem (place st (heap st + 8 + total l1) asize)).
Proof.
  intros HI H16 H8 Hle.
  pose proof (place_spec st l1 s l2 asize HI H16 H8 Hle) as P. cbv zeta in P.
  set (st' := place st (heap st + 8 + total l1) asize) in *. clearbody st'.
  destruct P as ([T' _] & Eh & _ & _ & Fr).
  rewrite <- Eh in Fr. rewrite <- Eh. apply (payload_frame _ _ _ _ _ _ T' Fr).
  - intros d Hd. exact Hd.
  - intros c Hc. left. exact Hc.
Qed.

(** With enough fuel [malloc] returns.  The heap stays well formed, every
    allocated block stays as it is, payload included, and a non-null result
    is the payload address of an allocated block that was not allocated
    before and holds [size] bytes. *)
Lemma malloc_spec st bs size :
  Inv st bs -> sane size ->
  exists fuel0, forall fuel, (fuel0 <= fuel)%nat ->
  exists p st' bs', malloc fuel st size = Some (p, st')
    /\ Inv st' bs' /\ heap st' = heap st /\ mem_max_addr st' = mem_max_addr st
    /\ stays (heap st) bs bs' /\ kept (heap st) bs (mem st) (mem st')
    /\ (p = 0 -> st' = st)
    /\ (p <> 0 -> (exists s, blk (heap st) bs' p s true /\ size + 8 <= s)
                  /\ forall s0, ~ blk (heap st) bs p s0 true)
    /\ (no_adj bs -> no_adj bs').
Proof.
  intros HI Hsane. pose proof HI as [Ht Hok].
  destruct (adjust_sane size Hsane) as (Ha & Ha8 & Hsz).
  destruct (find_fit_spec st _ (adjust size) Hok) as (fuel0 & Hfit).
  exists fuel0. intros fuel Hfuel. destruct (Hfit fuel Hfuel) as (r & Er & Hr).
  unfold malloc. destruct (Z.leb_spec size 0) as [? | _]; [destruct Hsane; lia|].
  rewrite Er. set (asize := adjust size) in *. clearbody asize.
  pose proof (t_base _ _ Ht) as Hb.
  destruct Hr as [-> | ((s & Hbr) & Hle)].
  - (* no fit: the arena grows *)
    cbn [Z.eqb negb]. destruct (extend_words asize Ha Ha8) as (Hw1 & Hw2 & Hw3).
    set (words := MAX asize PAGESIZE / WSIZE) in *. clearbody words.
    destruct (Z.lt_ge_cases (mem_max_addr st) (mem_brk st + grow_size words)) as [Hfull | Hroom].
    + rewrite grow_heap_full by lia. cbn [Z.eqb].
      exists 0, st, bs. split; [reflexivity|]. split; [exact HI|]. split; [reflexivity|].
      split; [reflexivity|]. split; [apply stays_refl|]. split; [apply kept_refl|].
      split; [reflexivity|]. split; [intros X; contradiction|intros X; exact X].
    + pose proof (grow_heap_spec st bs words HI Hw1 Hw2 Hroom) as G. cbv zeta in G.
      destruct (grow_heap st words) as [bp st1]. cbn [fst snd] in G.
      destruct G as (Ebp & HI1 & Eh1 & Eb1 & Em1 & Fr1).
      pose proof (tiled_total _ _ Ht) as TT.
      pose proof (split_last_total bs) as ET. pose proof (split_last_nonneg _ _ Ht) as Hn.
      assert (Hl1 : 0 <= total (fst (split_last bs))).
      { destruct HI1 as [T1 _]. unfold coalesced in T1. cbn [split_first fst snd] in T1.
        destruct (read_bounds _ _ _ _ _ T1) as (_ & _ & ? & _). assumption. }
      destruct (Z.eqb_spec bp 0) as [E0 | _]; [lia|].
      assert (Fresh : forall s0, ~ blk (heap st) bs bp s0 true).
      { intros s0 Hs0.
        pose proof (tiled_blk _ _ Ht _ _ _ Hs0) as ((? & _) & _ & _ & _ & ? & _).
        pose proof (t_brk _ _ Ht).
        destruct (last_cases bs) as [E | [(l' & t' & E) | (l' & t' & E)]].
        - rewrite E in *. cbn [split_last rev fst snd total] in *. lia.
        - rewrite E, split_last_alloc in *. cbn [fst snd] in *. lia.
        - rewrite E, split_last_free in *. cbn [fst snd] in *.
          assert (Hq : blk (heap st) (l' ++ [(t', false)]) bp t' false).
          { rewrite Ebp. apply in_starts_mid. }
          pose proof (tiled_blk _ _ Ht _ _ _ Hq) as ((? & _) & _).
          destruct (seg_sep _ _ _ _ _ _ _ _ _ (t_seg _ _ Ht) Hq Hs0) as [(_ & _ & X) | [? | ?]];
            [discriminate X|lia|lia]. }
      unfold coalesced in HI1. cbn [split_first fst snd] in HI1.
      set (l1 := fst (split_last bs)) in *. set (t := snd (split_last bs)) in *.
      pose proof (place_spec st1 l1 (t + grow_size words + 0) [] asize HI1
                    ltac:(lia) Ha8 ltac:(lia)) as P.
      pose proof (place_keeps st1 l1 (t + grow_size words + 0) [] asize HI1
                    ltac:(lia) Ha8 ltac:(lia)) as K.
      cbv zeta in P. rewrite Eh1, <- Ebp in P, K.
      destruct P as (HI2 & Eh2 & Eb2 & Em2 & _).
      assert (St1 : stays (heap st) bs (l1 ++ [(t + grow_size words + 0, false)])).
      { intros x sx Hx. pose proof (tiled_blk _ _ Ht _ _ _ Hx) as ((? & _) & _ & _ & _ & ? & _).
        pose proof (t_brk _ _ Ht).
        apply (stays_coalesced (heap st) bs (grow_size words) false [] x sx); [|lia].
        change (bs ++ [(grow_size words, false)]) with (bs ++ [(grow_size words, false)] ++ []).
        apply blk_app. left. exact Hx. }
      assert (St2 : stays (heap st) bs (l1 ++ placed (t + grow_size words + 0) asize ++ [])).
      { eapply stays_trans; [exact St1|apply stays_placed]. }
      exists bp, (place st1 bp asize), (l1 ++ placed (t + grow_size words + 0) asize ++ []).
      split; [reflexivity|]. split; [exact HI2|]. split; [congruence|]. split; [congruence|].
      split; [exact St2|]. split; [|split; [intros; lia|split; [intros _; split|]]].
      * eapply kept_trans; [exact St2| |apply kept_mono with (2 := K); apply stays_refl].
        apply (payload_frame _ _ _ _ _ _ Ht Fr1); [intros d Hd; exact Hd|].
        intros c Hc. exact Hc.
      * eexists. split; [rewrite Ebp; apply blk_placed|].
        destruct (16 <=? t + grow_size words + 0 - asize); lia.
      * exact Fresh.
      * intros Hna. apply no_adj_placed. apply (no_adj_grown bs (grow_size words) Hna).
  - (* a fit was found *)
    pose proof (tiled_blk _ _ Ht _ _ _ Hbr) as ((Hs16 & _) & _ & _ & Hlo & _).
    destruct (Z.eqb_spec r 0) as [E0 | _]; [lia|]. cbn [negb].
    rewrite (tiled_size _ _ Ht _ _ _ Hbr) in Hle.
    destruct (in_starts_split _ _ _ _ _ Hbr) as (l1 & l2 & -> & Er').
    pose proof (place_spec st l1 s l2 asize HI ltac:(lia) Ha8 Hle) as P.
    pose proof (place_keeps st l1 s l2 asize HI ltac:(lia) Ha8 Hle) as K.
    cbv zeta in P. rewrite <- Er' in P, K. destruct P as (HI2 & Eh2 & Eb2 & Em2 & _).
    exists r, (place st r asize), (l1 ++ placed s asize ++ l2).
    split; [reflexivity|]. split; [exact HI2|]. split; [exact Eh2|]. split; [exact Em2|].
    split; [apply stays_placed|]. split; [|split; [intros; lia|split; [intros _; split|]]].
    + apply kept_mono with (2 := K). apply stays_placed.
    + eexists. split; [rewrite Er'; apply blk_placed|]. destruct (16 <=? s - asize); lia.
    + intros s0 Hs0.
      destruct (seg_sep _ _ _ _ _ _ _ _ _ (t_seg _ _ Ht) Hbr Hs0) as [(_ & _ & E) | [? | ?]];
        [discriminate E| |].
      * lia.
      * pose proof (tiled_blk _ _ Ht _ _ _ Hs0) as ((? & _) & _). lia.
    + apply no_adj_placed.
Qed.

End Alloc.

Import Alloc.

Module Bytes.

Lemma byte_of low b high k :
  0 <= k -> 0 <= low < 2 ^ k -> 0 <= b < 256 ->
  ((low + 2 ^ k * (b + 256 * high)) / 2 ^ k) mod 256 = b.
Proof.
  intros Hk Hl Hb. assert (0 < 2 ^ k) by (apply Z.pow_pos_nonneg; lia).
  rewrite (Z.mul_comm (2 ^ k)), Z.div_add by lia. rewrite Z.div_small by lia.
  rewrite Z.add_0_l, (Z.mul_comm 256), Z.mod_add by lia.
  apply Z.mod_small. exact Hb.
Qed.

(** The bytes of a 64-bit word, least significant first. *)
Lemma load64_byte m a i :
  0 <= i < 8 -> (load64 m a / 2 ^ (8 * i)) mod 256 = load8 m (a + i).
Proof.
  intros Hi. unfold load64, load32.
  replace (a + 4 + 1) with (a + 5) by lia. replace (a + 4 + 2) with (a + 6) by lia.
  replace (a + 4 + 3) with (a + 7) by lia.
  pose proof (load8_range m a) as R0. pose proof (load8_range m (a + 1)) as R1.
  pose proof (load8_range m (a + 2)) as R2. pose proof (load8_range m (a + 3)) as R3.
  pose proof (load8_range m (a + 4)) as R4. pose proof (load8_range m (a + 5)) as R5.
  pose proof (load8_range m (a + 6)) as R6. pose proof (load8_range m (a + 7)) as R7.
  set (b0 := load8 m a) in *. set (b1 := load8 m (a + 1)) in *.
  set (b2 := load8 m (a + 2)) in *. set (b3 := load8 m (a + 3)) in *.
  set (b4 := load8 m (a + 4)) in *. set (b5 := load8 m (a + 5)) in *.
  set (b6 := load8 m (a + 6)) in *. set (b7 := load8 m (a + 7)) in *.
  assert (Hc : i = 0 \/ i = 1 \/ i = 2 \/ i = 3 \/ i = 4 \/ i = 5 \/ i = 6 \/ i = 7) by lia.
  change (2 ^ 8) with 256. change (2 ^ 16) with 65536. change (2 ^ 24) with 16777216.
  change (2 ^ 32) with 4294967296.
  destruct Hc as [-> | [-> | [-> | [-> | [-> | [-> | [-> | ->]]]]]]].
  - rewrite Z.add_0_r. fold b0.
    replace (b0 + 256 * b1 + 65536 * b2 + 16777216 * b3
             + 4294967296 * (b4 + 256 * b5 + 65536 * b6 + 16777216 * b7))
      with (0 + 2 ^ (8 * 0) * (b0 + 256 * (b1 + 256 * b2 + 65536 * b3 + 16777216 * b4
              + 4294967296 * b5 + 1099511627776 * b6 + 281474976710656 * b7)))
      by (change (2 ^ (8 * 0)) with 1; lia).
    apply byte_of; [lia|change (2 ^ (8 * 0)) with 1; lia|lia].
  - fold b1.
    replace (b0 + 256 * b1 + 65536 * b2 + 16777216 * b3
             + 4294967296 * (b4 + 256 * b5 + 65536 * b6 + 16777216 * b7))
      with (b0 + 2 ^ (8 * 1) * (b1 + 256 * (b2 + 256 * b3 + 65536 * b4
              + 16777216 * b5 + 4294967296 * b6 + 1099511627776 * b7)))
      by (change (2 ^ (8 * 1)) with 256; lia).
    apply byte_of; [lia|change (2 ^ (8 * 1)) with 256; lia|lia].
  - fold b2.
    replace (b0 + 256 * b1 + 65536 * b2 + 16777216 * b3
             + 4294967296 * (b4 + 256 * b5 + 65536 * b6 + 16777216 * b7))
      with ((b0 + 256 * b1) + 2 ^ (8 * 2) * (b2 + 256 * (b3 + 256 * b4
              + 65536 * b5 + 16777216 * b6 + 4294967296 * b7)))
      by (change (2 ^ (8 * 2)) with 65536; lia).
    apply byte_of; [lia|change (2 ^ (8 * 2)) with 65536; lia|lia].
  - fold b3.
    replace (b0 + 256 * b1 + 65536 * b2 + 16777216 * b3
             + 4294967296 * (b4 + 256 * b5 + 65536 * b6 + 16777216 * b7))
      with ((b0 + 256 * b1 + 65536 * b2) + 2 ^ (8 * 3) * (b3 + 256 * (b4 + 256 * b5
              + 65536 * b6 + 16777216 * b7)))
      by (change (2 ^ (8 * 3)) with 16777216; lia).
    apply byte_of; [lia|change (2 ^ (8 * 3)) with 16777216; lia|lia].
  - fold b4.
    replace (b0 + 256 * b1 + 65536 * b2 + 16777216 * b3
             + 4294967296 * (b4 + 256 * b5 + 65536 * b6 + 16777216 * b7))
      with ((b0 + 256 * b1 + 65536 * b2 + 16777216 * b3)
            + 2 ^ (8 * 4) * (b4 + 256 * (b5 + 256 * b6 + 65536 * b7)))
      by (change (2 ^ (8 * 4)) with 4294967296; lia).
    apply byte_of; [lia|change (2 ^ (8 * 4)) with 4294967296; lia|lia].
  - fold b5.
    replace (b0 + 256 * b1 + 65536 * b2 + 16777216 * b3
             + 4294967296 * (b4 + 256 * b5 + 65536 * b6 + 16777216 * b7))
      with ((b0 + 256 * b1 + 65536 * b2 + 16777216 * b3 + 4294967296 * b4)
            + 2 ^ (8 * 5) * (b5 + 256 * (b6 + 256 * b7)))
      by (change (2 ^ (8 * 5)) with 1099511627776; lia).
    apply byte_of; [lia|change (2 ^ (8 * 5)) with 1099511627776; lia|lia].
  - fold b6.
    replace (b0 + 256 * b1 + 65536 * b2 + 16777216 * b3
             + 4294967296 * (b4 + 256 * b5 + 65536 * b6 + 16777216 * b7))
      with ((b0 + 256 * b1 + 65536 * b2 + 16777216 * b3 + 4294967296 * b4
             + 1099511627776 * b5)
            + 2 ^ (8 * 6) * (b6 + 256 * b7))
      by (change (2 ^ (8 * 6)) with 281474976710656; lia).
    apply byte_of; [lia|change (2 ^ (8 * 6)) with 281474976710656; lia|lia].
  - fold b7.
    replace (b0 + 256 * b1 + 65536 * b2 + 16777216 * b3
             + 4294967296 * (b4 + 256 * b5 + 65536 * b6 + 16777216 * b7))
      with ((b0 + 256 * b1 + 65536 * b2 + 16777216 * b3 + 4294967296 * b4
             + 1099511627776 * b5 + 281474976710656 * b6)
            + 2 ^ (8 * 7) * (b7 + 256 * 0))
      by (change (2 ^ (8 * 7)) with 72057594037927936; lia).
    apply byte_of; [lia|change (2 ^ (8 * 7)) with 72057594037927936; lia|lia].
Qed.

(** Writing a word read elsewhere copies its eight bytes. *)
Lemma load8_PUT_GET m m0 d s i :
  0 <= i < 8 -> load8 (PUT m d (GET m0 s)) (d + i) = load8 m0 (s + i).
Proof.
  intros Hi. unfold PUT, GET. rewrite load8_store64_in by exact Hi.
  apply load64_byte. exact Hi.
Qed.

(** The inner bytes of any block lie clear of the list heads, of the links
    of free blocks and of every boundary tag. *)
Lemma inner_frame st0 bs (L T : Z -> Prop) m m' :
  tiled st0 bs ->
  heap_frame (heap st0) L T m m' ->
  (forall d, L d -> free_at (heap st0) bs d) ->
  (forall c, T c -> tags_of (heap st0) bs c \/ mem_brk st0 - 8 <= c) ->
  forall x s b a, blk (heap st0) bs x s b -> inner x s b a -> m' a = m a.
Proof.
  intros Ht Hfr HL HT x s b a Hx Ha. unfold inner in Ha.
  pose proof (tiled_blk _ _ Ht _ _ _ Hx) as ((Hs16 & _ & _) & _ & _ & Hlo & Hhi & _).
  pose proof (t_seg _ _ Ht) as Sg. pose proof (t_base _ _ Ht) as Hb.
  assert (Hb0 : 0 <= (if b then 0 else 8)) by (destruct b; lia).
  apply Hfr.
  - unfold in_slots, FULL_HEAP. change ((NO_LISTS + 1) * WSIZE) with 96.
    change (NO_LISTS * WSIZE) with 88. lia.
  - intros d Hd Hr. destruct (HL d Hd) as (sd & Hbd).
    pose proof (tiled_blk _ _ Ht _ _ _ Hbd) as ((Hd16 & _) & _).
    destruct (seg_sep _ _ _ _ _ _ _ _ _ Sg Hx Hbd) as [(E1 & _ & E) | [? | ?]];
      [subst b; lia|lia|lia].
  - intros c Hc Hr. destruct (HT c Hc) as [(y & sy & b' & Hy & Ey) | Hge]; [|lia].
    pose proof (tiled_blk _ _ Ht _ _ _ Hy) as ((Hy16 & _) & _).
    destruct (seg_sep _ _ _ _ _ _ _ _ _ Sg Hx Hy) as [(E1 & E2 & _) | [? | ?]]; lia.
Qed.

(** Writing inside a block's inner bytes disturbs neither the heap
    structure nor the other blocks. *)
Lemma inner_write st bs x s b m' :
  Inv st bs -> blk (heap st) bs x s b ->
  (forall a, ~ inner x s b a -> m' a = mem st a) ->
  Inv (set_mem st m') bs
  /\ forall y sy by_ a, blk (heap st) bs y sy by_ -> y <> x -> inner y sy by_ a ->
       m' a = mem st a.
Proof.
  intros [Ht Hok] Hx Hout. unfold inner in Hout.
  pose proof (tiled_blk _ _ Ht _ _ _ Hx) as ((Hs16 & _ & _) & _ & _ & Hlo & Hhi & _).
  pose proof (t_seg _ _ Ht) as Sg. pose proof (t_base _ _ Ht) as Hb.
  pose proof (t_brk _ _ Ht) as Ebrk. pose proof (tiled_total _ _ Ht) as TT.
  assert (Hb0 : 0 <= (if b then 0 else 8) <= 8) by (destruct b; lia).
  split; [split|].
  - apply (tiled_ext st (set_mem st m') bs Ht); try reflexivity.
    intros c Hc. cbn [mem set_mem]. unfold GET_INT. apply load32_ext. intros a Ha.
    apply Hout. destruct Hc as [-> | [-> | [-> | (y & sy & b' & Hy & Ey)]]]; try lia.
    pose proof (tiled_blk _ _ Ht _ _ _ Hy) as ((Hy16 & _) & _).
    destruct (seg_sep _ _ _ _ _ _ _ _ _ Sg Hx Hy) as [(E1 & E2 & _) | [? | ?]]; lia.
  - cbn [mem heap set_mem]. apply (lists_ok_ext (mem st) m' (heap st) _ Hok).
    + intros i Hi. pose proof (slot_range (heap st) i Hi).
      unfold GET. apply load64_ext. intros a Ha. apply Hout. lia.
    + intros y (sy & Hy). pose proof (tiled_blk _ _ Ht _ _ _ Hy) as ((Hy16 & _) & _).
      split.
      * unfold GET. apply load64_ext. intros a Ha. apply Hout.
        destruct (seg_sep _ _ _ _ _ _ _ _ _ Sg Hx Hy) as [(E1 & _ & E) | [? | ?]];
          [subst b; lia|lia|lia].
      * unfold GET_INT, HDR, THIS, FULL_HDR, WSIZE. apply load32_ext. intros a Ha.
        apply Hout.
        destruct (seg_sep _ _ _ _ _ _ _ _ _ Sg Hx Hy) as [(E1 & _ & E) | [? | ?]]; lia.
  - intros y sy b' a Hy Hne Ha. unfold inner in Ha. apply Hout.
    pose proof (tiled_blk _ _ Ht _ _ _ Hy) as ((Hy16 & _) & _).
    assert (0 <= (if b' then 0 else 8)) by (destruct b'; lia).
    destruct (seg_sep _ _ _ _ _ _ _ _ _ Sg Hx Hy) as [(E1 & _) | [? | ?]]; lia.
Qed.

End Bytes.

Import Bytes.

Module Resize.

Lemma finish_spec st2 la sb lb x asize s buff :
  Inv st2 (la ++ (sb, false) :: lb) ->
  16 <= asize -> asize mod 8 = 0 -> asize <= sb -> 16 <= s < 2 ^ 32 ->
  let bp := heap st2 + 8 + total la in
  let bs' := la ++ placed sb asize ++ lb in
  let st5 := realloc_finish st2 bp x asize s buff in
  Inv st5 bs'
  /\ heap st5 = heap st2 /\ mem_max_addr st5 = mem_max_addr st2
  /\ (forall i, 0 <= i < 8 -> load8 (mem st5) (bp + i) = (buff / 2 ^ (8 * i)) mod 256)
  /\ (forall i, 8 <= i < Z.min asize s - 8 ->
        load8 (mem st5) (bp + i) = load8 (mem st2) (x + i))
  /\ (forall y sy a, blk (heap st2) (la ++ (sb, false) :: lb) y sy true ->
        y <= a < y + sy - 8 -> mem st5 a = mem st2 a).
Proof.
  intros HI Ha16 Ha8 Hle Hs bp bs' st5.
  assert (Ebp : bp = heap st2 + 8 + total la) by reflexivity. clearbody bp.
  pose proof HI as [Ht _]. pose proof (read_blk st2 la sb false lb) as Hbp. rewrite <- Ebp in Hbp.
  pose proof (tiled_blk _ _ Ht _ _ _ Hbp) as ((Hsb16 & _ & Hsb) & _).
  set (len := Z.min asize s - 16).
  assert (Elen : u32 (u32 ((if asize <? s then asize else s) - WSIZE) - WSIZE) = len).
  { unfold len, WSIZE, u32. destruct (Z.ltb_spec asize s).
    - rewrite Z.min_l by lia. rewrite (Z.mod_small (asize - 8)) by lia.
      rewrite Z.mod_small; lia.
    - rewrite Z.min_r by lia. rewrite (Z.mod_small (s - 8)) by lia.
      rewrite Z.mod_small; lia. }
  assert (Hlen : 0 <= len /\ len + 16 <= asize) by (unfold len; lia).
  subst st5. unfold realloc_finish. cbv zeta. rewrite Elen.
  change (bp + WSIZE) with (bp + 8). change (x + WSIZE) with (x + 8).
  set (m3 := memcpy (mem st2) (bp + 8) (x + 8) len) in *.
  (* the copy lands inside the free block *)
  destruct (inner_write st2 _ bp sb false m3 HI Hbp) as (HI3 & O3).
  { intros a Ha. unfold m3. apply memcpy_out. unfold inner in Ha. lia. }
  pose proof (place_spec (set_mem st2 m3) la sb lb asize HI3 Ha16 Ha8 Hle) as P.
  pose proof (place_keeps (set_mem st2 m3) la sb lb asize HI3 Ha16 Ha8 Hle) as K.
  cbv zeta in P. cbn [heap mem set_mem] in P, K. rewrite <- Ebp in P, K.
  set (st4 := place (set_mem st2 m3) bp asize) in *. clearbody st4.
  destruct P as (HI4 & Eh4 & Eb4 & Em4 & _). fold bs' in HI4, K.
  assert (B4 : blk (heap st4) bs' bp (if 16 <=? sb - asize then asize else sb) true).
  { rewrite Eh4, Ebp. apply blk_placed. }
  set (s' := if 16 <=? sb - asize then asize else sb) in *.
  assert (Hs' : asize <= s') by (unfold s'; destruct (16 <=? sb - asize); lia).
  destruct (inner_write st4 bs' bp s' true (PUT (mem st4) bp buff) HI4 B4) as (HI5 & O5).
  { intros a Ha. unfold PUT. apply store64_out. unfold inner in Ha. lia. }
  split; [exact HI5|]. split; [exact Eh4|]. split; [exact Em4|].
  cbn [mem set_mem]. split; [|split].
  - intros i Hi. unfold PUT. apply load8_store64_in. exact Hi.
  - intros i Hi. unfold load8 at 1. unfold PUT. rewrite store64_out by lia.
    rewrite (K bp s' (bp + i)) by (try lia; rewrite <- Eh4; exact B4).
    unfold m3, memcpy.
    destruct (Z.leb_spec (bp + 8) (bp + i)), (Z.ltb_spec (bp + i) (bp + 8 + len));
      cbn [andb]; try (unfold len in *; lia).
    replace (x + 8 + (bp + i - (bp + 8))) with (x + i) by lia.
    apply Z.mod_small. apply load8_range.
  - intros y sy a Hy Ha.
    assert (Hne : y <> bp).
    { intros ->. destruct (seg_sep _ _ _ _ _ _ _ _ _ (t_seg _ _ Ht) Hy Hbp)
        as [(_ & _ & E) | [? | ?]]; [discriminate E|lia|lia]. }
    assert (Hy' : blk (heap st2) bs' y sy true) by (apply stays_placed; exact Hy).
    rewrite (O5 y sy true a) by (try rewrite Eh4; unfold inner; try assumption; lia).
    rewrite (K y sy a Hy' Ha).
    apply (O3 y sy true a Hy Hne). unfold inner. lia.
Qed.

End Resize.

Import Resize.

Module Resize2.

Lemma realloc_unfold fuel st oldptr size :
  size <> 0 -> oldptr <> 0 ->
  realloc fuel st oldptr size =
  match find_fit fuel (free st oldptr) (adjust size) with
  | None => None
  | Some r =>
      let (bp, st2) :=
        if r =? 0 then grow_heap (free st oldptr) (MAX (adjust size) PAGESIZE / WSIZE)
        else (r, free st oldptr) in
      if bp =? 0 then Some (0, st2)
      else Some (bp, realloc_finish st2 bp oldptr (adjust size)
                       (GET_SIZE (mem st) (HDR oldptr)) (GET (mem st) oldptr))
  end.
Proof.
  intros H1 H2. unfold realloc, realloc_finish.
  destruct (Z.eqb_spec size 0) as [? | _]; [contradiction|].
  destruct (Z.eqb_spec oldptr 0) as [? | _]; [contradiction|].
  reflexivity.
Qed.

Lemma blk_flip h l1 s l2 y sy :
  blk h (l1 ++ (s, true) :: l2) y sy true -> y <> h + 8 + total l1 ->
  blk h (l1 ++ (s, false) :: l2) y sy true.
Proof.
  intros H Hne.
  destruct (blk_replace h l1 [(s, true)] [(s, false)] l2 y sy true eq_refl H) as [H' | H'].
  - cbn [starts In] in H'. destruct H' as [E | []]. injection E as E _. lia.
  - exact H'.
Qed.

Lemma split_last_prefix st l1 s a l2 :
  tiled st (l1 ++ (s, a) :: l2) -> 0 <= snd (split_last l1).
Proof.
  intros Ht. destruct (last_cases l1) as [E | [(l' & t & E) | (l' & t & E)]].
  - rewrite E. cbn. lia.
  - rewrite E, split_last_alloc. cbn. lia.
  - destruct (read_prev_blk _ _ _ _ _ Ht _ _ _ E) as (_ & _ & _ & _ & H16).
    rewrite E, split_last_free. cbn [snd]. lia.
Qed.

Lemma merged_blk h l1 s l2 :
  blk h (coalesced l1 s l2) (h + 8 + total (fst (split_last l1)))
      (snd (split_last l1) + s + snd (split_first l2)) false.
Proof. unfold coalesced, blk. apply in_starts_mid. Qed.

(** [realloc] of the allocated block between [l1] and [l2] to a sane size. *)
Lemma realloc_spec st l1 s l2 size :
  Inv st (l1 ++ (s, true) :: l2) -> sane size ->
  let h := heap st in
  let x := heap st + 8 + total l1 in
  exists fuel0, forall fuel, (fuel0 <= fuel)%nat ->
  exists p st' bs', realloc fuel st x size = Some (p, st')
    /\ Inv st' bs' /\ heap st' = h /\ mem_max_addr st' = mem_max_addr st
    /\ (forall y sy, blk h (l1 ++ (s, true) :: l2) y sy true -> y <> x ->
          blk h bs' y sy true /\ forall a, y <= a < y + sy - 8 -> mem st' a = mem st a)
    /\ (p <> 0 ->
          (exists s', blk h bs' p s' true /\ size + 8 <= s')
          /\ forall i, 0 <= i < Z.min (adjust size) s - 8 ->
               load8 (mem st') (p + i) = load8 (mem st) (x + i))
    /\ (p = 0 -> bs' = coalesced l1 s l2)
    /\ (no_adj (l1 ++ (s, true) :: l2) -> no_adj bs').
Proof.
  intros HI Hsane h x. pose proof HI as [Ht Hok].
  assert (Eh : h = heap st) by reflexivity. clearbody h.
  assert (Ex : x = h + 8 + total l1) by (rewrite Eh; reflexivity). clearbody x.
  destruct (adjust_sane size Hsane) as (Ha & Ha8 & Hsz).
  destruct (read_self _ _ _ _ _ Ht) as (Es & _). rewrite <- Eh, <- Ex in Es.
  destruct (read_bounds _ _ _ _ _ Ht) as (Hs16 & Hs8 & Ht1 & Ht2 & Htot).
  pose proof (t_base _ _ Ht) as Hb. rewrite <- Eh in Hb.
  (* the old block is freed *)
  pose proof (free_spec st l1 s l2 HI) as Fs. cbv zeta in Fs. rewrite <- Eh, <- Ex in Fs.
  destruct Fs as (HI1 & Eh1 & Eb1 & Em1 & Fr0).
  pose proof (tiled_retag st l1 [(s, true)] l2 s false Ht ltac:(discriminate) ltac:(cbn; lia))
    as T0. cbv zeta in T0.
  match type of T0 with tiled ?s0 _ => set (stg := s0) in * end.
  assert (Eg : heap stg = h) by (rewrite Eh; reflexivity). clearbody stg.
  rewrite <- Eg in Fr0.
  pose proof (inner_frame _ _ _ _ _ _ T0 Fr0 (fun d H => H) (fun c H => or_introl H)) as K0.
  rewrite Eg in K0. clear T0 Fr0 Eg stg.
  remember (free st x) as st1 eqn:Est1.
  pose proof HI1 as [Ht1' Hok1].
  (* its bytes, the first word apart, are still there *)
  assert (Kx : forall a, x + 8 <= a < x + s - 8 -> mem st1 a = mem st a).
  { intros a Ha'. apply (K0 x s false a); [rewrite Ex; apply in_starts_mid|].
    unfold inner. lia. }
  assert (Oth0 : forall y sy, blk h (l1 ++ (s, true) :: l2) y sy true -> y <> x ->
            blk h (coalesced l1 s l2) y sy true
            /\ forall a, y <= a < y + sy - 8 -> mem st1 a = mem st a).
  { intros y sy Hy Hne. split.
    - apply (stays_coalesced h l1 s true l2 y sy Hy). lia.
    - intros a Ha'. apply (K0 y sy true a); [apply blk_flip; [exact Hy|lia]|].
      unfold inner. lia. }
  pose proof (merged_blk h l1 s l2) as HM.
  pose proof (split_last_total l1) as EL. pose proof (split_first_total l2) as ER.
  pose proof (split_last_prefix _ _ _ _ _ Ht) as HL0.
  assert (HR0 : 0 <= snd (split_first l2)).
  { destruct l2 as [|[t2 [|]] r]; cbn [split_first snd]; try lia.
    destruct (read_next_blk _ _ _ _ _ Ht _ _ _ eq_refl) as (_ & _ & _ & ?). lia. }
  (* what is left to do once the new block is known *)
  assert (Fin : forall st2 la sb lb,
    Inv st2 (la ++ (sb, false) :: lb) -> heap st2 = h -> mem_max_addr st2 = mem_max_addr st ->
    adjust size <= sb ->
    (forall a, x + 8 <= a < x + s - 8 -> mem st2 a = mem st a) ->
    (forall y sy, blk h (l1 ++ (s, true) :: l2) y sy true -> y <> x ->
       blk h (la ++ (sb, false) :: lb) y sy true
       /\ forall a, y <= a < y + sy - 8 -> mem st2 a = mem st a) ->
    let p := h + 8 + total la in
    let st' := realloc_finish st2 p x (adjust size) s (GET (mem st) x) in
    exists bs', Inv st' bs' /\ heap st' = h /\ mem_max_addr st' = mem_max_addr st
    /\ (forall y sy, blk h (l1 ++ (s, true) :: l2) y sy true -> y <> x ->
          blk h bs' y sy true /\ forall a, y <= a < y + sy - 8 -> mem st' a = mem st a)
    /\ (exists s', blk h bs' p s' true /\ size + 8 <= s')
    /\ (forall i, 0 <= i < Z.min (adjust size) s - 8 ->
         load8 (mem st') (p + i) = load8 (mem st) (x + i))
    /\ (no_adj (la ++ (sb, false) :: lb) -> no_adj bs')).
  { intros st2 la sb lb HI2 Eh2 Em2 Hle Kx2 Oth2 p st'.
    pose proof (finish_spec st2 la sb lb x (adjust size) s (GET (mem st) x) HI2
                  ltac:(lia) Ha8 Hle ltac:(lia)) as F. cbv zeta in F.
    rewrite Eh2 in F. fold p in F. fold st' in F. clearbody st'.
    destruct F as (HI5 & Eh5 & Em5 & C0 & C1 & O5).
    exists (la ++ placed sb (adjust size) ++ lb).
    split; [exact HI5|]. split; [exact Eh5|]. split; [congruence|]. split; [|split; [|split]].
    - intros y sy Hy Hne. destruct (Oth2 y sy Hy Hne) as [Hy2 Ky2]. split.
      + apply stays_placed. exact Hy2.
      + intros a Ha'. rewrite (O5 y sy a Hy2 Ha'). apply Ky2. exact Ha'.
    - eexists. split; [apply blk_placed|]. destruct (16 <=? sb - adjust size); lia.
    - intros i Hi. destruct (Z.lt_ge_cases i 8) as [Hlo | Hhi].
      + rewrite C0 by lia. unfold GET. apply load64_byte. lia.
      + rewrite C1 by lia. apply load8_ext. apply Kx2. lia.
    - apply no_adj_placed. }
  destruct (find_fit_spec st1 _ (adjust size) Hok1) as (fuel0 & Hfit).
  exists fuel0. intros fuel Hfuel. destruct (Hfit fuel Hfuel) as (r & Er & Hr).
  rewrite realloc_unfold by (try lia; destruct Hsane; lia).
  rewrite <- Est1, Er, Es. rewrite Eh1 in Hr.
  destruct Hr as [-> | ((sb & Hbr) & Hle)].
  - (* no fit: the arena grows *)
    cbn [Z.eqb]. destruct (extend_words (adjust size) Ha Ha8) as (Hw1 & Hw2 & Hw3).
    set (words := MAX (adjust size) PAGESIZE / WSIZE) in *. clearbody words.
    destruct (Z.lt_ge_cases (mem_max_addr st1) (mem_brk st1 + grow_size words))
      as [Hfull | Hroom].
    + rewrite grow_heap_full by lia. cbn [Z.eqb].
      exists 0, st1, (coalesced l1 s l2).
      split; [reflexivity|]. split; [exact HI1|]. split; [exact Eh1|]. split; [exact Em1|].
      split; [exact Oth0|]. split; [intros X; contradiction|]. split; [reflexivity|].
      apply no_adj_coalesced.
    + pose proof (grow_heap_spec st1 _ words HI1 Hw1 Hw2 Hroom) as G. cbv zeta in G.
      destruct (grow_heap st1 words) as [bp st2]. cbn [fst snd] in G. rewrite Eh1 in G.
      destruct G as (Ebp & HI2 & Eh2 & Eb2 & Em2 & Fr1).
      rewrite <- Eh1 in Fr1.
      pose proof (inner_frame _ _ _ _ _ _ Ht1' Fr1 (fun d H => H) (fun c H => H)) as K1.
      rewrite Eh1 in K1.
      pose proof (tiled_total _ _ Ht1') as TT1.
      pose proof (split_last_total (coalesced l1 s l2)) as ET.
      pose proof (split_last_nonneg _ _ Ht1') as Hn.
      unfold coalesced in HI2 at 1. cbn [split_first fst snd] in HI2.
      set (la := fst (split_last (coalesced l1 s l2))) in *.
      set (t := snd (split_last (coalesced l1 s l2))) in *.
      assert (Hla : 0 <= total la).
      { destruct HI2 as [T2 _]. destruct (read_bounds _ _ _ _ _ T2) as (_ & _ & ? & _).
        assumption. }
      destruct (Z.eqb_spec bp 0) as [E0 | Hbp0]; [lia|].
      destruct (Fin st2 la (t + grow_size words + 0) [] HI2 Eh2 ltac:(congruence) ltac:(lia))
        as (bs' & HI5 & Eh5 & Em5 & O5 & A5 & C5 & N5).
      { intros a Ha'. rewrite (K1 _ _ _ a HM) by (unfold inner; lia). apply Kx. exact Ha'. }
      { intros y sy Hy Hne. destruct (Oth0 y sy Hy Hne) as [Hy1 Ky1]. split.
        - pose proof (tiled_blk _ _ Ht1' _ _ _ ltac:(rewrite Eh1; exact Hy1))
            as ((? & _) & _ & _ & _ & ? & _).
          pose proof (t_brk _ _ Ht1') as Ebrk. rewrite Eh1 in Ebrk.
          apply (stays_coalesced h (coalesced l1 s l2) (grow_size words) false [] y sy); [|lia].
          change (coalesced l1 s l2 ++ [(grow_size words, false)])
            with (coalesced l1 s l2 ++ [(grow_size words, false)] ++ []).
          apply blk_app. left. exact Hy1.
        - intros a Ha'. rewrite (K1 _ _ _ a Hy1) by (unfold inner; lia). apply Ky1. exact Ha'. }
      rewrite <- Ebp in *.
      exists bp, (realloc_finish st2 bp x (adjust size) s (GET (mem st) x)), bs'.
      split; [reflexivity|]. split; [exact HI5|]. split; [exact Eh5|]. split; [exact Em5|].
      split; [exact O5|]. split; [intros _; split; [exact A5|exact C5]|].
      split; [intros; lia|]. intros Hna. apply N5.
      apply (no_adj_grown _ (grow_size words) (no_adj_coalesced _ _ _ Hna)).
  - (* a fit was found *)
    pose proof (tiled_blk _ _ Ht1' _ _ _ ltac:(rewrite Eh1; exact Hbr))
      as ((Hsb16 & _) & _ & _ & Hlo & _). rewrite Eh1 in Hlo.
    rewrite (tiled_size _ _ Ht1' _ _ _ ltac:(rewrite Eh1; exact Hbr)) in Hle.
    destruct (Z.eqb_spec r 0) as [E0 | Hr0]; [lia|].
    destruct (Z.eqb_spec r 0) as [E0 | _]; [lia|].
    destruct (in_starts_split _ _ _ _ _ Hbr) as (la & lb & Ebs & Er').
    rewrite Ebs in HI1.
    destruct (Fin st1 la sb lb HI1 Eh1 Em1 Hle Kx)
      as (bs' & HI5 & Eh5 & Em5 & O5 & A5 & C5 & N5).
    { intros y sy Hy Hne. rewrite <- Ebs. apply Oth0; assumption. }
    rewrite <- Er' in *.
    exists r, (realloc_finish st1 r x (adjust size) s (GET (mem st) x)), bs'.
    split; [reflexivity|]. split; [exact HI5|]. split; [exact Eh5|]. split; [exact Em5|].
    split; [exact O5|]. split; [intros _; split; [exact A5|exact C5]|].
    split; [intros; lia|]. intros Hna. apply N5. rewrite <- Ebs.
    apply (no_adj_coalesced _ _ _ Hna).
Qed.

End Resize2.

Import Resize2.

Module Zeroed.

(** The zeroing loop of [calloc] ends, writes only the words it is meant
    to, and leaves zero bytes. *)
Lemma calloc_loop_spec bp n : 0 <= n -> n + 4 < 2 ^ 32 ->
  forall fuel m i, 0 <= i -> i mod 4 = 0 -> i <= 4 * ((n + 3) / 4) ->
  4 * ((n + 3) / 4) - i < 4 * Z.of_nat fuel ->
  exists m', calloc_loop fuel m bp i n = Some m'
    /\ (forall a, ~ (bp + i <= a < bp + 4 * ((n + 3) / 4)) -> m' a = m a)
    /\ (forall a, bp + i <= a < bp + 4 * ((n + 3) / 4) -> m' a = 0).
Proof.
  intros Hn0 Hn. pose proof (Z.div_mod (n + 3) 4 ltac:(lia)) as Dn.
  pose proof (Z.mod_pos_bound (n + 3) 4 ltac:(lia)) as Rn.
  induction fuel as [|fuel IH]; intros m i Hi0 Hi4 Hiu Hf; [lia|].
  pose proof (Z.div_mod i 4 ltac:(lia)) as Di. rewrite Hi4 in Di.
  cbn [calloc_loop]. destruct (Z.ltb_spec i n) as [Hlt | Hge].
  - assert (Eu : u32 (i + 4) = i + 4) by (unfold u32; apply Z.mod_small; lia).
    rewrite Eu.
    destruct (IH (PUT_INT m (bp + i) 0) (i + 4)) as (m' & E & Hout & Hin); try lia.
    { rewrite Z.add_mod, Hi4 by lia. reflexivity. }
    exists m'. split; [exact E|]. split.
    + intros a Ha. rewrite Hout by lia. unfold PUT_INT. apply store32_out. lia.
    + intros a Ha. destruct (Z.lt_ge_cases a (bp + i + 4)) as [Hlo | Hhi].
      * rewrite Hout by lia. unfold PUT_INT.
        replace a with (bp + i + (a - (bp + i))) at 1 by lia.
        rewrite store32_in by lia. rewrite Z.div_0_l by (apply Z.pow_nonzero; lia).
        reflexivity.
      * apply Hin. lia.
  - exists m. split; [reflexivity|]. split; [reflexivity|]. intros a Ha. lia.
Qed.

(** [calloc] for a sane number of bytes: with enough fuel it returns, and
    it returns null; the heap stays well formed and the allocated blocks
    stay as they are; the block it took from [malloc] is zeroed, and stays
    allocated. *)
Lemma calloc_spec st bs nmemb size :
  Inv st bs -> sane (u64 (nmemb * size)) ->
  exists fuel0, forall fuel, (fuel0 <= fuel)%nat ->
  exists st' bs', calloc fuel st nmemb size = Some (0, st')
    /\ Inv st' bs' /\ heap st' = heap st /\ mem_max_addr st' = mem_max_addr st
    /\ stays (heap st) bs bs' /\ kept (heap st) bs (mem st) (mem st')
    /\ (st' = st
        \/ exists p s, blk (heap st) bs' p s true /\ (forall s0, ~ blk (heap st) bs p s0 true)
             /\ forall a, p <= a < p + u64 (nmemb * size) -> mem st' a = 0)
    /\ (no_adj bs -> no_adj bs').
Proof.
  intros HI Hsane. set (n := u64 (nmemb * size)) in *.
  destruct (malloc_spec st bs n HI Hsane) as (fuel0 & Hm).
  exists (fuel0 + Z.to_nat n + 1)%nat. intros fuel Hfuel.
  destruct (Hm fuel ltac:(lia)) as (p & st1 & bs' & Em & HI1 & Eh1 & Emx & St & Kp & H0 & Hp & Hna).
  unfold calloc. fold n. rewrite Em.
  destruct (Z.eqb_spec p 0) as [E0 | Hne]; cbn [negb].
  - exists st1, bs'. split; [reflexivity|]. split; [exact HI1|]. split; [exact Eh1|].
    split; [exact Emx|]. split; [exact St|]. split; [exact Kp|].
    split; [left; apply H0; exact E0|exact Hna].
  - destruct (Hp Hne) as ((s & Hb & Hs) & Fresh). destruct Hsane as [Hn0 Hn1].
    destruct (calloc_loop_spec p n ltac:(lia) ltac:(lia) fuel (mem st1) 0)
      as (m' & El & Hout & Hin); try lia.
    { reflexivity. }
    { pose proof (Z.div_mod (n + 3) 4 ltac:(lia)).
      pose proof (Z.mod_pos_bound (n + 3) 4 ltac:(lia)). lia. }
    { pose proof (Z.div_mod (n + 3) 4 ltac:(lia)).
      pose proof (Z.mod_pos_bound (n + 3) 4 ltac:(lia)). lia. }
    rewrite El. pose proof HI1 as [Ht1 _]. rewrite <- Eh1 in Hb.
    pose proof (tiled_blk _ _ Ht1 _ _ _ Hb) as ((_ & Hs8 & _) & _).
    assert (Hcap : 4 * ((n + 3) / 4) <= s - 8).
    { pose proof (Z.div_mod (n + 3) 4 ltac:(lia)).
      pose proof (Z.mod_pos_bound (n + 3) 4 ltac:(lia)).
      pose proof (Z.div_mod s 8 ltac:(lia)). lia. }
    assert (Hcap' : n <= 4 * ((n + 3) / 4)).
    { pose proof (Z.div_mod (n + 3) 4 ltac:(lia)).
      pose proof (Z.mod_pos_bound (n + 3) 4 ltac:(lia)). lia. }
    destruct (inner_write st1 bs' p s true m' HI1 Hb) as (HI2 & O2).
    { intros a Ha. apply Hout. unfold inner in Ha. lia. }
    exists (set_mem st1 m'), bs'. split; [reflexivity|]. split; [exact HI2|].
    split; [exact Eh1|]. split; [exact Emx|]. split; [exact St|]. split; [|split; [|exact Hna]].
    + intros y sy a Hy Ha. cbn [mem set_mem].
      rewrite (O2 y sy true a).
      * apply (Kp y sy a Hy Ha).
      * rewrite Eh1. apply St. exact Hy.
      * intros ->. exact (Fresh _ Hy).
      * unfold inner. lia.
    + right. exists p, s. rewrite Eh1 in Hb. split; [exact Hb|]. split; [exact Fresh|].
      intros a Ha. cbn [mem set_mem]. apply Hin. lia.
Qed.

End Zeroed.

Import Zeroed.

(** ** More fuel never changes a result *)

Module Fuel.

Lemma first_fit_loop_mono m h asize : forall fuel fuel' bp r,
  (fuel <= fuel')%nat ->
  first_fit_loop fuel m h asize bp = Some r -> first_fit_loop fuel' m h asize bp = Some r.
Proof.
  induction fuel as [|fuel IH]; intros fuel' bp r Hle H; [discriminate H|].
  destruct fuel' as [|fuel']; [lia|]. cbn [first_fit_loop] in *.
  destruct (asize <=? GET_SIZE m (HDR bp)); [exact H|].
  destruct (negb (NEXTP h (GET m bp) =? 0)); [|exact H].
  apply (IH fuel'); [lia|exact H].
Qed.

Lemma best_fit_loop_mono m h asize : forall fuel fuel' bp p b r,
  (fuel <= fuel')%nat ->
  best_fit_loop fuel m h asize bp p b = Some r ->
  best_fit_loop fuel' m h asize bp p b = Some r.
Proof.
  induction fuel as [|fuel IH]; intros fuel' bp p b r Hle H; [discriminate H|].
  destruct fuel' as [|fuel']; [lia|]. cbn [best_fit_loop] in *.
  destruct (if (asize <=? GET_SIZE m (HDR bp)) && (GET_SIZE m (HDR bp) <=? b)
            then (bp, GET_SIZE m (HDR bp)) else (p, b)) as [p1 b1].
  destruct (negb (NEXTP h (GET m bp) =? 0)); [|exact H].
  apply (IH fuel'); [lia|exact H].
Qed.

Lemma find_fit_bins_mono m h asize fuel fuel' : (fuel <= fuel')%nat ->
  forall n x p b r,
  find_fit_bins fuel n x m h asize p b = Some r ->
  find_fit_bins fuel' n x m h asize p b = Some r.
Proof.
  intros Hle. induction n as [|n IH]; intros x p b r H; [exact H|].
  cbn [find_fit_bins] in *.
  destruct (GET m (FULL_HEAP h + x * WSIZE) =? 0); [apply IH; exact H|].
  destruct (x =? NO_LISTS - 1).
  - destruct (best_fit_loop fuel m h asize (GET m (FULL_HEAP h + x * WSIZE)) p b)
      as [[p1 b1]|] eqn:E; [|discriminate H].
    rewrite (best_fit_loop_mono _ _ _ _ _ _ _ _ _ Hle E). apply IH. exact H.
  - destruct (first_fit_loop fuel m h asize (GET m (FULL_HEAP h + x * WSIZE)))
      as [r1|] eqn:E; [|discriminate H].
    rewrite (first_fit_loop_mono _ _ _ _ _ _ _ Hle E).
    destruct (negb (r1 =? 0)); [exact H|apply IH; exact H].
Qed.

Lemma find_fit_mono fuel fuel' st asize r : (fuel <= fuel')%nat ->
  find_fit fuel st asize = Some r -> find_fit fuel' st asize = Some r.
Proof. intros Hle H. unfold find_fit in *. apply (find_fit_bins_mono _ _ _ fuel); assumption. Qed.

Lemma malloc_mono fuel fuel' st size r : (fuel <= fuel')%nat ->
  malloc fuel st size = Some r -> malloc fuel' st size = Some r.
Proof.
  intros Hle H. unfold malloc in *. destruct (size <=? 0); [exact H|].
  destruct (find_fit fuel st (adjust size)) as [bp|] eqn:E; [|discriminate H].
  rewrite (find_fit_mono _ _ _ _ _ Hle E). exact H.
Qed.

Lemma realloc_mono fuel fuel' st p size r : (fuel <= fuel')%nat ->
  realloc fuel st p size = Some r -> realloc fuel' st p size = Some r.
Proof.
  intros Hle H. unfold realloc in *. destruct (size =? 0); [exact H|].
  destruct (p =? 0); [apply (malloc_mono fuel); assumption|].
  destruct (find_fit fuel (free st p) (adjust size)) as [bp|] eqn:E; [|discriminate H].
  rewrite (find_fit_mono _ _ _ _ _ Hle E). exact H.
Qed.

Lemma calloc_loop_mono bp n : forall fuel fuel' m i r,
  (fuel <= fuel')%nat ->
  calloc_loop fuel m bp i n = Some r -> calloc_loop fuel' m bp i n = Some r.
Proof.
  induction fuel as [|fuel IH]; intros fuel' m i r Hle H; [discriminate H|].
  destruct fuel' as [|fuel']; [lia|]. cbn [calloc_loop] in *.
  destruct (i <? n); [|exact H]. apply (IH fuel'); [lia|exact H].
Qed.

Lemma calloc_mono fuel fuel' st nmemb size r : (fuel <= fuel')%nat ->
  calloc fuel st nmemb size = Some r -> calloc fuel' st nmemb size = Some r.
Proof.
  intros Hle H. unfold calloc in *.
  destruct (malloc fuel st (u64 (nmemb * size))) as [[bp st1]|] eqn:E; [|discriminate H].
  rewrite (malloc_mono _ _ _ _ _ Hle E).
  destruct (negb (bp =? 0)); [|exact H].
  destruct (calloc_loop fuel (mem st1) bp 0 (u64 (nmemb * size))) as [m|] eqn:E2;
    [|discriminate H].
  rewrite (calloc_loop_mono _ _ _ _ _ _ _ Hle E2). exact H.
Qed.

End Fuel.

Import Fuel.

Module Traces.

Lemma free_null st : free st 0 = st.
Proof. reflexivity. Qed.

Lemma malloc_zero fuel st : malloc fuel st 0 = Some (0, st).
Proof. reflexivity. Qed.

Lemma realloc_zero fuel st p : realloc fuel st p 0 = Some (0, free st p).
Proof. reflexivity. Qed.

Lemma realloc_null fuel st n : n <> 0 -> realloc fuel st 0 n = malloc fuel st n.
Proof.
  intros Hn. unfold realloc. destruct (Z.eqb_spec n 0) as [? | _]; [contradiction|].
  reflexivity.
Qed.

Lemma calloc_null fuel st k n r : calloc fuel st k n = Some r -> fst r = 0.
Proof.
  unfold calloc. destruct (malloc fuel st (u64 (k * n))) as [[bp st1]|]; [|discriminate].
  destruct (negb (bp =? 0)).
  - destruct (calloc_loop fuel (mem st1) bp 0 (u64 (k * n))); [|discriminate].
    intros E. injection E as <-. reflexivity.
  - intros E. injection E as <-. reflexivity.
Qed.

Lemma blk_aligned st bs p s a : tiled st bs -> blk (heap st) bs p s a -> p mod 8 = 0 /\ p <> 0.
Proof.
  intros Ht Hb. pose proof (tiled_blk _ _ Ht _ _ _ Hb) as (_ & _ & _ & ? & _ & ?).
  pose proof (t_base _ _ Ht). split; [assumption|lia].
Qed.

Lemma good_free st live rets p :
  good st live rets -> p = 0 \/ In p live ->
  good (free st p) (remove Z.eq_dec p live) rets.
Proof.
  intros (bs & HI & Hna & Hl & Hr) [-> | Hp].
  - rewrite free_null. exists bs. split; [exact HI|]. split; [exact Hna|]. split; [|exact Hr].
    intros q Hq. apply in_remove in Hq. apply Hl. apply Hq.
  - destruct (Hl p Hp) as (s & Hb).
    destruct (in_starts_split _ _ _ _ _ Hb) as (l1 & l2 & -> & Ep).
    pose proof (free_spec st l1 s l2 HI) as F. cbv zeta in F. rewrite <- Ep in F.
    destruct F as (HI' & Eh & _).
    exists (coalesced l1 s l2). split; [exact HI'|].
    split; [apply no_adj_coalesced; exact Hna|]. split; [|exact Hr].
    intros q Hq. apply in_remove in Hq. destruct Hq as [Hq Hne].
    destruct (Hl q Hq) as (sq & Hbq). exists sq. rewrite Eh.
    apply (stays_coalesced _ l1 s true l2 q sq Hbq). lia.
Qed.

Lemma good_malloc st live rets fuel n p st' :
  good st live rets -> n = 0 \/ sane n ->
  malloc fuel st n = Some (p, st') ->
  good st' (track p live) (p :: rets).
Proof.
  intros (bs & HI & Hna & Hl & Hr) [-> | Hn] E.
  - rewrite malloc_zero in E. injection E as <- <-.
    exists bs. split; [exact HI|]. split; [exact Hna|]. split; [exact Hl|].
    intros q [<- | Hq] Hne; [contradiction|]. apply Hr; assumption.
  - destruct (malloc_spec st bs n HI Hn) as (fuel0 & Hm).
    destruct (Hm (Nat.max fuel fuel0) ltac:(lia))
      as (p1 & st1 & bs' & E1 & HI1 & Eh1 & _ & St & _ & _ & Hp & Hna').
    rewrite (malloc_mono fuel (Nat.max fuel fuel0) _ _ _ (Nat.le_max_l _ _) E) in E1. injection E1 as <- <-.
    exists bs'. split; [exact HI1|]. split; [exact (Hna' Hna)|]. rewrite Eh1. split.
    + unfold track. intros q Hq. destruct (Z.eqb_spec p 0) as [E0 | Hne].
      * destruct (Hl q Hq) as (s & Hb). exists s. apply St. exact Hb.
      * destruct Hq as [<- | Hq].
        -- destruct (Hp Hne) as ((s & Hb & _) & _). exists s. exact Hb.
        -- destruct (Hl q Hq) as (s & Hb). exists s. apply St. exact Hb.
    + intros q [<- | Hq] Hne; [|apply Hr; assumption].
      destruct (Hp Hne) as ((s & Hb & _) & _). destruct HI1 as [T1 _]. rewrite <- Eh1 in Hb.
      apply (blk_aligned _ _ _ _ _ T1 Hb).
Qed.

Lemma good_realloc st live rets fuel p n q st' :
  good st live rets -> p = 0 \/ In p live -> n = 0 \/ sane n ->
  realloc fuel st p n = Some (q, st') ->
  good st' (track q (remove Z.eq_dec p live)) (q :: rets).
Proof.
  intros Hg Hp [-> | Hn] E.
  - rewrite realloc_zero in E. injection E as <- <-.
    destruct (good_free st live rets p Hg Hp) as (bs & HI & Hna & Hl & Hr).
    exists bs. split; [exact HI|]. split; [exact Hna|]. split; [exact Hl|].
    intros q [<- | Hq] Hne; [contradiction|]. apply Hr; assumption.
  - destruct Hp as [-> | Hp].
    + rewrite realloc_null in E by (destruct Hn; lia).
      pose proof (good_free st live rets 0 Hg (or_introl eq_refl)) as Hg'.
      rewrite free_null in Hg'.
      apply (good_malloc st _ rets fuel n q st' Hg' (or_intror Hn) E).
    + destruct Hg as (bs & HI & Hna & Hl & Hr). destruct (Hl p Hp) as (s & Hb).
      destruct (in_starts_split _ _ _ _ _ Hb) as (l1 & l2 & -> & Ep).
      pose proof (realloc_spec st l1 s l2 n HI Hn) as R. cbv zeta in R. rewrite <- Ep in R.
      destruct R as (fuel0 & Hm).
      destruct (Hm (Nat.max fuel fuel0) ltac:(lia))
        as (q1 & st1 & bs' & E1 & HI1 & Eh1 & _ & Oth & Hq & _ & Hna').
      rewrite (realloc_mono fuel (Nat.max fuel fuel0) _ _ _ _ (Nat.le_max_l _ _) E) in E1. injection E1 as <- <-.
      exists bs'. split; [exact HI1|]. split; [exact (Hna' Hna)|]. rewrite Eh1. split.
      * assert (Hrem : forall y, In y (remove Z.eq_dec p live) ->
                  exists sy, blk (heap st) bs' y sy true).
        { intros y Hy. apply in_remove in Hy. destruct Hy as [Hy Hne].
          destruct (Hl y Hy) as (sy & Hby). exists sy. apply (Oth y sy Hby Hne). }
        unfold track. intros y Hy. destruct (Z.eqb_spec q 0) as [E0 | Hne].
        -- apply Hrem. exact Hy.
        -- destruct Hy as [<- | Hy]; [|apply Hrem; exact Hy].
           destruct (Hq Hne) as ((s' & Hb' & _) & _). exists s'. exact Hb'.
      * intros y [<- | Hy] Hne; [|apply Hr; assumption].
        destruct (Hq Hne) as ((s' & Hb' & _) & _). destruct HI1 as [T1 _].
        rewrite <- Eh1 in Hb'. apply (blk_aligned _ _ _ _ _ T1 Hb').
Qed.

Lemma good_calloc st live rets fuel k n q st' :
  good st live rets -> u64 (k * n) = 0 \/ sane (u64 (k * n)) ->
  calloc fuel st k n = Some (q, st') ->
  good st' (track q live) (q :: rets).
Proof.
  intros (bs & HI & Hna & Hl & Hr) Hn E.
  pose proof (calloc_null _ _ _ _ _ E) as Eq. cbn [fst] in Eq. subst q.
  unfold track. cbn [Z.eqb].
  assert (Hr' : forall p, In p (0 :: rets) -> p <> 0 -> p mod 8 = 0).
  { intros y [<- | Hy] Hne; [contradiction|]. apply Hr; assumption. }
  destruct Hn as [E0 | Hn].
  - unfold calloc in E. rewrite E0, malloc_zero in E. cbn [Z.eqb negb] in E.
    injection E as <-. exists bs. split; [exact HI|]. split; [exact Hna|].
    split; [exact Hl|exact Hr'].
  - destruct (calloc_spec st bs k n HI Hn) as (fuel0 & Hm).
    destruct (Hm (Nat.max fuel fuel0) ltac:(lia))
      as (st1 & bs' & E1 & HI1 & Eh1 & _ & St & _ & _ & Hna').
    rewrite (calloc_mono fuel (Nat.max fuel fuel0) _ _ _ _ (Nat.le_max_l _ _) E) in E1. injection E1 as <-.
    exists bs'. split; [exact HI1|]. split; [exact (Hna' Hna)|]. rewrite Eh1.
    split; [|exact Hr']. intros y Hy. destruct (Hl y Hy) as (sy & Hb). exists sy.
    apply St. exact Hb.
Qed.

(** Every state reached with sane sizes is good. *)
Lemma reach_good st live rets : reach sane st live rets -> good st live rets.
Proof.
  induction 1 as [st0 Hf | st live rets fuel n p st' _ IH Hn E | st live rets p _ IH Hp
                  | st live rets fuel p n q st' _ IH Hp Hn E
                  | st live rets fuel k n q st' _ IH Hn E].
  - destruct (mm_init_spec st0 Hf) as (_ & HI & _).
    exists [(256, false)]. split; [exact HI|]. split; [exact I|].
    split; intros p [].
  - apply (good_malloc st live rets fuel n p st' IH Hn E).
  - apply (good_free st live rets p IH Hp).
  - apply (good_realloc st live rets fuel p n q st' IH Hp Hn E).
  - apply (good_calloc st live rets fuel k n q st' IH Hn E).
Qed.

End Traces.

Import Traces.

Module Concrete.

Lemma returned_eq r d : returned r = true -> r = Some (ret_of r, st_of r d).
Proof. destruct r as [[p s]|]; [reflexivity|discriminate]. Qed.

Lemma fresh_arena0 : fresh arena0.
Proof. constructor; vm_compute; try reflexivity; discriminate. Qed.

Lemma Inv_heap0 : Inv heap0 [(256, false)].
Proof. apply (mm_init_spec arena0 fresh_arena0). Qed.

Lemma heap_heap0 : heap heap0 = 4208 - 8.
Proof. destruct (mm_init_spec arena0 fresh_arena0) as (_ & _ & E & _). exact E. Qed.

End Concrete.

Import Concrete.

Lemma Inv_heap1 : Inv heap1 ([] ++ (16, true) :: [(240, false)]).
Proof.
  pose proof (place_spec heap0 [] 256 [] 16 Concrete.Inv_heap0 ltac:(lia) eq_refl ltac:(lia)) as P.
  cbv zeta in P. destruct P as (HI & _). exact HI.
Qed.

(** C5. When no two neighbouring blocks are free, none are after [free]
    returns: the freed block has been merged with its free neighbours at
    once, and the boundary tags of the arena spell out the merged blocks. *)
Theorem free_keeps_no_adjacent_free st l1 s l2 :
  Inv st (l1 ++ (s, true) :: l2) -> no_adj (l1 ++ (s, true) :: l2) ->
  Inv (free st (heap st + 8 + total l1)) (coalesced l1 s l2)
  /\ no_adj (coalesced l1 s l2).
Proof.
  intros HI Hna. split.
  - apply (free_spec st l1 s l2 HI).
  - apply no_adj_coalesced. exact Hna.
Qed.

Lemma free_keeps_no_adjacent_free_witness :
  Inv (free heap1 (heap heap1 + 8 + total [])) (coalesced [] 16 [(240, false)])
  /\ no_adj (coalesced [] 16 [(240, false)]).
Proof.
  apply (free_keeps_no_adjacent_free heap1 [] 16 [(240, false)]).
  - exact Inv_heap1.
  - cbn. split; [left; reflexivity|exact I].
Defined.

(** C7. Every non-null address returned by [malloc], [realloc] or [calloc]
    is a multiple of 8, over every sequence of calls after a successful
    [mm_init] in which the sizes asked for are at most 2^32 - 24. *)
Theorem returned_addresses_aligned st live rets p :
  reach sane st live rets -> In p rets -> p <> 0 -> p mod 8 = 0.
Proof.
  intros Hr Hp Hne. destruct (reach_good st live rets Hr) as (bs & _ & _ & _ & H).
  apply H; assumption.
Qed.

Lemma returned_addresses_aligned_witness :
  ret_of (malloc 1 heap0 8) mod 8 = 0.
Proof.
  apply (returned_addresses_aligned (st_of (malloc 1 heap0 8) heap0)
           (track (ret_of (malloc 1 heap0 8)) []) [ret_of (malloc 1 heap0 8)]).
  - apply (reach_malloc sane heap0 [] [] 1 8).
    + apply reach_init. exact Concrete.fresh_arena0.
    + right. unfold sane. lia.
    + apply Concrete.returned_eq. vm_compute. reflexivity.
  - left. reflexivity.
  - vm_compute. discriminate.
Defined.

Lemma returned_addresses_aligned_counterexample :
  exists st live rets p,
    reach (fun _ => True) st live rets /\ In p rets /\ p <> 0 /\ p mod 8 <> 0.
Proof.
  assert (R1 : reach (fun _ => True) (st_of wrap1 heap0) [4208] [4208]).
  { apply (reach_malloc _ heap0 [] [] 50 (2 ^ 32) 4208).
    - apply reach_init. exact Concrete.fresh_arena0.
    - right. exact I.
    - apply (Concrete.returned_eq wrap1). vm_compute. reflexivity. }
  assert (R2 : reach (fun _ => True) (st_of wrap2 heap0) [4216; 4208] [4216; 4208]).
  { apply (reach_malloc _ _ [4208] [4208] 50 (2 ^ 32) 4216 _ R1).
    - right. exact I.
    - apply (Concrete.returned_eq wrap2). vm_compute. reflexivity. }
  assert (R3 : reach (fun _ => True) wrap3 [4216] [4216; 4208]).
  { apply (reach_free _ _ [4216; 4208] _ 4208 R2). right. right. left. reflexivity. }
  assert (R4 : reach (fun _ => True) wrap4 [] [4216; 4208]).
  { apply (reach_free _ _ [4216] _ 4216 R3). right. left. reflexivity. }
  assert (R5 : reach (fun _ => True) (st_of wrap5 heap0) [4224] [4224; 4216; 4208]).
  { apply (reach_malloc _ _ [] _ 50 8 4224 _ R4).
    - right. exact I.
    - apply (Concrete.returned_eq wrap5). vm_compute. reflexivity. }
  assert (R6 : reach (fun _ => True) (st_of wrap6 heap0) [4121; 4224]
                 [4121; 4224; 4216; 4208]).
  { apply (reach_malloc _ _ [4224] _ 50 8 4121 _ R5).
    - right. exact I.
    - apply (Concrete.returned_eq wrap6). vm_compute. reflexivity. }
  exists (st_of wrap6 heap0), [4121; 4224], [4121; 4224; 4216; 4208], 4121.
  split; [exact R6|]. split; [left; reflexivity|]. split; discriminate.
Qed.





Module Single.

Section OneFree.
Variables (m : memory) (h : Z) (F : Z -> Prop) (x : Z).
Hypothesis Hok : lists_ok m h F.
Hypothesis Fx : F x.
Hypothesis Honly : forall y, F y -> y = x.

(** The only free block is the head of its list, and the other lists are
    empty. *)
Lemma only_prv : prv m h x = 0.
Proof.
  destruct (Z.eq_dec (prv m h x) 0) as [E | Hne]; [exact E|]. exfalso.
  destruct (l_prev _ _ _ Hok x Fx Hne) as (Fp & Hn).
  pose proof (Honly _ Fp) as Ep. rewrite Ep in Hn.
  destruct (l_rank _ _ _ Hok) as (pos & A & B & Hr).
  destruct (Hr x Fx) as (_ & Hlt).
  assert (Hx0 : x <> 0) by congruence.
  specialize (Hlt ltac:(rewrite Hn; exact Hx0)). rewrite Hn in Hlt. lia.
Qed.

Lemma only_head : GET m (slot h (bin m x)) = x.
Proof. apply (l_first _ _ _ Hok x Fx only_prv). Qed.

Lemma only_others i : 0 <= i < NO_LISTS -> i <> bin m x -> GET m (slot h i) = 0.
Proof.
  intros Hi Hne. destruct (Z.eq_dec (GET m (slot h i)) 0) as [E | Hn0]; [exact E|].
  destruct (l_head _ _ _ Hok i Hi Hn0) as (Fh & _ & Hb).
  rewrite (Honly _ Fh) in Hb. congruence.
Qed.

(** The search finds it if it is large enough and not in the last list. *)
Lemma only_find_fit_bins fuel asize p0 b0 :
  asize <= GET_SIZE m (HDR x) -> bin m x < NO_LISTS - 1 -> x <> 0 ->
  forall n x0, 0 <= x0 <= bin m x -> x0 + Z.of_nat n = NO_LISTS ->
  find_fit_bins (S fuel) n x0 m h asize p0 b0 = Some x.
Proof.
  intros Hle Hb Hx0. pose proof (bin_range m x) as Hr.
  induction n as [|n IH]; intros x0 Hx Hn; [lia|].
  cbn [find_fit_bins]. fold (slot h x0).
  destruct (Z.eq_dec x0 (bin m x)) as [-> | Hne].
  - rewrite only_head. destruct (Z.eqb_spec x 0) as [? | _]; [contradiction|].
    destruct (Z.eqb_spec (bin m x) (NO_LISTS - 1)) as [? | _]; [lia|].
    cbn [first_fit_loop]. destruct (Z.leb_spec asize (GET_SIZE m (HDR x))) as [_ | ?]; [|lia].
    destruct (Z.eqb_spec x 0) as [? | _]; [contradiction|]. reflexivity.
  - rewrite only_others by lia. cbn [Z.eqb]. apply IH; lia.
Qed.

End OneFree.

End Single.

Import Single.

Lemma Inv_heap512 : Inv heap512 ([(256, true)] ++ (512, false) :: []).
Proof.
  pose proof (place_spec heap0 [] 256 [] 256 Concrete.Inv_heap0 ltac:(lia) eq_refl ltac:(lia)) as P.
  cbv zeta in P. destruct P as (HI & _ & Eb & Em & _).
  change ([] ++ placed 256 256 ++ []) with [(256, true)] in HI.
  set (st1 := place heap0 (heap heap0 + 8 + total []) 256) in *.
  assert (Hroom : mem_brk st1 + grow_size 64 <= mem_max_addr st1).
  { vm_compute. discriminate. }
  pose proof (grow_heap_spec st1 _ 64 HI ltac:(lia) ltac:(lia) Hroom) as G. cbv zeta in G.
  destruct G as (_ & HI2 & _).
  change (coalesced [(256, true)] (grow_size 64) []) with ([(256, true)] ++ (512, false) :: [])
    in HI2.
  exact HI2.
Qed.

Lemma only_free_512 h y s :
  blk h ([(256, true)] ++ (512, false) :: []) y s false ->
  y = h + 8 + total [(256, true)].
Proof.
  unfold blk. cbn [app starts In total].
  intros [H | [H | []]]; [discriminate H|]. injection H as <- _. lia.
Qed.

Lemma adjust_32 : adjust 32 = 40.
Proof. vm_compute. reflexivity. Qed.

Lemma bin_of_40 : find_size_bin (s32 40) = 0.
Proof. vm_compute. reflexivity. Qed.

Lemma bin_of_512 : find_size_bin (s32 512) = 4.
Proof. vm_compute. reflexivity. Qed.

Lemma bin_of_472 : find_size_bin (s32 472) = 3 /\ find_size_bin 472 = 3.
Proof. vm_compute. split; reflexivity. Qed.

Lemma placed_512_40 : placed 512 40 = [(40, true); (472, false)].
Proof. vm_compute. reflexivity. Qed.

(** C4. When the only free block of the arena has 512 bytes, [malloc (32)]
    uses an internal size of 40 bytes and takes the block: it becomes an
    allocated block of 40 bytes followed by a free block of 472 bytes, and
    that one is the head of list 3, the list [find_size_bin] gives its
    size. *)
Theorem malloc_32_splits_512 st l1 l2 fuel :
  Inv st (l1 ++ (512, false) :: l2) ->
  (forall y s, blk (heap st) (l1 ++ (512, false) :: l2) y s false ->
     y = heap st + 8 + total l1) ->
  (1 <= fuel)%nat ->
  adjust 32 = 40
  /\ malloc fuel st 32
     = Some (heap st + 8 + total l1, place st (heap st + 8 + total l1) 40)
  /\ Inv (place st (heap st + 8 + total l1) 40) (l1 ++ (40, true) :: (472, false) :: l2)
  /\ find_size_bin 472 = 3
  /\ GET (mem (place st (heap st + 8 + total l1) 40)) (slot (heap st) 3)
     = heap st + 8 + total l1 + 40.
Proof.
  intros HI Honly Hfuel. pose proof HI as [Ht Hok].
  set (bp := heap st + 8 + total l1) in *.
  assert (Ebp : bp = heap st + 8 + total l1) by reflexivity. clearbody bp.
  assert (Hbp : blk (heap st) (l1 ++ (512, false) :: l2) bp 512 false).
  { rewrite Ebp. apply in_starts_mid. }
  pose proof (tiled_size _ _ Ht _ _ _ Hbp) as Es.
  pose proof (tiled_blk _ _ Ht _ _ _ Hbp) as (_ & _ & _ & Hlo & _).
  pose proof (t_base _ _ Ht) as Hb.
  pose proof (place_spec st l1 512 l2 40 HI ltac:(lia) eq_refl ltac:(lia)) as P.
  cbv zeta in P. rewrite <- Ebp in P. destruct P as (HI' & Eh' & _).
  rewrite placed_512_40 in HI'. cbn [app] in HI'.
  split; [exact adjust_32|]. split; [|split; [exact HI'|split; [apply bin_of_472|]]].
  - unfold malloc. rewrite adjust_32. change (32 <=? 0) with false. cbv iota.
    unfold find_fit. rewrite bin_of_40.
    change (Z.to_nat (NO_LISTS - 0)) with 11%nat.
    destruct fuel as [|fuel]; [lia|].
    rewrite (Single.only_find_fit_bins (mem st) (heap st) _ bp Hok (ex_intro _ 512 Hbp)).
    + destruct (Z.eqb_spec bp 0) as [? | _]; [lia|]. reflexivity.
    + intros y (s & Hy). apply (Honly y s Hy).
    + rewrite Es. lia.
    + unfold bin. rewrite Es, bin_of_512. reflexivity.
    + lia.
    + unfold bin. rewrite Es, bin_of_512. lia.
    + reflexivity.
  - set (st' := place st bp 40) in *. clearbody st'. destruct HI' as [Ht' Hok'].
    assert (Hr : blk (heap st') (l1 ++ (40, true) :: (472, false) :: l2) (bp + 40) 472 false).
    { rewrite Eh'. change (l1 ++ (40, true) :: (472, false) :: l2)
        with (l1 ++ [(40, true)] ++ (472, false) :: l2).
      rewrite app_assoc.
      replace (bp + 40) with (heap st + 8 + total (l1 ++ [(40, true)]))
        by (rewrite total_app; cbn [total]; lia).
      apply in_starts_mid. }
    assert (Hb40 : blk (heap st') (l1 ++ (40, true) :: (472, false) :: l2) bp 40 true).
    { rewrite Eh', Ebp. apply in_starts_mid. }
    assert (Honly' : forall y, free_at (heap st') (l1 ++ (40, true) :: (472, false) :: l2) y ->
              y = bp + 40).
    { intros y (s & Hy). rewrite Eh' in Hy.
      destruct (blk_replace (heap st) l1 [(40, true); (472, false)] [(512, false)] l2 y s false
                  eq_refl Hy) as [H | H].
      - rewrite <- Ebp in H. cbn [starts In] in H.
        destruct H as [H | [H | []]]; [discriminate H|]. injection H as <- _. reflexivity.
      - pose proof (Honly y s H) as Ey. subst y. rewrite <- Eh' in Hy.
        destruct (seg_sep _ _ _ _ _ _ _ _ _ (t_seg _ _ Ht') Hy Hb40) as [(_ & _ & E) | [? | ?]].
        + discriminate E.
        + pose proof (tiled_blk _ _ Ht' _ _ _ Hy) as ((? & _) & _). lia.
        + lia. }
    pose proof (Single.only_head (mem st') (heap st') _ (bp + 40) Hok' (ex_intro _ 472 Hr) Honly')
      as Hh.
    assert (Eb : bin (mem st') (bp + 40) = 3).
    { unfold bin. rewrite (tiled_size _ _ Ht' _ _ _ Hr). apply bin_of_472. }
    rewrite Eb, Eh' in Hh. exact Hh.
Qed.

Lemma malloc_32_splits_512_witness :
  adjust 32 = 40
  /\ malloc 1 heap512 32
     = Some (heap heap512 + 8 + total [(256, true)],
             place heap512 (heap heap512 + 8 + total [(256, true)]) 40)
  /\ Inv (place heap512 (heap heap512 + 8 + total [(256, true)]) 40)
         ([(256, true)] ++ (40, true) :: (472, false) :: [])
  /\ find_size_bin 472 = 3
  /\ GET (mem (place heap512 (heap heap512 + 8 + total [(256, true)]) 40))
         (slot (heap heap512) 3)
     = heap heap512 + 8 + total [(256, true)] + 40.
Proof.
  apply (malloc_32_splits_512 heap512 [(256, true)] [] 1).
  - exact Inv_heap512.
  - exact (only_free_512 (heap heap512)).
  - lia.
Defined.

Lemma malloc_32_splits_512_counterexample :
  exists st l1 l2 fuel p st',
    Inv st (l1 ++ (512, false) :: l2)
    /\ (forall y s, blk (heap st) (l1 ++ (512, false) :: l2) y s false ->
          y = heap st + 8 + total l1)
    /\ malloc fuel st 32 = Some (p, st')
    /\ adjust 32 <> 48
    /\ GET_SIZE (mem st') (HDR p) <> 48
    /\ GET_SIZE (mem st') (HDR (NEXT_BLK (mem st') p)) <> 464.
Proof.
  exists heap512, [(256, true)], [], 1%nat, (ret_of split512), (st_of split512 heap0).
  split; [exact Inv_heap512|]. split; [exact (only_free_512 (heap heap512))|].
  split; [apply (Concrete.returned_eq split512); vm_compute; reflexivity|].
  split; [vm_compute; discriminate|]. split; vm_compute; discriminate.
Qed.

Module BestFit.

Lemma GET_SIZE_range m p : 0 <= GET_SIZE m p < 2 ^ 32.
Proof.
  unfold GET_SIZE, GET_INT. pose proof (load32_range m p) as R.
  rewrite land_lnot7 by exact R.
  pose proof (Z.div_mod (load32 m p) 8 ltac:(lia)).
  pose proof (Z.mod_pos_bound (load32 m p) 8 ltac:(lia)). lia.
Qed.

Lemma best_fit_init_eq : best_fit_init = 2 ^ 64 - 2 ^ 31.
Proof. vm_compute. reflexivity. Qed.

Lemma acc_step asize done p b x s :
  0 <= s < 2 ^ 32 -> acc_ok asize done p b ->
  acc_ok asize (done ++ [(x, s)])
    (fst (if (asize <=? s) && (s <=? b) then (x, s) else (p, b)))
    (snd (if (asize <=? s) && (s <=? b) then (x, s) else (p, b))).
Proof.
  intros Hs [(-> & -> & Hno) | (pre & post & -> & Hle & Hpre & Hpost)].
  - rewrite best_fit_init_eq.
    destruct (Z.leb_spec s (2 ^ 64 - 2 ^ 31)) as [_ | ?]; [|lia]. rewrite andb_true_r.
    destruct (Z.leb_spec asize s) as [Hfit | Hno']; cbn [fst snd].
    + right. exists done, []. split; [reflexivity|]. split; [exact Hfit|]. split.
      * intros x' s' Hin Hf. specialize (Hno _ _ Hin). lia.
      * intros x' s' [].
    + left. split; [reflexivity|]. split; [apply best_fit_init_eq|].
      intros x' s' Hin. apply in_app_iff in Hin. destruct Hin as [Hin | [E | []]].
      * apply (Hno _ _ Hin).
      * injection E as _ <-. exact Hno'.
  - destruct (Z.leb_spec asize s) as [Hfit | Hno'], (Z.leb_spec s b) as [Hsb | Hsb];
      cbn [andb fst snd].
    + right. exists (pre ++ (p, b) :: post), []. split; [reflexivity|].
      split; [exact Hfit|]. split; [|intros x' s' []].
      intros x' s' Hin Hf. apply in_app_iff in Hin. destruct Hin as [Hin | [E | Hin]].
      * specialize (Hpre _ _ Hin Hf). lia.
      * injection E as _ <-. exact Hsb.
      * specialize (Hpost _ _ Hin Hf). lia.
    + right. exists pre, (post ++ [(x, s)]). split; [rewrite <- app_assoc; reflexivity|].
      split; [exact Hle|]. split; [exact Hpre|].
      intros x' s' Hin Hf. apply in_app_iff in Hin. destruct Hin as [Hin | [E | []]].
      * apply (Hpost _ _ Hin Hf).
      * injection E as _ <-. exact Hsb.
    + right. exists pre, (post ++ [(x, s)]). split; [rewrite <- app_assoc; reflexivity|].
      split; [exact Hle|]. split; [exact Hpre|].
      intros x' s' Hin Hf. apply in_app_iff in Hin. destruct Hin as [Hin | [E | []]].
      * apply (Hpost _ _ Hin Hf).
      * injection E as _ <-. lia.
    + right. exists pre, (post ++ [(x, s)]). split; [rewrite <- app_assoc; reflexivity|].
      split; [exact Hle|]. split; [exact Hpre|].
      intros x' s' Hin Hf. apply in_app_iff in Hin. destruct Hin as [Hin | [E | []]].
      * apply (Hpost _ _ Hin Hf).
      * injection E as _ <-. lia.
Qed.

(** The scan of the last list visits every block and keeps the last of the
    least fits. *)
Lemma best_fit_loop_chain m h asize : forall xs fuel bp done p b,
  xs <> [] -> chain m h bp xs -> (length xs <= fuel)%nat -> acc_ok asize done p b ->
  exists p' b', best_fit_loop fuel m h asize bp p b = Some (p', b')
                /\ acc_ok asize (done ++ xs) p' b'.
Proof.
  induction xs as [|[x s] r IH]; intros fuel bp done p b Hne Hc Hf Ha; [contradiction|].
  destruct fuel as [|fuel]; [cbn in Hf; lia|]. cbn [length] in Hf.
  destruct Hc as (-> & Hx0 & Es & Hc). cbn [best_fit_loop]. rewrite Es.
  pose proof (GET_SIZE_range m (HDR x)) as Rs. rewrite Es in Rs.
  pose proof (acc_step asize done p b x s Rs Ha) as Ha'.
  destruct (if (asize <=? s) && (s <=? b) then (x, s) else (p, b)) as [p1 b1].
  cbn [fst snd] in Ha'.
  destruct r as [|[y sy] r'].
  - cbn [chain] in Hc. rewrite Hc. cbn [Z.eqb negb]. exists p1, b1. split; [reflexivity|exact Ha'].
  - pose proof Hc as (Ey & Hy0 & _). rewrite Ey.
    destruct (Z.eqb_spec y 0) as [? | _]; [contradiction|]. cbn [negb].
    destruct (IH fuel y (done ++ [(x, s)]) p1 b1 ltac:(discriminate)) as (p' & b' & E & Hok).
    + rewrite Ey in Hc. exact Hc.
    + cbn [length] in *. lia.
    + exact Ha'.
    + exists p', b'. split; [exact E|]. rewrite <- app_assoc in Hok. exact Hok.
Qed.

Lemma acc_last asize xs p b : acc_ok asize xs p b -> last_best asize xs p.
Proof.
  intros [(-> & _ & Hno) | (pre & post & E & Hle & Hpre & Hpost)].
  - left. split; [reflexivity|exact Hno].
  - right. exists pre, b, post. repeat split; assumption.
Qed.

(** The lists before the last one are passed by. *)
Lemma bins_pass fuel m h asize p b : forall n x,
  0 <= x -> x + Z.of_nat n = NO_LISTS - 1 ->
  (forall i, x <= i < NO_LISTS - 1 -> passes_by fuel m h asize i) ->
  find_fit_bins fuel (S n) x m h asize p b
  = find_fit_bins fuel 1 (NO_LISTS - 1) m h asize p b.
Proof.
  induction n as [|n IH]; intros x Hx Hn Hp.
  - replace x with (NO_LISTS - 1) by lia. reflexivity.
  - remember (S n) as k eqn:Ek. cbn [find_fit_bins]. fold (slot h x).
    destruct (Hp x ltac:(lia)) as [E | E].
    + rewrite E. cbn [Z.eqb]. subst k. apply IH; [lia|lia|].
      intros i Hi. apply Hp. lia.
    + destruct (Z.eqb_spec (GET m (slot h x)) 0).
      * subst k. apply IH; [lia|lia|]. intros i Hi. apply Hp. lia.
      * destruct (Z.eqb_spec x (NO_LISTS - 1)) as [? | _]; [lia|].
        rewrite E. cbn [Z.eqb negb]. subst k. apply IH; [lia|lia|].
        intros i Hi. apply Hp. lia.
Qed.

End BestFit.

Import BestFit.

(** C3. When the search reaches the last list, [find_fit] scans all of it
    and returns the block of least size among those that hold the adjusted
    size; among several of that size it returns the one met last, the
    comparison being [<=]. *)
Theorem find_fit_last_bucket st asize xs fuel :
  (forall i, find_size_bin (s32 asize) <= i < NO_LISTS - 1 ->
     passes_by fuel (mem st) (heap st) asize i) ->
  chain (mem st) (heap st) (GET (mem st) (slot (heap st) (NO_LISTS - 1))) xs ->
  (length xs <= fuel)%nat ->
  exists r, find_fit fuel st asize = Some r /\ last_best asize xs r.
Proof.
  intros Hp Hc Hf. unfold find_fit.
  pose proof (find_size_bin_range (s32 asize)) as Hb.
  set (k := find_size_bin (s32 asize)) in *. clearbody k.
  replace (Z.to_nat (NO_LISTS - k)) with (S (Z.to_nat (NO_LISTS - 1 - k))) by lia.
  rewrite (BestFit.bins_pass fuel (mem st) (heap st) asize 0 best_fit_init _ k) by (auto; lia).
  cbn [find_fit_bins]. fold (slot (heap st) (NO_LISTS - 1)).
  change (NO_LISTS - 1 =? NO_LISTS - 1) with true. cbv iota.
  destruct xs as [|[x s] r].
  - cbn [chain] in Hc. rewrite Hc. cbn [Z.eqb]. exists 0. split; [reflexivity|].
    left. split; [reflexivity|]. intros x s [].
  - pose proof Hc as (Ex & Hx0 & _). rewrite Ex.
    destruct (Z.eqb_spec x 0) as [? | _]; [contradiction|].
    destruct (BestFit.best_fit_loop_chain (mem st) (heap st) asize ((x, s) :: r) fuel x []
                0 best_fit_init ltac:(discriminate)) as (p' & b' & E & Hok).
    + rewrite Ex in Hc. exact Hc.
    + exact Hf.
    + left. split; [reflexivity|]. split; [reflexivity|]. intros x' s' [].
    + rewrite E. exists p'. split; [reflexivity|]. apply (BestFit.acc_last _ _ _ _ Hok).
Qed.

Lemma tie6_bins i :
  find_size_bin (s32 40008) <= i < NO_LISTS - 1 -> passes_by 2 (mem tie6) (heap tie6) 40008 i.
Proof.
  assert (E : find_size_bin (s32 40008) = 10) by (vm_compute; reflexivity).
  rewrite E. unfold NO_LISTS. lia.
Qed.

Lemma tie6_chain :
  chain (mem tie6) (heap tie6) (GET (mem tie6) (slot (heap tie6) (NO_LISTS - 1)))
    [(44232, 40008); (4208, 40008)].
Proof.
  cbn [chain]. split; [vm_compute; reflexivity|]. split; [discriminate|].
  split; [vm_compute; reflexivity|]. split; [vm_compute; reflexivity|].
  split; [discriminate|]. split; vm_compute; reflexivity.
Qed.

Lemma find_fit_last_bucket_witness :
  exists r, find_fit 2 tie6 40008 = Some r
            /\ last_best 40008 [(44232, 40008); (4208, 40008)] r.
Proof.
  apply (find_fit_last_bucket tie6 40008 [(44232, 40008); (4208, 40008)] 2).
  - exact tie6_bins.
  - exact tie6_chain.
  - cbn. lia.
Defined.

Lemma find_fit_last_bucket_counterexample :
  exists st asize xs fuel r,
    (forall i, find_size_bin (s32 asize) <= i < NO_LISTS - 1 ->
       passes_by fuel (mem st) (heap st) asize i)
    /\ chain (mem st) (heap st) (GET (mem st) (slot (heap st) (NO_LISTS - 1))) xs
    /\ (length xs <= fuel)%nat
    /\ find_fit fuel st asize = Some r
    /\ ~ first_best_spec asize xs r.
Proof.
  exists tie6, 40008, [(44232, 40008); (4208, 40008)], 2%nat, 4208.
  split; [exact tie6_bins|]. split; [exact tie6_chain|]. split; [cbn; lia|].
  split; [vm_compute; reflexivity|].
  intros [[E _] | (pre & s & post & E & Hle & Hpre & _)]; [discriminate E|].
  destruct pre as [|a [|b pre']].
  - discriminate E.
  - injection E as <- <- _. specialize (Hpre 44232 40008 (or_introl eq_refl)). lia.
  - injection E as _ _ E. destruct pre'; discriminate E.
Qed.

Module Checker.

Lemma no_adj_prev_alloc l1 s l2 :
  no_adj (l1 ++ (s, false) :: l2) -> split_last l1 = (l1, 0).
Proof.
  intros H. destruct (last_cases l1) as [E | [(l' & t & E) | (l' & t & E)]]; subst l1.
  - reflexivity.
  - apply split_last_alloc.
  - exfalso. rewrite <- app_assoc in H. apply no_adj_app_inv in H. destruct H as [_ H].
    cbn [app no_adj] in H. destruct H as [[H | H] _]; discriminate H.
Qed.

Lemma no_adj_next_alloc l1 s l2 :
  no_adj (l1 ++ (s, false) :: l2) -> split_first l2 = (l2, 0).
Proof.
  intros H. apply no_adj_app_inv in H. destruct H as [_ H].
  destruct l2 as [|[t [|]] r]; try reflexivity.
  destruct H as [[H | H] _]; discriminate H.
Qed.

End Checker.

Import Checker.

(** X19. [aligned] holds exactly of the multiples of 8. *)
Theorem aligned_iff p : 0 <= p < 2 ^ 64 -> (aligned p = true <-> p mod 8 = 0).
Proof.
  intros Hp. unfold aligned. rewrite ALIGN_eq. unfold u64.
  pose proof (Z.div_mod p 8 ltac:(lia)) as D. pose proof (Z.mod_pos_bound p 8 ltac:(lia)) as R.
  destruct (Z.lt_ge_cases (p + 7) (2 ^ 64)) as [Hlt | Hge].
  - rewrite (Z.mod_small (p + 7)) by lia.
    pose proof (Z.div_mod (p + 7) 8 ltac:(lia)) as D7.
    pose proof (Z.mod_pos_bound (p + 7) 8 ltac:(lia)) as R7.
    split.
    + intros E. apply Z.eqb_eq in E. lia.
    + intros E. apply Z.eqb_eq.
      assert (X : (p + 7) / 8 = p / 8).
      { symmetry. apply (Z.div_unique (p + 7) 8 (p / 8) 7); lia. }
      rewrite X. lia.
  - replace ((p + 7) mod 2 ^ 64) with (p + 7 - 2 ^ 64).
    2:{ apply (Z.mod_unique (p + 7) (2 ^ 64) 1); lia. }
    assert (Hs : (p + 7 - 2 ^ 64) / 8 = 0) by (apply Z.div_small; lia).
    rewrite Hs. split.
    + intros E. apply Z.eqb_eq in E. lia.
    + intros E. exfalso.
      assert (X : 2 ^ 64 = 8 * 2 ^ 61) by reflexivity. lia.
Qed.

Lemma aligned_iff_witness : aligned 4208 = true <-> 4208 mod 8 = 0.
Proof. apply (aligned_iff 4208). lia. Defined.

(** X20. On a well-formed heap [check_head_foot] accepts the prologue, and
    accepts a block exactly when its size is below 2^31: it reads the size
    into an [int], so that a larger block looks smaller than the minimum. *)
Theorem check_head_foot_blocks st bs :
  tiled st bs ->
  check_head_foot st (heap st) = true
  /\ forall x s a, blk (heap st) bs x s a -> check_head_foot st x = (s <? 2 ^ 31).
Proof.
  intros Ht. pose proof (t_base _ _ Ht) as Hb. split.
  - pose proof (t_pro_hdr _ _ Ht) as Eh. pose proof (t_pro_ftr _ _ Ht) as Ef.
    assert (Es : GET_SIZE (mem st) (HDR (heap st)) = 8).
    { unfold GET_SIZE, HDR, THIS, FULL_HDR, WSIZE. rewrite Eh. reflexivity. }
    assert (Ea : GET_ALLOC (mem st) (HDR (heap st)) = 1).
    { unfold GET_ALLOC, HDR, THIS, FULL_HDR, WSIZE. rewrite Eh. reflexivity. }
    assert (Eft : FTR (mem st) (heap st) = heap st + 4).
    { unfold FTR, PREV. rewrite Es. unfold WSIZE. lia. }
    assert (Es' : GET_SIZE (mem st) (heap st + 4) = 8).
    { unfold GET_SIZE. rewrite Ef. reflexivity. }
    assert (Ea' : GET_ALLOC (mem st) (heap st + 4) = 1).
    { unfold GET_ALLOC. rewrite Ef. reflexivity. }
    unfold check_head_foot. cbv zeta. rewrite Eft, Es, Es', Ea, Ea'.
    rewrite !Z.eqb_refl. cbn [negb]. rewrite andb_false_r. reflexivity.
  - intros x s a Hx.
    pose proof (tiled_blk _ _ Ht _ _ _ Hx) as ((H16 & H8 & Hs) & Eh & Ef & Hlo & _).
    pose proof (tiled_size _ _ Ht _ _ _ Hx) as Es.
    pose proof (tiled_alloc _ _ Ht _ _ _ Hx) as Ea.
    assert (Eft : FTR (mem st) x = x + s - 4).
    { unfold FTR, PREV. rewrite Es. unfold WSIZE. lia. }
    assert (Es' : GET_SIZE (mem st) (x + s - 4) = s).
    { unfold GET_SIZE. rewrite Ef. apply tag_size; lia. }
    assert (Ea' : GET_ALLOC (mem st) (x + s - 4) = Z.b2z a).
    { unfold GET_ALLOC. rewrite Ef. apply tag_alloc; lia. }
    unfold check_head_foot. cbv zeta. rewrite Eft, Es, Es', Ea, Ea'.
    rewrite !Z.eqb_refl. cbn [negb].
    destruct (Z.eqb_spec x (heap st)) as [? | _]; [lia|]. cbn [negb]. rewrite andb_true_r.
    unfold s32, MIN_SIZE. rewrite (Z.mod_small s) by lia.
    destruct (Z.ltb_spec s (2 ^ 31)) as [Hlt | Hge].
    + destruct (Z.ltb_spec s 16); [lia|reflexivity].
    + destruct (Z.ltb_spec (s - 2 ^ 32) 16); [reflexivity|lia].
Qed.

Lemma check_head_foot_blocks_witness :
  check_head_foot heap1 (heap heap1) = true
  /\ forall x s a, blk (heap heap1) ([] ++ (16, true) :: [(240, false)]) x s a ->
       check_head_foot heap1 x = (s <? 2 ^ 31).
Proof. apply (check_head_foot_blocks heap1). apply Inv_heap1. Defined.

(** X21. [check_coalesce] accepts every block of a well-formed heap without
    two free neighbours, and rejects a free block whose successor is free. *)
Theorem check_coalesce_sound st bs :
  tiled st bs ->
  (no_adj bs -> forall x s a, blk (heap st) bs x s a -> check_coalesce (mem st) x = true)
  /\ (forall l1 s t l2, bs = l1 ++ (s, false) :: (t, false) :: l2 ->
        check_coalesce (mem st) (heap st + 8 + total l1) = false).
Proof.
  intros Ht. split.
  - intros Hna x s a Hx. destruct (in_starts_split _ _ _ _ _ Hx) as (l1 & l2 & -> & ->).
    destruct (read_self _ _ _ _ _ Ht) as (_ & Ea & _).
    pose proof (read_prev_alloc _ _ _ _ _ Ht) as Ep.
    pose proof (read_next_alloc _ _ _ _ _ Ht) as En.
    unfold check_coalesce. cbv zeta. rewrite Ea, Ep, En.
    destruct a; [reflexivity|]. cbn [Z.b2z Z.eqb].
    rewrite (Checker.no_adj_prev_alloc _ _ _ Hna), (Checker.no_adj_next_alloc _ _ _ Hna).
    reflexivity.
  - intros l1 s t l2 ->.
    destruct (read_self _ _ _ _ _ Ht) as (_ & Ea & _).
    pose proof (read_next_alloc _ _ _ _ _ Ht) as En.
    destruct (read_next_blk _ _ _ _ _ Ht _ _ _ eq_refl) as (_ & _ & _ & H16).
    unfold check_coalesce. cbv zeta. rewrite Ea, En. cbn [Z.b2z Z.eqb split_first snd].
    destruct (Z.eqb_spec t 0) as [? | _]; [lia|]. cbn [Z.eqb].
    destruct (GET_ALLOC (mem st) (FTR (mem st) (PREV_BLK (mem st) (heap st + 8 + total l1))) =? 0);
      reflexivity.
Qed.

Lemma check_coalesce_sound_witness :
  (no_adj ([] ++ (16, true) :: [(240, false)]) ->
   forall x s a, blk (heap heap1) ([] ++ (16, true) :: [(240, false)]) x s a ->
     check_coalesce (mem heap1) x = true)
  /\ (forall l1 s t l2, [] ++ (16, true) :: [(240, false)] = l1 ++ (s, false) :: (t, false) :: l2 ->
        check_coalesce (mem heap1) (heap heap1 + 8 + total l1) = false).
Proof. apply (check_coalesce_sound heap1). apply Inv_heap1. Defined.

(** X22. [check_pro_epi] accepts every well-formed heap. *)
Theorem check_pro_epi_passes st bs : tiled st bs -> check_pro_epi st = true.
Proof.
  intros Ht. pose proof (t_base _ _ Ht) as Hb.
  pose proof (t_pro_hdr _ _ Ht) as Eh. pose proof (t_pro_ftr _ _ Ht) as Ef.
  pose proof (t_epi _ _ Ht) as Ee. pose proof (t_brk _ _ Ht) as Eb.
  pose proof (tiled_total _ _ Ht) as TT.
  assert (C1 : check_tag (mem st) (THIS (heap st - WSIZE)) WSIZE = Some true).
  { unfold check_tag, THIS, WSIZE, GET_SIZE, GET_ALLOC. rewrite Eh.
    destruct (Z.eqb_spec (heap st - 8) 0) as [? | _]; [lia|]. reflexivity. }
  assert (C2 : check_tag (mem st) (PREV (heap st)) WSIZE = Some true).
  { unfold check_tag, THIS, PREV, WSIZE, GET_SIZE, GET_ALLOC. rewrite Ef.
    destruct (Z.eqb_spec (heap st + 4) 0) as [? | _]; [lia|]. reflexivity. }
  assert (C3 : check_tag (mem st) (THIS (mem_heap_hi st - 7)) 0 = Some true).
  { unfold check_tag, THIS, mem_heap_hi, GET_SIZE, GET_ALLOC.
    replace (mem_brk st - 1 - 7) with (mem_brk st - 8) by lia. rewrite Ee.
    destruct (Z.eqb_spec (mem_brk st - 8) 0) as [? | _]; [lia|]. reflexivity. }
  unfold check_pro_epi. cbv zeta. rewrite C1, C2, C3. reflexivity.
Qed.

Lemma check_pro_epi_passes_witness : check_pro_epi heap1 = true.
Proof. apply (check_pro_epi_passes heap1 ([] ++ (16, true) :: [(240, false)])). apply Inv_heap1. Defined.

Module Examples.

Lemma free_at_heap0 : free_at (heap heap0) ([] ++ (256, false) :: []) (heap heap0 + 8 + total []).
Proof. apply free_at_mid. right. reflexivity. Qed.

Lemma unlinked_ok :
  tiled heap0_unlinked ([] ++ (256, false) :: [])
  /\ lists_ok (mem heap0_unlinked) (heap heap0_unlinked)
       (outside (heap heap0_unlinked) [] 256 [])
  /\ heap heap0_unlinked = heap heap0.
Proof.
  destruct Concrete.Inv_heap0 as [Ht Hok].
  destruct (step_remove heap0 _ _ Ht Hok (fun y H => H) _ free_at_heap0)
    as (T1 & L1 & Eh1 & _).
  fold heap0_unlinked in T1, L1, Eh1. split; [exact T1|]. split; [|exact Eh1].
  rewrite Eh1. eapply lists_ok_iff; [|exact L1]. intros y. cbv beta.
  change [(256, false)] with ([] ++ (256, false) :: []). rewrite free_at_mid.
  split.
  - intros [[H | H] Hne]; [exact H|contradiction].
  - intros (sy & [[] | []]).
Qed.

End Examples.

Import Examples.

(** X3. On a fresh arena [mm_init] returns 0 and builds a well-formed heap
    whose only block is free, has 256 bytes, and is the head of list 3. *)
Theorem mm_init_builds_heap st :
  fresh st ->
  let st' := snd (mm_init st) in
  fst (mm_init st) = 0
  /\ Inv st' [(256, false)]
  /\ heap st' = mem_brk st + 104
  /\ GET (mem st') (slot (heap st') 3) = heap st' + 8.
Proof.
  intros Hf. destruct (mm_init_spec st Hf) as (E0 & HI & Eh & _).
  cbv zeta. split; [exact E0|]. split; [exact HI|]. split; [exact Eh|].
  set (st' := snd (mm_init st)) in *. clearbody st'. destruct HI as [Ht Hok].
  assert (Hb : blk (heap st') [(256, false)] (heap st' + 8) 256 false) by (left; reflexivity).
  pose proof (Single.only_head (mem st') (heap st') _ (heap st' + 8) Hok (ex_intro _ 256 Hb)) as Hh.
  assert (Eb : bin (mem st') (heap st' + 8) = 3).
  { unfold bin. rewrite (tiled_size _ _ Ht _ _ _ Hb). vm_compute. reflexivity. }
  rewrite Eb in Hh. apply Hh.
  intros y (sy & [E | []]). injection E as <- _. reflexivity.
Qed.

Lemma mm_init_builds_heap_witness :
  fst (mm_init arena0) = 0
  /\ Inv (snd (mm_init arena0)) [(256, false)]
  /\ heap (snd (mm_init arena0)) = mem_brk arena0 + 104
  /\ GET (mem (snd (mm_init arena0))) (slot (heap (snd (mm_init arena0))) 3)
     = heap (snd (mm_init arena0)) + 8.
Proof. apply (mm_init_builds_heap arena0). exact Concrete.fresh_arena0. Defined.

(** X4. [grow_heap] fails, changing nothing, when the arena is full; when it
    is not, it returns the payload address of a free block that ends the
    arena, the arena is larger by the number of bytes asked for, rounded to
    an even number of words, and the allocated blocks are as they were. *)
Theorem grow_heap_extends_arena st bs words :
  Inv st bs -> 2 <= words -> (words + 1) * 8 < 2 ^ 32 ->
  (mem_max_addr st < mem_brk st + grow_size words -> grow_heap st words = (0, st))
  /\ (mem_brk st + grow_size words <= mem_max_addr st ->
      fst (grow_heap st words) <> 0
      /\ Inv (snd (grow_heap st words)) (coalesced bs (grow_size words) [])
      /\ mem_brk (snd (grow_heap st words)) = mem_brk st + grow_size words
      /\ kept (heap st) bs (mem st) (mem (snd (grow_heap st words)))).
Proof.
  intros HI Hw Hw'. split.
  - intros Hfull. apply grow_heap_full; lia.
  - intros Hroom. pose proof (grow_heap_spec st bs words HI Hw Hw' Hroom) as G. cbv zeta in G.
    destruct G as (Er & HI' & Eh & Eb & _ & Fr). destruct HI as [Ht _].
    pose proof (t_base _ _ Ht) as Hb.
    assert (H0 : 0 <= total (fst (split_last bs))).
    { pose proof (split_last_total bs). pose proof (split_last_nonneg _ _ Ht).
      destruct HI' as [T' _]. unfold coalesced in T'.
      destruct (read_bounds _ _ _ _ _ T') as (_ & _ & ? & _). assumption. }
    split; [rewrite Er; lia|]. split; [exact HI'|]. split; [exact Eb|].
    apply (payload_frame _ _ _ _ _ _ Ht Fr); [intros d Hd; exact Hd|intros c Hc; exact Hc].
Qed.

Lemma grow_heap_extends_arena_witness :
  (mem_max_addr heap0 < mem_brk heap0 + grow_size 32 -> grow_heap heap0 32 = (0, heap0))
  /\ (mem_brk heap0 + grow_size 32 <= mem_max_addr heap0 ->
      fst (grow_heap heap0 32) <> 0
      /\ Inv (snd (grow_heap heap0 32)) (coalesced [(256, false)] (grow_size 32) [])
      /\ mem_brk (snd (grow_heap heap0 32)) = mem_brk heap0 + grow_size 32
      /\ kept (heap heap0) [(256, false)] (mem heap0) (mem (snd (grow_heap heap0 32)))).
Proof.
  apply (grow_heap_extends_arena heap0 [(256, false)] 32).
  - exact Concrete.Inv_heap0.
  - lia.
  - lia.
Defined.

(** X8. [remove_from_list] takes a free block off its list: the heap keeps
    its blocks, the lists hold the other free blocks, no list head points
    to the block, and no payload of an allocated block changes. *)
Theorem remove_from_list_unlinks st bs z :
  Inv st bs -> free_at (heap st) bs z ->
  let st' := remove_from_list st z in
  tiled st' bs
  /\ lists_ok (mem st') (heap st) (fun y => free_at (heap st) bs y /\ y <> z)
  /\ (forall i, 0 <= i < NO_LISTS -> GET (mem st') (slot (heap st) i) <> z)
  /\ kept (heap st) bs (mem st) (mem st').
Proof.
  intros [Ht Hok] Fz. cbv zeta.
  destruct (step_remove st _ _ Ht Hok (fun y H => H) z Fz) as (T1 & L1 & Eh1 & _ & _ & Fr).
  split; [exact T1|]. split; [exact L1|]. split.
  - intros i Hi E. destruct Fz as (sz & Hz).
    pose proof (tiled_blk _ _ Ht _ _ _ Hz) as (_ & _ & _ & Hlo & _).
    pose proof (t_base _ _ Ht) as Hb.
    destruct (l_head _ _ _ L1 i Hi ltac:(rewrite E; lia)) as ((_ & Hne) & _).
    apply Hne. exact E.
  - apply (payload_frame _ _ _ _ _ _ Ht Fr).
    + intros d [Hd _]. exact Hd.
    + intros c [].
Qed.

Lemma remove_from_list_unlinks_witness :
  tiled heap0_unlinked ([] ++ (256, false) :: [])
  /\ lists_ok (mem heap0_unlinked) (heap heap0)
       (fun y => free_at (heap heap0) ([] ++ (256, false) :: []) y
                 /\ y <> heap heap0 + 8 + total [])
  /\ (forall i, 0 <= i < NO_LISTS ->
        GET (mem heap0_unlinked) (slot (heap heap0) i) <> heap heap0 + 8 + total [])
  /\ kept (heap heap0) ([] ++ (256, false) :: []) (mem heap0) (mem heap0_unlinked).
Proof.
  apply (remove_from_list_unlinks heap0 ([] ++ (256, false) :: []) (heap heap0 + 8 + total [])).
  - exact Concrete.Inv_heap0.
  - exact Examples.free_at_heap0.
Defined.

(** X9. [lifo_insert] after [remove_from_list]: the block is back on the
    list of its size, as the head, with no predecessor, and the heap is
    well formed again. *)
Theorem remove_then_insert st bs z :
  Inv st bs -> free_at (heap st) bs z ->
  let st' := lifo_insert (remove_from_list st z) z in
  Inv st' bs
  /\ GET (mem st') (slot (heap st) (bin (mem st') z)) = z
  /\ prv (mem st') (heap st) z = 0.
Proof.
  intros [Ht Hok] Fz. cbv zeta.
  destruct (step_remove st _ _ Ht Hok (fun y H => H) z Fz) as (T1 & L1 & Eh1 & _).
  set (st1 := remove_from_list st z) in *. clearbody st1.
  rewrite <- Eh1 in L1, Fz. rewrite <- Eh1. clear Eh1 Ht Hok.
  set (F1 := fun y => free_at (heap st1) bs y /\ y <> z) in *.
  assert (HF1 : forall y, F1 y -> free_at (heap st1) bs y) by (intros y [Hy _]; exact Hy).
  assert (Gz : any_at (heap st1) bs z) by (apply free_any; exact Fz).
  assert (Nz : ~ F1 z) by (intros [_ Hne]; apply Hne; reflexivity).
  destruct (step_insert st1 bs F1 T1 L1 HF1 z Gz Nz) as (T2 & L2 & Eh2 & _).
  pose proof (tiled_geom _ _ T1) as Hg.
  pose proof (insert_view_prv (heap st1) (mem_brk st1) (any_at (heap st1) bs) F1 Hg
                (fun y Hy => free_any _ _ _ (HF1 y Hy)) st1 eq_refl L1 z Gz Nz z Gz) as Hp.
  rewrite Z.eqb_refl in Hp.
  set (st2 := lifo_insert st1 z) in *. clearbody st2.
  assert (L3 : lists_ok (mem st2) (heap st1) (free_at (heap st1) bs)).
  { eapply lists_ok_iff; [|exact L2]. intros y. cbv beta. split.
    - intros [[H _] | ->]; assumption.
    - intros H. destruct (Z.eq_dec y z) as [E | Hne]; [right; exact E|left; split; assumption]. }
  split; [split; [exact T2|rewrite Eh2; exact L3]|].
  split; [|exact Hp]. apply (l_first _ _ _ L3 z Fz Hp).
Qed.

Lemma remove_then_insert_witness :
  Inv (lifo_insert heap0_unlinked (heap heap0 + 8 + total [])) ([] ++ (256, false) :: [])
  /\ GET (mem (lifo_insert heap0_unlinked (heap heap0 + 8 + total [])))
         (slot (heap heap0)
            (bin (mem (lifo_insert heap0_unlinked (heap heap0 + 8 + total [])))
               (heap heap0 + 8 + total [])))
     = heap heap0 + 8 + total []
  /\ prv (mem (lifo_insert heap0_unlinked (heap heap0 + 8 + total []))) (heap heap0)
         (heap heap0 + 8 + total []) = 0.
Proof.
  apply (remove_then_insert heap0 ([] ++ (256, false) :: []) (heap heap0 + 8 + total [])).
  - exact Concrete.Inv_heap0.
  - exact Examples.free_at_heap0.
Defined.

(** X10. [coalesce] of a block that is tagged free and on no list merges it
    with its free neighbours: it returns the payload address of the merged
    block, no byte of the arena is lost, the heap is well formed, with the
    merged block on its list, and no two free blocks are left side by
    side. *)
Theorem coalesce_merges_neighbours st l1 s l2 :
  tiled st (l1 ++ (s, false) :: l2) ->
  lists_ok (mem st) (heap st) (outside (heap st) l1 s l2) ->
  no_adj (l1 ++ (s, true) :: l2) ->
  let r := coalesce st (heap st + 8 + total l1) in
  fst r = heap st + 8 + total l1 - snd (split_last l1)
  /\ Inv (snd r) (coalesced l1 s l2)
  /\ no_adj (coalesced l1 s l2)
  /\ total (coalesced l1 s l2) = total (l1 ++ (s, false) :: l2).
Proof.
  intros Ht Hok Hna. cbv zeta.
  pose proof (coalesce_spec st l1 s l2 Ht Hok) as C. unfold post in C.
  destruct C as (Er & HI & _). pose proof (split_last_total l1) as EL.
  pose proof (split_first_total l2) as ER.
  split; [rewrite Er; lia|]. split; [exact HI|]. split; [apply no_adj_coalesced; exact Hna|].
  unfold coalesced. rewrite !total_app. cbn [total]. lia.
Qed.

Lemma coalesce_merges_neighbours_witness :
  fst (coalesce heap0_unlinked (heap heap0_unlinked + 8 + total []))
  = heap heap0_unlinked + 8 + total [] - snd (split_last [])
  /\ Inv (snd (coalesce heap0_unlinked (heap heap0_unlinked + 8 + total [])))
         (coalesced [] 256 [])
  /\ no_adj (coalesced [] 256 [])
  /\ total (coalesced [] 256 []) = total ([] ++ (256, false) :: []).
Proof.
  apply (coalesce_merges_neighbours heap0_unlinked [] 256 []).
  - apply Examples.unlinked_ok.
  - apply Examples.unlinked_ok.
  - exact I.
Defined.

(** X7. [place] splits the free block when at least 16 bytes are left over
    and takes all of it otherwise; the payloads of the allocated blocks are
    not touched. *)
Theorem place_splits_or_takes st l1 s l2 asize :
  Inv st (l1 ++ (s, false) :: l2) ->
  16 <= asize -> asize mod 8 = 0 -> asize <= s ->
  let st' := place st (heap st + 8 + total l1) asize in
  (16 <= s - asize -> Inv st' (l1 ++ (asize, true) :: (s - asize, false) :: l2))
  /\ (s - asize < 16 -> Inv st' (l1 ++ (s, true) :: l2))
  /\ kept (heap st) (l1 ++ (s, false) :: l2) (mem st) (mem st').
Proof.
  intros HI H16 H8 Hle. cbv zeta.
  pose proof (place_spec st l1 s l2 asize HI H16 H8 Hle) as P. cbv zeta in P.
  pose proof (place_keeps st l1 s l2 asize HI H16 H8 Hle) as K.
  destruct P as (HI' & _). unfold placed in HI'.
  split; [|split].
  - intros Hs. destruct (Z.leb_spec 16 (s - asize)) as [_ | ?]; [exact HI'|lia].
  - intros Hs. destruct (Z.leb_spec 16 (s - asize)) as [? | _]; [lia|exact HI'].
  - apply kept_mono with (2 := K). apply stays_placed.
Qed.

Lemma place_splits_or_takes_witness :
  (16 <= 256 - 16 ->
   Inv (place heap0 (heap heap0 + 8 + total []) 16)
       ([] ++ (16, true) :: (256 - 16, false) :: []))
  /\ (256 - 16 < 16 -> Inv (place heap0 (heap heap0 + 8 + total []) 16) ([] ++ (256, true) :: []))
  /\ kept (heap heap0) ([] ++ (256, false) :: []) (mem heap0)
          (mem (place heap0 (heap heap0 + 8 + total []) 16)).
Proof.
  apply (place_splits_or_takes heap0 [] 256 [] 16).
  - exact Concrete.Inv_heap0.
  - lia.
  - reflexivity.
  - lia.
Defined.

(** X6. On a well-formed heap [find_fit] returns when it has enough fuel,
    and what it returns is null or the payload address of a free block of
    at least [asize] bytes; it changes nothing, being a pure reader. *)
Theorem find_fit_sound st bs asize :
  Inv st bs ->
  exists fuel0, forall fuel, (fuel0 <= fuel)%nat ->
  exists r, find_fit fuel st asize = Some r
            /\ (r = 0 \/ exists s, blk (heap st) bs r s false /\ asize <= s).
Proof.
  intros [Ht Hok]. destruct (find_fit_spec st _ asize Hok) as (fuel0 & H).
  exists fuel0. intros fuel Hfuel. destruct (H fuel Hfuel) as (r & E & [E0 | ((s & Hb) & Hle)]).
  - exists r. split; [exact E|left; exact E0].
  - exists r. split; [exact E|]. right. exists s. split; [exact Hb|].
    rewrite (tiled_size _ _ Ht _ _ _ Hb) in Hle. exact Hle.
Qed.

Lemma find_fit_sound_witness :
  exists fuel0, forall fuel, (fuel0 <= fuel)%nat ->
  exists r, find_fit fuel heap0 16 = Some r
            /\ (r = 0 \/ exists s, blk (heap heap0) [(256, false)] r s false /\ 16 <= s).
Proof. apply (find_fit_sound heap0 [(256, false)] 16). exact Concrete.Inv_heap0. Defined.

(** X11. [malloc] of a sane size returns when it has enough fuel; it returns
    null only with the heap unchanged, and otherwise an address that is a
    multiple of 8, was not allocated before, and is now an allocated block
    with room for [size] bytes, in a well-formed heap. *)
Theorem malloc_returns_fresh_block st bs size :
  Inv st bs -> sane size ->
  exists fuel0, forall fuel, (fuel0 <= fuel)%nat ->
  exists p st', malloc fuel st size = Some (p, st')
    /\ (p = 0 -> st' = st)
    /\ (p <> 0 ->
        p mod 8 = 0 /\ (forall s0, ~ blk (heap st) bs p s0 true)
        /\ exists bs' s, Inv st' bs' /\ blk (heap st) bs' p s true /\ size + 8 <= s).
Proof.
  intros HI Hs. destruct (malloc_spec st bs size HI Hs) as (fuel0 & H).
  exists fuel0. intros fuel Hfuel.
  destruct (H fuel Hfuel) as (p & st' & bs' & E & HI' & Eh & _ & _ & _ & H0 & Hp & _).
  exists p, st'. split; [exact E|]. split; [exact H0|]. intros Hne.
  destruct (Hp Hne) as ((s & Hb & Hle) & Fresh).
  split; [|split; [exact Fresh|exists bs', s; split; [exact HI'|split; [exact Hb|exact Hle]]]].
  destruct HI' as [T' _]. rewrite <- Eh in Hb. apply (blk_aligned _ _ _ _ _ T' Hb).
Qed.

Lemma malloc_returns_fresh_block_witness :
  exists fuel0, forall fuel, (fuel0 <= fuel)%nat ->
  exists p st', malloc fuel heap0 100 = Some (p, st')
    /\ (p = 0 -> st' = heap0)
    /\ (p <> 0 ->
        p mod 8 = 0 /\ (forall s0, ~ blk (heap heap0) [(256, false)] p s0 true)
        /\ exists bs' s, Inv st' bs' /\ blk (heap heap0) bs' p s true /\ 100 + 8 <= s).
Proof.
  apply (malloc_returns_fresh_block heap0 [(256, false)] 100).
  - exact Concrete.Inv_heap0.
  - unfold sane. lia.
Defined.

(** X12. Whatever fuel it returned with, [malloc] of a sane size leaves every
    payload byte of every allocated block as it was. *)
Theorem malloc_keeps_live_blocks st bs size fuel p st' :
  Inv st bs -> sane size -> malloc fuel st size = Some (p, st') ->
  kept (heap st) bs (mem st) (mem st').
Proof.
  intros HI Hs E. destruct (malloc_spec st bs size HI Hs) as (fuel0 & H).
  destruct (H (Nat.max fuel fuel0) (Nat.le_max_r _ _))
    as (p1 & st1 & bs' & E1 & _ & _ & _ & _ & K & _).
  rewrite (malloc_mono fuel (Nat.max fuel fuel0) _ _ _ (Nat.le_max_l _ _) E) in E1.
  injection E1 as <- <-. exact K.
Qed.

Lemma malloc_keeps_live_blocks_witness :
  kept (heap heap1) ([] ++ (16, true) :: [(240, false)]) (mem heap1)
       (mem (st_of (malloc 1 heap1 24) heap1)).
Proof.
  apply (malloc_keeps_live_blocks heap1 ([] ++ (16, true) :: [(240, false)]) 24 1
           (ret_of (malloc 1 heap1 24))).
  - exact Inv_heap1.
  - unfold sane. lia.
  - apply Concrete.returned_eq. vm_compute. reflexivity.
Defined.

Lemma Inv_heap2 : Inv heap2 ([(16, true)] ++ (24, true) :: [(216, false)]).
Proof.
  pose proof (place_spec heap1 [(16, true)] 240 [] 24 Inv_heap1 ltac:(lia) eq_refl ltac:(lia)) as P.
  cbv zeta in P. destruct P as (HI & _). exact HI.
Qed.

(** X13. [free] leaves every other allocated block allocated, at its address
    and with its size, and its payload bytes as they were. *)
Theorem free_keeps_other_blocks st l1 s l2 y sy :
  Inv st (l1 ++ (s, true) :: l2) ->
  blk (heap st) (l1 ++ (s, true) :: l2) y sy true -> y <> heap st + 8 + total l1 ->
  blk (heap st) (coalesced l1 s l2) y sy true
  /\ forall a, y <= a < y + sy - 8 ->
       mem (free st (heap st + 8 + total l1)) a = mem st a.
Proof.
  intros HI Hy Hne. pose proof HI as [Ht _]. split.
  - apply (stays_coalesced _ l1 s true l2 y sy Hy Hne).
  - pose proof (free_spec st l1 s l2 HI) as F. cbv zeta in F. destruct F as (_ & _ & _ & _ & Fr).
    pose proof (tiled_retag st l1 [(s, true)] l2 s false Ht ltac:(discriminate)
                  ltac:(cbn; lia)) as T0. cbv zeta in T0.
    match type of T0 with tiled ?s0 _ => set (stg := s0) in * end.
    assert (Eg : heap stg = heap st) by reflexivity. clearbody stg. rewrite <- Eg in Fr.
    pose proof (payload_frame _ _ _ _ _ _ T0 Fr (fun d H => H) (fun c H => or_introl H)) as K.
    rewrite Eg in K. intros a Ha. apply (K y sy a); [|exact Ha].
    apply blk_flip; assumption.
Qed.

Lemma free_keeps_other_blocks_witness :
  blk (heap heap2) (coalesced [(16, true)] 24 [(216, false)]) (heap heap2 + 8) 16 true
  /\ forall a, heap heap2 + 8 <= a < heap heap2 + 8 + 16 - 8 ->
       mem (free heap2 (heap heap2 + 8 + total [(16, true)])) a = mem heap2 a.
Proof.
  apply (free_keeps_other_blocks heap2 [(16, true)] 24 [(216, false)] (heap heap2 + 8) 16).
  - exact Inv_heap2.
  - left. reflexivity.
  - cbn [total]. lia.
Defined.

(** X14. [realloc] to a sane size leaves every other allocated block
    allocated, at its address and with its size, and its payload bytes as
    they were. *)
Theorem realloc_keeps_other_blocks st l1 s l2 size fuel q st' y sy :
  Inv st (l1 ++ (s, true) :: l2) -> sane size ->
  realloc fuel st (heap st + 8 + total l1) size = Some (q, st') ->
  blk (heap st) (l1 ++ (s, true) :: l2) y sy true -> y <> heap st + 8 + total l1 ->
  exists bs', Inv st' bs' /\ blk (heap st) bs' y sy true
              /\ forall a, y <= a < y + sy - 8 -> mem st' a = mem st a.
Proof.
  intros HI Hs E Hy Hne. pose proof (realloc_spec st l1 s l2 size HI Hs) as R. cbv zeta in R.
  destruct R as (fuel0 & R).
  destruct (R (Nat.max fuel fuel0) (Nat.le_max_r _ _))
    as (q1 & st1 & bs' & E1 & HI1 & _ & _ & Oth & _).
  rewrite (realloc_mono fuel (Nat.max fuel fuel0) _ _ _ _ (Nat.le_max_l _ _) E) in E1.
  injection E1 as <- <-. exists bs'. split; [exact HI1|]. apply (Oth y sy Hy Hne).
Qed.

Lemma realloc_keeps_other_blocks_witness :
  exists bs', Inv (st_of (realloc 1 heap2 (heap heap2 + 8 + total [(16, true)]) 100) heap2) bs'
    /\ blk (heap heap2) bs' (heap heap2 + 8) 16 true
    /\ forall a, heap heap2 + 8 <= a < heap heap2 + 8 + 16 - 8 ->
         mem (st_of (realloc 1 heap2 (heap heap2 + 8 + total [(16, true)]) 100) heap2) a
         = mem heap2 a.
Proof.
  apply (realloc_keeps_other_blocks heap2 [(16, true)] 24 [(216, false)] 100 1
           (ret_of (realloc 1 heap2 (heap heap2 + 8 + total [(16, true)]) 100))).
  - exact Inv_heap2.
  - unfold sane. lia.
  - apply Concrete.returned_eq. vm_compute. reflexivity.
  - left. reflexivity.
  - cbn [total]. lia.
Defined.

Lemma Inv_heap_full : Inv heap_full ([] ++ (256, true) :: []).
Proof.
  assert (Hf : fresh arena_small) by (constructor; vm_compute; try reflexivity; discriminate).
  destruct (mm_init_spec arena_small Hf) as (_ & HI & _).
  pose proof (place_spec _ [] 256 [] 256 HI ltac:(lia) eq_refl ltac:(lia)) as P.
  cbv zeta in P. destruct P as (HI' & _). exact HI'.
Qed.

(** X15. When [realloc] to a sane size returns null, the block it was given
    has been freed all the same: the heap is the one [free] leaves. *)
Theorem realloc_failure_frees_block st l1 s l2 size fuel st' :
  Inv st (l1 ++ (s, true) :: l2) -> sane size ->
  realloc fuel st (heap st + 8 + total l1) size = Some (0, st') ->
  Inv st' (coalesced l1 s l2)
  /\ forall b, ~ blk (heap st) (coalesced l1 s l2) (heap st + 8 + total l1) b true.
Proof.
  intros HI Hs E. pose proof (realloc_spec st l1 s l2 size HI Hs) as R. cbv zeta in R.
  destruct R as (fuel0 & R).
  destruct (R (Nat.max fuel fuel0) (Nat.le_max_r _ _))
    as (q1 & st1 & bs' & E1 & HI1 & Eh1 & _ & _ & _ & H0 & _).
  rewrite (realloc_mono fuel (Nat.max fuel fuel0) _ _ _ _ (Nat.le_max_l _ _) E) in E1.
  injection E1 as <- <-. rewrite (H0 eq_refl) in HI1. split; [exact HI1|].
  intros b Hb. destruct HI1 as [T1 _]. rewrite <- Eh1 in Hb.
  pose proof (merged_blk (heap st') l1 s l2) as HM.
  pose proof HI as [Ht _].
  pose proof (split_last_total l1) as EL. pose proof (split_last_prefix _ _ _ _ _ Ht) as HL.
  destruct (read_bounds _ _ _ _ _ Ht) as (Hs16 & _).
  assert (HR : 0 <= snd (split_first l2)).
  { destruct l2 as [|[t2 [|]] r]; cbn [split_first snd]; try lia.
    destruct (read_next_blk _ _ _ _ _ Ht _ _ _ eq_refl) as (_ & _ & _ & ?). lia. }
  pose proof (tiled_blk _ _ T1 _ _ _ Hb) as ((Hb16 & _) & _).
  destruct (seg_sep _ _ _ _ _ _ _ _ _ (t_seg _ _ T1) Hb HM) as [(_ & _ & X) | [? | ?]].
  - discriminate X.
  - lia.
  - lia.
Qed.

Lemma realloc_failure_frees_block_witness :
  Inv (st_of (realloc 1 heap_full (heap heap_full + 8 + total []) 1000) heap_full)
      (coalesced [] 256 [])
  /\ forall b, ~ blk (heap heap_full) (coalesced [] 256 []) (heap heap_full + 8 + total []) b true.
Proof.
  apply (realloc_failure_frees_block heap_full [] 256 [] 1000 1).
  - exact Inv_heap_full.
  - unfold sane. lia.
  - transitivity (Some (ret_of (realloc 1 heap_full (heap heap_full + 8 + total []) 1000),
                        st_of (realloc 1 heap_full (heap heap_full + 8 + total []) 1000)
                          heap_full)).
    + apply Concrete.returned_eq. vm_compute. reflexivity.
    + f_equal; f_equal; vm_compute; reflexivity.
Defined.

(** X16. The edge cases of [free] and [realloc] on a well-formed heap: freeing
    null does nothing; resizing null to a size that is not 0 is [malloc];
    resizing a block to 0 returns null, whatever the fuel, after freeing the
    block, which leaves a well-formed heap with the block merged with its
    free neighbours. *)
Theorem realloc_edge_cases st l1 s l2 fuel :
  Inv st (l1 ++ (s, true) :: l2) ->
  let bp := heap st + 8 + total l1 in
  free st 0 = st
  /\ (forall n, n <> 0 -> realloc fuel st 0 n = malloc fuel st n)
  /\ exists st', realloc fuel st bp 0 = Some (0, st')
       /\ Inv st' (coalesced l1 s l2) /\ mem_brk st' = mem_brk st.
Proof.
  intros HI bp. split; [reflexivity|]. split.
  - intros n Hn. unfold realloc.
    destruct (Z.eqb_spec n 0) as [? | _]; [contradiction|]. reflexivity.
  - pose proof (free_spec st l1 s l2 HI) as F. cbv zeta in F.
    destruct F as (HI' & _ & Eb & _).
    exists (free st bp). split; [reflexivity|]. split; [exact HI'|exact Eb].
Qed.

Lemma realloc_edge_cases_witness :
  exists st', realloc 0 heap1 (heap heap1 + 8 + total []) 0 = Some (0, st')
    /\ Inv st' (coalesced [] 16 [(240, false)]) /\ mem_brk st' = mem_brk heap1.
Proof.
  apply (realloc_edge_cases heap1 [] 16 [(240, false)] 0 Inv_heap1).
Defined.

(** X17. [calloc] of a sane number of bytes returns when it has enough fuel;
    unless [malloc] failed, a block that was not allocated before is now
    allocated, in a well-formed heap, and its bytes are zero, but the result
    of [calloc] is null. *)
Theorem calloc_zeroes_and_leaks st bs nmemb size :
  Inv st bs -> sane (u64 (nmemb * size)) ->
  exists fuel0, forall fuel, (fuel0 <= fuel)%nat ->
  exists st', calloc fuel st nmemb size = Some (0, st')
    /\ (st' = st
        \/ exists bs' p s, Inv st' bs' /\ blk (heap st) bs' p s true
             /\ (forall s0, ~ blk (heap st) bs p s0 true)
             /\ forall a, p <= a < p + u64 (nmemb * size) -> mem st' a = 0).
Proof.
  intros HI Hs. destruct (calloc_spec st bs nmemb size HI Hs) as (fuel0 & H).
  exists fuel0. intros fuel Hfuel.
  destruct (H fuel Hfuel) as (st' & bs' & E & HI' & _ & _ & _ & _ & [E0 | (p & s & Hb & Fr & Hz)] & _).
  - exists st'. split; [exact E|left; exact E0].
  - exists st'. split; [exact E|]. right. exists bs', p, s.
    split; [exact HI'|]. split; [exact Hb|]. split; [exact Fr|exact Hz].
Qed.

Lemma calloc_zeroes_and_leaks_witness :
  exists fuel0, forall fuel, (fuel0 <= fuel)%nat ->
  exists st', calloc fuel heap0 4 10 = Some (0, st')
    /\ (st' = heap0
        \/ exists bs' p s, Inv st' bs' /\ blk (heap heap0) bs' p s true
             /\ (forall s0, ~ blk (heap heap0) [(256, false)] p s0 true)
             /\ forall a, p <= a < p + u64 (4 * 10) -> mem st' a = 0).
Proof.
  apply (calloc_zeroes_and_leaks heap0 [(256, false)] 4 10).
  - exact Concrete.Inv_heap0.
  - unfold sane. vm_compute. split; [reflexivity|discriminate].
Defined.

(** X18. In every state reached by calls with sane sizes the heap is well
    formed, no two free blocks lie side by side, and every address the
    caller still holds is the payload address of an allocated block. *)
Theorem reachable_heaps_well_formed st live rets :
  reach sane st live rets ->
  exists bs, Inv st bs /\ no_adj bs
    /\ forall p, In p live -> p mod 8 = 0 /\ exists s, 16 <= s /\ blk (heap st) bs p s true.
Proof.
  intros Hr. destruct (reach_good st live rets Hr) as (bs & HI & Hna & Hl & _).
  exists bs. split; [exact HI|]. split; [exact Hna|]. intros p Hp.
  destruct (Hl p Hp) as (s & Hb). destruct HI as [Ht _].
  pose proof (tiled_blk _ _ Ht _ _ _ Hb) as ((H16 & _) & _ & _ & _ & _ & H8).
  split; [exact H8|]. exists s. split; [exact H16|exact Hb].
Qed.

Lemma reachable_heaps_well_formed_witness :
  exists bs, Inv (st_of (malloc 1 heap0 8) heap0) bs /\ no_adj bs
    /\ forall p, In p (track (ret_of (malloc 1 heap0 8)) []) ->
         p mod 8 = 0
         /\ exists s, 16 <= s /\ blk (heap (st_of (malloc 1 heap0 8) heap0)) bs p s true.
Proof.
  apply (reachable_heaps_well_formed (st_of (malloc 1 heap0 8) heap0)
           (track (ret_of (malloc 1 heap0 8)) []) [ret_of (malloc 1 heap0 8)]).
  apply (reach_malloc sane heap0 [] [] 1 8).
  - apply reach_init. exact Concrete.fresh_arena0.
  - right. unfold sane. lia.
  - apply Concrete.returned_eq. vm_compute. reflexivity.
Defined.

(** X5. [find_size_bin] returns an index of the table of list heads for
    every [int], negative ones too, so that the word [lifo_insert] and
    [find_fit] read for it is one of the 11 list heads below the prologue. *)
Theorem find_size_bin_in_range h a :
  0 <= find_size_bin a < NO_LISTS
  /\ in_slots h (slot h (find_size_bin a))
  /\ slot h (find_size_bin a) + 8 <= h - 8.
Proof.
  pose proof (find_size_bin_range a) as R. split; [exact R|].
  unfold in_slots, slot, FULL_HEAP, NO_LISTS, WSIZE in *. lia.
Qed.

(** X1. A boundary tag written with [PACK] reads back: [GET_SIZE] gives the
    size, [GET_ALLOC] the allocation bit, and the words around it are not
    touched. *)
Theorem pack_round_trip m p s (a : bool) :
  0 <= s -> s + 1 < 2 ^ 32 -> s mod 8 = 0 ->
  let m' := PUT_INT m p (PACK s (Z.b2z a)) in
  GET_SIZE m' p = s /\ GET_ALLOC m' p = Z.b2z a
  /\ forall q, q + 4 <= p \/ p + 4 <= q -> GET_INT m' q = GET_INT m q.
Proof.
  intros H0 H1 H8. cbv zeta. rewrite PACK_tag by assumption.
  unfold GET_SIZE, GET_ALLOC. rewrite GET_INT_PUT_INT_same by (apply tag_range; lia).
  split; [apply tag_size; assumption|]. split; [apply tag_alloc; assumption|].
  intros q Hq. apply GET_INT_PUT_INT_other. exact Hq.
Qed.

Lemma pack_round_trip_witness :
  GET_SIZE (PUT_INT (fun _ => 0) 64 (PACK 48 (Z.b2z true))) 64 = 48
  /\ GET_ALLOC (PUT_INT (fun _ => 0) 64 (PACK 48 (Z.b2z true))) 64 = Z.b2z true
  /\ forall q, q + 4 <= 64 \/ 64 + 4 <= q ->
       GET_INT (PUT_INT (fun _ => 0) 64 (PACK 48 (Z.b2z true))) q = GET_INT (fun _ => 0) q.
Proof. apply (pack_round_trip (fun _ => 0) 64 48 true); [lia|lia|reflexivity]. Defined.

(** X2. On a well-formed heap [NEXT_BLK] leads from a block to the one that
    follows it and [PREV_BLK] back, and [FTR] is the last word of the
    block. *)
Theorem block_navigation st l1 s a t b l2 :
  tiled st (l1 ++ (s, a) :: (t, b) :: l2) ->
  let x := heap st + 8 + total l1 in
  NEXT_BLK (mem st) x = x + s
  /\ PREV_BLK (mem st) (x + s) = x
  /\ FTR (mem st) x = x + s - 4
  /\ GET_SIZE (mem st) (HDR (NEXT_BLK (mem st) x)) = t.
Proof.
  intros Ht. cbv zeta.
  destruct (read_self _ _ _ _ _ Ht) as (_ & _ & En & Ef).
  destruct (read_next_blk _ _ _ _ _ Ht _ _ _ eq_refl) as (Et & _).
  assert (Ht' : tiled st ((l1 ++ [(s, a)]) ++ (t, b) :: l2)).
  { rewrite <- app_assoc. exact Ht. }
  destruct (read_prev_blk _ _ _ _ _ Ht' l1 s a eq_refl) as (Ep & Ex & _).
  rewrite total_app in Ep. cbn [total] in Ep.
  replace (heap st + 8 + (total l1 + (s + 0))) with (heap st + 8 + total l1 + s) in Ep by lia.
  split; [exact En|]. split; [exact Ep|]. split; [exact Ef|]. rewrite En. exact Et.
Qed.

Lemma block_navigation_witness :
  NEXT_BLK (mem heap1) (heap heap1 + 8 + total []) = heap heap1 + 8 + total [] + 16
  /\ PREV_BLK (mem heap1) (heap heap1 + 8 + total [] + 16) = heap heap1 + 8 + total []
  /\ FTR (mem heap1) (heap heap1 + 8 + total []) = heap heap1 + 8 + total [] + 16 - 4
  /\ GET_SIZE (mem heap1) (HDR (NEXT_BLK (mem heap1) (heap heap1 + 8 + total []))) = 240.
Proof. apply (block_navigation heap1 [] 16 true 240 false []). apply Inv_heap1. Defined.

